(** * The dual-secret file envelope of enc-denc: a shallow embedding

    The program encrypts a file under a random data key (DEK), wraps the
    DEK under a master key derived from a password and a receiver email,
    and frames the result as [MAGIC || length || metadata JSON || payload].

    Embedded sources:
    - [src/utils/security.ts], which holds in this order the security
      constants with [generateSalt] and [securityLog], the metadata codec
      ([packageMetadata], [parseMetadata]), [deriveKeyPBKDF2], the key
      management ([generateDataEncryptionKey], [deriveMasterKey],
      [wrapDataKey], [unwrapDataKey]) and [encryptFileStream];
    - [src/modules/DecryptionStream.ts]: [decryptFileStream];
    - [src/components/SteganographyForm.tsx], second part: the component
      [CryptoForm] with [handleEncrypt] and [handleDecrypt].

    The browser primitives (WebCrypto, [JSON], [TextEncoder]) are not part
    of the repository: they are the fields of the class [Platform].  Base64
    ([btoa]/[atob]), typed arrays and [DataView] are small enough to be
    written out. *)

From Stdlib Require Import NArith ZArith String Ascii Lia Bool List.
From Stdlib.Strings Require Import Byte.
Import ListNotations.
Local Open Scope N_scope.
Local Open Scope list_scope.

Set Implicit Arguments.

(** ** Bytes and JavaScript strings *)

(** An [ArrayBuffer] is a sequence of bytes. *)
Definition ArrayBuffer := list byte.

(** A JavaScript string is a sequence of UTF-16 code units. *)
Definition js_string := list N.

(** The code units of an ASCII literal. *)
Definition js (s : string) : js_string :=
  List.map N_of_ascii (list_ascii_of_string s).

(** Storing a number into a [Uint8Array] element keeps its low 8 bits. *)
Definition toUint8 (n : N) : byte :=
  match Byte.of_N (n mod 256) with
  | Some b => b
  | None => x00
  end.

(** ** Exceptions *)

(** What a [throw] can carry.  [Error] is what the repository's own
    [throw new Error(msg)] statements raise; the others are raised by the
    runtime and the browser. *)
Inductive exn : Type :=
| Error (message : string)
| SyntaxError
| TypeError
| RangeError
| DOMException (name : string).

(** ** Base64: [btoa] and [atob] *)

Module Base64.

Definition alphabet : js_string :=
  js "ABCDEFGHIJKLMNOPQRSTUVWXYZabcdefghijklmnopqrstuvwxyz0123456789+/".

Definition pad : N := 61. (* '=' *)

Definition digit (i : N) : N := nth (N.to_nat i) alphabet 0.

Fixpoint find_index (c : N) (l : js_string) (i : N) : option N :=
  match l with
  | [] => None
  | x :: l' => if N.eqb x c then Some i else find_index c l' (i + 1)
  end.

Definition index (c : N) : option N := find_index c alphabet 0.

(** The 6-bit groups of a byte string, the last one zero-filled. *)
Fixpoint sextets (s : list N) : list N :=
  match s with
  | [] => []
  | [a] => [a / 4; (a mod 4) * 16]
  | [a; b] => [a / 4; (a mod 4) * 16 + b / 16; (b mod 16) * 4]
  | a :: b :: c :: rest =>
      a / 4 :: (a mod 4) * 16 + b / 16 :: (b mod 16) * 4 + c / 64 :: c mod 64
        :: sextets rest
  end.

Definition padding (len : nat) : js_string :=
  match Nat.modulo len 3 with
  | 1%nat => [pad; pad]
  | 2%nat => [pad]
  | _ => []
  end.

(** The base64 text of a string of bytes. *)
Definition encode (s : js_string) : js_string :=
  List.map digit (sextets s) ++ padding (length s).

(** [btoa(s)]: throws [InvalidCharacterError] when [s] has a code unit
    above 0xFF. *)
Definition btoa (s : js_string) : exn + js_string :=
  if forallb (fun c => c <? 256) s
  then inr (encode s)
  else inl (DOMException "InvalidCharacterError").

Definition is_ascii_whitespace (c : N) : bool :=
  (c =? 9) || (c =? 10) || (c =? 12) || (c =? 13) || (c =? 32).

(** Removes one or two trailing ['='] from data whose length is a multiple
    of four. *)
Definition strip_padding (s : js_string) : js_string :=
  if Nat.eqb (Nat.modulo (length s) 4) 0 then
    match rev s with
    | p1 :: p2 :: r =>
        if p1 =? pad then (if p2 =? pad then rev r else rev (p2 :: r)) else s
    | _ => s
    end
  else s.

Fixpoint indices (s : js_string) : option (list N) :=
  match s with
  | [] => Some []
  | c :: s' =>
      match index c, indices s' with
      | Some i, Some l => Some (i :: l)
      | _, _ => None
      end
  end.

(** Bytes of a sequence of 6-bit groups; the bits left over at the end
    (four after two groups, two after three) are discarded. *)
Fixpoint octets (l : list N) : list N :=
  match l with
  | s0 :: s1 :: s2 :: s3 :: rest =>
      s0 * 4 + s1 / 16 :: (s1 mod 16) * 16 + s2 / 4 :: (s2 mod 4) * 64 + s3
        :: octets rest
  | [s0; s1; s2] => [s0 * 4 + s1 / 16; (s1 mod 16) * 16 + s2 / 4]
  | [s0; s1] => [s0 * 4 + s1 / 16]
  | _ => []
  end.

(** [atob(s)], the forgiving-base64 decode of the HTML standard. *)
Definition atob (s : js_string) : exn + js_string :=
  let data := strip_padding (filter (fun c => negb (is_ascii_whitespace c)) s) in
  if Nat.eqb (Nat.modulo (length data) 4) 1
  then inl (DOMException "InvalidCharacterError")
  else match indices data with
       | Some l => inr (octets l)
       | None => inl (DOMException "InvalidCharacterError")
       end.

(** Six-bit and eight-bit values. *)
Definition lt64 (i : N) : Prop := i < 64.
Definition lt256 (c : N) : Prop := c < 256.

End Base64.

(** ** JSON values and the conversions JavaScript applies to them *)

Section Json.
Variable number : Type.

Local Unset Elimination Schemes.
Inductive json : Type :=
| JNull
| JBool (b : bool)
| JNumber (n : number)
| JString (s : js_string)
| JArray (items : list json)
| JObject (props : list (js_string * json)).
Local Set Elimination Schemes.

(** A JavaScript value that came out of [JSON.parse], or [undefined]. *)
Definition js_value := option json.

Definition js_string_eqb (a b : js_string) : bool :=
  if list_eq_dec N.eq_dec a b then true else false.

Fixpoint own_property (key : js_string) (props : list (js_string * json))
  : js_value :=
  match props with
  | [] => None
  | (k, v) :: rest =>
      if js_string_eqb k key then Some v else own_property key rest
  end.

(** [v.key] for the keys the program reads ([fileName], [sp], [se], [wiv],
    [wdek]): none of them is found on a prototype, so only an object's own
    properties matter; reading a property of [null] throws. *)
Definition get (v : json) (key : js_string) : exn + js_value :=
  match v with
  | JNull => inl TypeError
  | JObject props => inr (own_property key props)
  | _ => inr None
  end.

Variable Number_toString : number -> js_string.

Definition comma : N := 44.

(** [ToString]: what a function that expects a string (as [atob] does)
    makes of its argument.  An array joins its items; an object prints as
    [[object Object]] unless it carries a [toString] property of its own,
    which after [JSON.parse] is never callable. *)
Fixpoint ToString_json (v : json) : exn + js_string :=
  match v with
  | JNull => inr (js "null")
  | JBool true => inr (js "true")
  | JBool false => inr (js "false")
  | JNumber n => inr (Number_toString n)
  | JString s => inr s
  | JArray items =>
      (fix join (l : list json) : exn + js_string :=
         match l with
         | [] => inr []
         | x :: rest =>
             match (match x with JNull => inr [] | _ => ToString_json x end),
                   join rest with
             | inr s, inr t =>
                 inr (match rest with [] => s | _ => s ++ comma :: t end)
             | inl e, _ => inl e
             | _, inl e => inl e
             end
         end) items
  | JObject props =>
      match own_property (js "toString") props with
      | Some _ => inl TypeError
      | None => inr (js "[object Object]")
      end
  end.

Definition ToString (v : js_value) : exn + js_string :=
  match v with
  | None => inr (js "undefined")
  | Some j => ToString_json j
  end.

End Json.

Arguments JNull {number}.
Arguments JBool {number} b.
Arguments JString {number} s.

(** ** The platform *)

(** The primitives the program calls and the repository does not define.
    [AES_GCM_encrypt] returns ciphertext followed by the 16-byte tag;
    [AES_GCM_decrypt] returns [None] when the tag does not verify.
    [JSON_parse] returns [None] where the browser throws a [SyntaxError]. *)
Class Platform : Type := {
  number : Type;
  Number_toString : number -> js_string;
  JSON_stringify : json number -> js_string;
  JSON_parse : js_string -> option (json number);
  TextEncoder_encode : js_string -> list byte;
  TextDecoder_decode : list byte -> js_string;
  PBKDF2_HMAC :
    forall (hash : string) (password salt : list byte) (iterations bits : N),
      list byte;
  HKDF_expand :
    forall (hash : string) (ikm salt info : list byte) (bits : N), list byte;
  AES_GCM_encrypt : forall (key iv plaintext : list byte), list byte;
  AES_GCM_decrypt : forall (key iv data : list byte), option (list byte)
}.

(** ** Typed arrays, blobs and files *)

(** A [Uint8Array] is a window on an [ArrayBuffer]. *)
Record Uint8Array : Type := {
  buffer : ArrayBuffer;
  byteOffset : nat;
  byteLength : nat
}.

(** The bytes seen through the window. *)
Definition elements (u : Uint8Array) : list byte :=
  firstn (byteLength u) (skipn (byteOffset u) (buffer u)).

(** [new Uint8Array(buffer)]: the window is the whole buffer. *)
Definition Uint8Array_of (b : ArrayBuffer) : Uint8Array :=
  {| buffer := b; byteOffset := 0; byteLength := length b |}.

(** [new Uint8Array(n)]: [n] zero bytes. *)
Definition Uint8Array_new (n : nat) : Uint8Array :=
  Uint8Array_of (repeat x00 n).

(** [target.set(source, offset)] on the bytes of [target]. *)
Definition set_bytes (target source : list byte) (offset : nat)
  : exn + list byte :=
  if Nat.leb (offset + length source) (length target)
  then inr (firstn offset target ++ source
              ++ skipn (offset + length source) target)
  else inl RangeError.

(** The four bytes of [value mod 2^32], least significant first. *)
Definition le32 (value : N) : list byte :=
  [toUint8 value; toUint8 (value / 256); toUint8 (value / 65536);
   toUint8 (value / 16777216)].

(** [view.setUint32(offset, value, true)]. *)
Definition setUint32_le (target : list byte) (offset : nat) (value : N)
  : exn + list byte :=
  set_bytes target (le32 value) offset.

(** [view.getUint32(offset, true)]. *)
Definition getUint32_le (source : list byte) (offset : nat) : exn + N :=
  match skipn offset source with
  | b0 :: b1 :: b2 :: b3 :: _ =>
      inr (Byte.to_N b0 + 256 * Byte.to_N b1 + 65536 * Byte.to_N b2
           + 16777216 * Byte.to_N b3)
  | _ => inl RangeError
  end.

(** A [Blob] is its bytes; a [File] adds a name.  These are the bytes a
    read of the blob ([arrayBuffer()]) delivers: a blob is one the browser
    can read, and a read that rejects is not modelled. *)
Definition Blob := list byte.

Record File : Type := { name : js_string; content : Blob }.

(** [blob.slice(start, end)] for non-negative arguments: both ends are
    clamped to the size. *)
Definition slice (b : list byte) (start stop : nat) : list byte :=
  firstn (stop - start) (skipn start b).

(** [blob.slice(start)]. *)
Definition slice_from (b : list byte) (start : nat) : list byte :=
  skipn start b.

(** ** Keys *)

Inductive AlgorithmName : Type := PBKDF2 | HKDF | AES_GCM.

(** [key.algorithm]: the name, and for an AES key its length in bits. *)
Record KeyAlgorithm : Type := {
  alg_name : AlgorithmName;
  alg_length : option N
}.

Definition name_eqb (a b : AlgorithmName) : bool :=
  match a, b with
  | PBKDF2, PBKDF2 | HKDF, HKDF | AES_GCM, AES_GCM => true
  | _, _ => false
  end.

Inductive KeyUsage : Type :=
| encrypt | decrypt | wrapKey | unwrapKey | deriveKey.

(** A [CryptoKey]: [raw] is the key material behind the handle, which a
    script reaches only through [exportKey] when [extractable] is set. *)
Record CryptoKey : Type := {
  algorithm : KeyAlgorithm;
  extractable : bool;
  usages : list KeyUsage;
  raw : list byte
}.

Definition usage_eqb (a b : KeyUsage) : bool :=
  match a, b with
  | encrypt, encrypt | decrypt, decrypt | wrapKey, wrapKey
  | unwrapKey, unwrapKey | deriveKey, deriveKey => true
  | _, _ => false
  end.

Definition has_usage (u : KeyUsage) (k : CryptoKey) : bool :=
  existsb (usage_eqb u) (usages k).

(** The parameter object of [deriveKey]. *)
Inductive DeriveParams : Type :=
| Pbkdf2Params (salt : list byte) (iterations : N) (hash : string)
| HkdfParams (hash : string) (salt info : list byte).

(** ** Effects: the random source and the trace of observable calls *)

Inductive Level : Type := INFO | WARN | ERROR.

(** The parts of a template literal. *)
Inductive fragment : Type :=
| Text (s : string)
| Num (n : nat)
| Str (s : js_string)
| Thrown (e : exn).

Inductive Event : Type :=
| ConsoleLog (level : Level) (message : list fragment)
| GetRandomValues (bytes : list byte)
| SubtleImportKey (algorithm : AlgorithmName) (data : list byte)
| SubtleExportKey (key : CryptoKey)
| SubtleGenerateKey (key : CryptoKey)
| SubtleDeriveKey (params : DeriveParams) (base : CryptoKey)
| SubtleEncrypt (key : CryptoKey) (iv data : list byte)
| SubtleDecrypt (key : CryptoKey) (iv data : list byte).

(** The state a run threads: the secure random source as the sequence of
    all bytes it delivers, how many of them were consumed, and what
    happened so far (oldest first). *)
Record World : Type := {
  random : nat -> byte;
  consumed : nat;
  trace : list Event
}.

(** A computation that may throw. *)
Definition M (A : Type) : Type := World -> (exn + A) * World.

Definition ret {A} (a : A) : M A := fun w => (inr a, w).

Definition throw {A} (e : exn) : M A := fun w => (inl e, w).

Definition bind {A B} (m : M A) (k : A -> M B) : M B :=
  fun w =>
    match m w with
    | (inr a, w') => k a w'
    | (inl e, w') => (inl e, w')
    end.

(** [try { m } catch (e) { handler e }]. *)
Definition try_catch {A} (m : M A) (handler : exn -> M A) : M A :=
  fun w =>
    match m w with
    | (inr a, w') => (inr a, w')
    | (inl e, w') => handler e w'
    end.

Definition lift {A} (r : exn + A) : M A := fun w => (r, w).

Definition emit (e : Event) : M unit :=
  fun w =>
    (inr tt,
     {| random := random w; consumed := consumed w;
        trace := trace w ++ [e] |}).

(** Takes the next [n] bytes of the random source. *)
Definition draw (n : nat) : M (list byte) :=
  fun w =>
    (inr (List.map (fun i => random w (consumed w + i)%nat) (seq 0 n)),
     {| random := random w; consumed := (consumed w + n)%nat;
        trace := trace w |}).

Declare Scope m_scope.
Delimit Scope m_scope with m.
Notation "x <- m ;; k" := (bind m (fun x => k))
  (at level 61, m at next level, right associativity) : m_scope.
Notation "m ;; k" := (bind m (fun _ => k))
  (at level 61, right associativity) : m_scope.
Local Open Scope m_scope.

(** ** The Web Crypto API, over the platform's primitives *)

Section Program.
Context {P : Platform}.

Definition valid_aes_bits (bits : N) : bool :=
  (bits =? 128) || (bits =? 192) || (bits =? 256).

(** [crypto.getRandomValues(array)]: fills the window of [array] in place
    and returns it. *)
Definition crypto_getRandomValues (u : Uint8Array) : M Uint8Array :=
  if 65536 <? N.of_nat (byteLength u)
  then throw (DOMException "QuotaExceededError")
  else
    bytes <- draw (byteLength u) ;;
    emit (GetRandomValues bytes) ;;
    ret {| buffer := firstn (byteOffset u) (buffer u) ++ bytes
                       ++ skipn (byteOffset u + byteLength u) (buffer u);
           byteOffset := byteOffset u;
           byteLength := byteLength u |}.

(** [crypto.subtle.importKey('raw', data, {name}, extractable, usages)]. *)
Definition subtle_importKey (data : list byte) (name : AlgorithmName)
    (ext : bool) (us : list KeyUsage) : M CryptoKey :=
  emit (SubtleImportKey name data) ;;
  match name with
  | AES_GCM =>
      let bits := 8 * N.of_nat (length data) in
      if valid_aes_bits bits
      then ret {| algorithm := {| alg_name := AES_GCM; alg_length := Some bits |};
                  extractable := ext; usages := us; raw := data |}
      else throw (DOMException "DataError")
  | _ =>
      if ext then throw SyntaxError
      else ret {| algorithm := {| alg_name := name; alg_length := None |};
                  extractable := false; usages := us; raw := data |}
  end.

(** [crypto.subtle.exportKey('raw', key)]. *)
Definition subtle_exportKey (key : CryptoKey) : M ArrayBuffer :=
  emit (SubtleExportKey key) ;;
  if extractable key then ret (raw key)
  else throw (DOMException "InvalidAccessError").

(** [crypto.subtle.generateKey({name: 'AES-GCM', length}, extractable,
    usages)]: the key material comes from the secure random source. *)
Definition subtle_generateKey (bits : N) (ext : bool) (us : list KeyUsage)
  : M CryptoKey :=
  if valid_aes_bits bits then
    material <- draw (N.to_nat (bits / 8)) ;;
    let key := {| algorithm := {| alg_name := AES_GCM; alg_length := Some bits |};
                  extractable := ext; usages := us; raw := material |} in
    emit (SubtleGenerateKey key) ;;
    ret key
  else throw (DOMException "OperationError").

Definition params_name (p : DeriveParams) : AlgorithmName :=
  match p with
  | Pbkdf2Params _ _ _ => PBKDF2
  | HkdfParams _ _ _ => HKDF
  end.

Definition params_hash (p : DeriveParams) : string :=
  match p with
  | Pbkdf2Params _ _ h => h
  | HkdfParams h _ _ => h
  end.

Definition supported_hash (h : string) : bool :=
  existsb (String.eqb h) ["SHA-1"; "SHA-256"; "SHA-384"; "SHA-512"]%string.

(** [crypto.subtle.deriveKey(params, baseKey, {name: 'AES-GCM', length},
    extractable, usages)]. *)
Definition subtle_deriveKey (params : DeriveParams) (baseKey : CryptoKey)
    (bits : N) (ext : bool) (us : list KeyUsage) : M CryptoKey :=
  emit (SubtleDeriveKey params baseKey) ;;
  if negb (name_eqb (alg_name (algorithm baseKey)) (params_name params))
     || negb (has_usage deriveKey baseKey)
  then throw (DOMException "InvalidAccessError")
  else if negb (supported_hash (params_hash params))
  then throw (DOMException "NotSupportedError")
  else if negb (valid_aes_bits bits) then throw (DOMException "OperationError")
  else
    match params with
    | Pbkdf2Params salt iterations hash =>
        if iterations =? 0 then throw (DOMException "OperationError")
        else ret {| algorithm := {| alg_name := AES_GCM; alg_length := Some bits |};
                    extractable := ext; usages := us;
                    raw := PBKDF2_HMAC hash (raw baseKey) salt iterations bits |}
    | HkdfParams hash salt info =>
        ret {| algorithm := {| alg_name := AES_GCM; alg_length := Some bits |};
               extractable := ext; usages := us;
               raw := HKDF_expand hash (raw baseKey) salt info bits |}
    end.

(** [crypto.subtle.encrypt({name: 'AES-GCM', iv}, key, data)]. *)
Definition subtle_encrypt (iv : list byte) (key : CryptoKey) (data : list byte)
  : M ArrayBuffer :=
  emit (SubtleEncrypt key iv data) ;;
  if name_eqb (alg_name (algorithm key)) AES_GCM && has_usage encrypt key
  then ret (AES_GCM_encrypt (raw key) iv data)
  else throw (DOMException "InvalidAccessError").

(** [crypto.subtle.decrypt({name: 'AES-GCM', iv}, key, data)]: a tag that
    does not verify is an [OperationError]. *)
Definition subtle_decrypt (iv : list byte) (key : CryptoKey) (data : list byte)
  : M ArrayBuffer :=
  emit (SubtleDecrypt key iv data) ;;
  if name_eqb (alg_name (algorithm key)) AES_GCM && has_usage decrypt key
  then match AES_GCM_decrypt (raw key) iv data with
       | Some plaintext => ret plaintext
       | None => throw (DOMException "OperationError")
       end
  else throw (DOMException "InvalidAccessError").

(** ** Security constants ([src/utils/security.ts], lines 1-30) *)

Record Pbkdf2Config : Type := {
  iterations : N;
  hash : string;
  keyLen : N
}.

Definition PBKDF2_PARAMS : Pbkdf2Config :=
  {| iterations := 600000; hash := "SHA-256"; keyLen := 32 |}.

Definition AES_KEY_LENGTH : N := 256.
Definition AES_IV_LENGTH : nat := 12.
Definition AES_TAG_LENGTH : nat := 16.
Definition SALT_LENGTH : nat := 16.

Definition generateSalt (length : nat) : M Uint8Array :=
  crypto_getRandomValues (Uint8Array_new length).

(** [securityLog] prints one console line; the time stamp it prefixes is
    left out. *)
Definition securityLog (message : list fragment) (level : Level) : M unit :=
  emit (ConsoleLog level message).

(** ** The metadata codec ([src/utils/security.ts], lines 30-181) *)

Definition MAGIC_HEADER : Uint8Array :=
  Uint8Array_of [x44; x59; x41; x44].

(** The object literal [{fileName, sp, se, wiv, wdek}] of interface
    [Metadata]. *)
Definition Metadata (fileName sp se wiv wdek : js_string) : json number :=
  JObject [(js "fileName", JString fileName); (js "sp", JString sp);
           (js "se", JString se); (js "wiv", JString wiv);
           (js "wdek", JString wdek)].

Definition arrayBufferToBase64 (buffer : ArrayBuffer) : M js_string :=
  let bytes := Uint8Array_of buffer in
  let binary := List.map Byte.to_N (elements bytes) in
  lift (Base64.btoa binary).

(** The argument is typed [string]; at run time it is whatever the parsed
    JSON holds, and [atob] converts it to a string first. *)
Definition base64ToArrayBuffer (base64 : js_value number) : M ArrayBuffer :=
  s <- lift (ToString Number_toString base64) ;;
  binary_string <- lift (Base64.atob s) ;;
  ret (List.map toUint8 binary_string).

Definition packageMetadata (fileName : js_string) (sp se wiv : Uint8Array)
    (wdek : ArrayBuffer) : M Uint8Array :=
  securityLog [Text "Packaging metadata header."] INFO ;;
  sp64 <- arrayBufferToBase64 (buffer sp) ;;
  se64 <- arrayBufferToBase64 (buffer se) ;;
  wiv64 <- arrayBufferToBase64 (buffer wiv) ;;
  wdek64 <- arrayBufferToBase64 wdek ;;
  let metadata := Metadata fileName sp64 se64 wiv64 wdek64 in
  let metadataJson := JSON_stringify metadata in
  let metadataBuffer := TextEncoder_encode metadataJson in
  let headerLength :=
    (byteLength MAGIC_HEADER + 4 + length metadataBuffer)%nat in
  let header := Uint8Array_new headerLength in
  let offset := 0%nat in
  h1 <- lift (set_bytes (buffer header) (elements MAGIC_HEADER) offset) ;;
  let offset := (offset + byteLength MAGIC_HEADER)%nat in
  h2 <- lift (setUint32_le h1 offset (N.of_nat (length metadataBuffer))) ;;
  let offset := (offset + 4)%nat in
  h3 <- lift (set_bytes h2 metadataBuffer offset) ;;
  securityLog [Text "Metadata packaged. Total header size: ";
               Num headerLength; Text " bytes."] INFO ;;
  ret (Uint8Array_of h3).

Record ParsedMetadata : Type := {
  fileName : js_value number;
  sp : ArrayBuffer;
  se : ArrayBuffer;
  wiv : ArrayBuffer;
  wdek : ArrayBuffer;
  headerLength : nat
}.

(** [magic[i] !== MAGIC_HEADER[i]]: an index past the end reads
    [undefined], which differs from every byte. *)
Definition differs (a b : option byte) : bool :=
  match a, b with
  | Some x, Some y => negb (Byte.eqb x y)
  | None, None => false
  | _, _ => true
  end.

Definition parseMetadata (file : File) : M ParsedMetadata :=
  securityLog [Text "Starting metadata parsing."] INFO ;;
  let magicAndLengthBuffer := slice (content file) 0 8 in
  let magic := Uint8Array_of (slice magicAndLengthBuffer 0 4) in
  let at_ (u : Uint8Array) (i : nat) := nth_error (elements u) i in
  if differs (at_ magic 0%nat) (at_ MAGIC_HEADER 0%nat)
     || differs (at_ magic 1%nat) (at_ MAGIC_HEADER 1%nat)
     || differs (at_ magic 2%nat) (at_ MAGIC_HEADER 2%nat)
     || differs (at_ magic 3%nat) (at_ MAGIC_HEADER 3%nat)
  then throw (Error "Invalid file format: Magic header mismatch.")
  else
    metadataLength <- lift (getUint32_le magicAndLengthBuffer 4) ;;
    let headerLength := (8 + N.to_nat metadataLength)%nat in
    let metadataJsonBuffer := slice (content file) 8 headerLength in
    let metadataJson := TextDecoder_decode metadataJsonBuffer in
    metadata <-
      try_catch
        (match JSON_parse metadataJson with
         | Some v => ret v
         | None => throw SyntaxError
         end)
        (fun _ =>
           throw (Error "Invalid file format: Metadata JSON parsing failed.")) ;;
    fileName <- lift (get metadata (js "fileName")) ;;
    sp_field <- lift (get metadata (js "sp")) ;;
    sp <- base64ToArrayBuffer sp_field ;;
    se_field <- lift (get metadata (js "se")) ;;
    se <- base64ToArrayBuffer se_field ;;
    wiv_field <- lift (get metadata (js "wiv")) ;;
    wiv <- base64ToArrayBuffer wiv_field ;;
    wdek_field <- lift (get metadata (js "wdek")) ;;
    wdek <- base64ToArrayBuffer wdek_field ;;
    let parsed := {| fileName := fileName; sp := sp; se := se; wiv := wiv;
                     wdek := wdek; headerLength := headerLength |} in
    if negb (Nat.eqb (length sp) SALT_LENGTH)
       || negb (Nat.eqb (length se) SALT_LENGTH)
    then throw (Error "Metadata integrity check failed: Invalid salt length.")
    else if negb (Nat.eqb (length wiv) AES_IV_LENGTH)
    then throw
           (Error "Metadata integrity check failed: Invalid wrapping IV length.")
    else
      securityLog [Text "Metadata parsed successfully. Header length: ";
                   Num headerLength; Text "."] INFO ;;
      ret parsed.

(** ** Key derivation ([src/utils/security.ts], lines 181-221) *)

(** [salt] stands for the bytes of the buffer source passed as salt. *)
Definition deriveKeyPBKDF2 (secret : js_string) (salt : list byte)
  : M CryptoKey :=
  securityLog [Text "Starting PBKDF2 key derivation."] INFO ;;
  let secretBuffer := TextEncoder_encode secret in
  baseKey <- subtle_importKey secretBuffer PBKDF2 false [deriveKey] ;;
  derivedKey <-
    subtle_deriveKey
      (Pbkdf2Params salt (iterations PBKDF2_PARAMS) (hash PBKDF2_PARAMS))
      baseKey (keyLen PBKDF2_PARAMS * 8) true
      [encrypt; decrypt; wrapKey; unwrapKey] ;;
  securityLog [Text "PBKDF2 key derivation successful."] INFO ;;
  ret derivedKey.

(** ** Key management ([src/utils/security.ts], lines 221-346) *)

Definition generateDataEncryptionKey : M CryptoKey :=
  securityLog [Text "Generating random DEK."] INFO ;;
  subtle_generateKey AES_KEY_LENGTH true [encrypt; decrypt].

Definition master_key_info : js_string :=
  js "Dyad File Encryption Master Key".

Definition deriveMasterKey (kp ke : CryptoKey) : M CryptoKey :=
  securityLog [Text "Deriving Master Key (KM) using HKDF."] INFO ;;
  kpRaw <- subtle_exportKey kp ;;
  keRaw <- subtle_exportKey ke ;;
  let ikm := Uint8Array_new (length kpRaw + length keRaw) in
  ikm1 <- lift (set_bytes (buffer ikm) kpRaw 0) ;;
  ikm2 <- lift (set_bytes ikm1 keRaw (length kpRaw)) ;;
  hkdfKey <- subtle_importKey ikm2 HKDF false [deriveKey] ;;
  km <-
    subtle_deriveKey
      (HkdfParams "SHA-256" [] (TextEncoder_encode master_key_info))
      hkdfKey AES_KEY_LENGTH false [encrypt; decrypt] ;;
  securityLog [Text "Master Key derivation complete."] INFO ;;
  ret km.

Definition wrapDataKey (dek km : CryptoKey) : M (ArrayBuffer * Uint8Array) :=
  securityLog [Text "Wrapping DEK using KM (AES-GCM)."] INFO ;;
  dekRaw <- subtle_exportKey dek ;;
  iv <- crypto_getRandomValues (Uint8Array_new AES_IV_LENGTH) ;;
  wrappedKey <- subtle_encrypt (elements iv) km dekRaw ;;
  securityLog [Text "DEK wrapping complete."] INFO ;;
  ret (wrappedKey, iv).

Definition unwrapDataKey (wrappedKey : ArrayBuffer) (iv : list byte)
    (km : CryptoKey) : M CryptoKey :=
  securityLog [Text "Attempting to unwrap DEK."] INFO ;;
  try_catch
    (dekRaw <- subtle_decrypt iv km wrappedKey ;;
     dek <- subtle_importKey dekRaw AES_GCM true [encrypt; decrypt] ;;
     securityLog [Text "DEK unwrapping successful."] INFO ;;
     ret dek)
    (fun _ =>
       securityLog
         [Text "DEK unwrapping failed. Invalid password/email combination."]
         ERROR ;;
       throw (Error "Authentication failed: Invalid password or receiver email.")).

(** ** The payload cipher: encryption ([src/utils/security.ts], lines 346-387) *)

Definition encryptFileStream (file : File) (dek : CryptoKey) : M Blob :=
  securityLog [Text "Starting encryption for file: "; Str (name file)] INFO ;;
  let fileBuffer := content file in
  securityLog [Text "File loaded into memory ("; Num (length fileBuffer);
               Text " bytes)."] INFO ;;
  iv <- crypto_getRandomValues (Uint8Array_new AES_IV_LENGTH) ;;
  encryptedDataWithTag <- subtle_encrypt (elements iv) dek fileBuffer ;;
  let ivBuffer := buffer iv in
  let encryptedBlob := ivBuffer ++ encryptedDataWithTag in
  securityLog [Text "File encryption complete."] INFO ;;
  ret encryptedBlob.

(** ** The payload cipher: decryption ([src/modules/DecryptionStream.ts]) *)

Definition decryptFileStream (encryptedBlob : Blob) (dek : CryptoKey)
  : M Blob :=
  securityLog [Text "Starting decryption and integrity verification."] INFO ;;
  let encryptedBuffer := encryptedBlob in
  if Nat.ltb (length encryptedBuffer) (AES_IV_LENGTH + AES_TAG_LENGTH)
  then throw (Error "Encrypted data too short.")
  else
    let iv := slice encryptedBuffer 0 AES_IV_LENGTH in
    let ciphertextWithTag := slice_from encryptedBuffer AES_IV_LENGTH in
    try_catch
      (decryptedData <- subtle_decrypt iv dek ciphertextWithTag ;;
       securityLog
         [Text "Decryption successful. Integrity verified (Authentication Tag passed)."]
         INFO ;;
       ret decryptedData)
      (fun _ =>
         securityLog
           [Text "Decryption failed. Authentication Tag verification failed."]
           ERROR ;;
         throw
           (Error "Integrity check failed: Data may be corrupted or key is incorrect.")).

(** ** The form [CryptoForm] ([src/components/SteganographyForm.tsx], lines 189-434) *)

Definition ENCRYPTED_FILE_EXTENSION : js_string := js ".dyadenc".
Definition MIN_PASSWORD_LENGTH : nat := 7.

(** The body of the [try] block of [handleEncrypt], up to [finalBlob]. *)
Definition encryptFile (file : File) (password receiverEmail : js_string)
  : M Blob :=
  sp <- generateSalt SALT_LENGTH ;;
  se <- generateSalt SALT_LENGTH ;;
  kp <- deriveKeyPBKDF2 password (elements sp) ;;
  ke <- deriveKeyPBKDF2 receiverEmail (elements se) ;;
  km <- deriveMasterKey kp ke ;;
  dek <- generateDataEncryptionKey ;;
  wrapped <- wrapDataKey dek km ;;
  let '(wrappedKey, wiv) := wrapped in
  encryptedContentBlob <- encryptFileStream file dek ;;
  header <- packageMetadata (name file) sp se wiv wrappedKey ;;
  let finalBlob := elements header ++ encryptedContentBlob in
  ret finalBlob.

(** The body of the [try] block of [handleDecrypt], up to [decryptedBlob];
    returned with the file name read from the header. *)
Definition decryptFile (file : File) (password receiverEmail : js_string)
  : M (Blob * js_value number) :=
  metadata <- parseMetadata file ;;
  let encryptedContentBlob := slice_from (content file) (headerLength metadata) in
  let sp := sp metadata in
  let se := se metadata in
  kp <- deriveKeyPBKDF2 password sp ;;
  ke <- deriveKeyPBKDF2 receiverEmail se ;;
  km <- deriveMasterKey kp ke ;;
  dek <- unwrapDataKey (wdek metadata) (wiv metadata) km ;;
  decryptedBlob <- decryptFileStream encryptedContentBlob dek ;;
  let originalFileName := fileName metadata in
  ret (decryptedBlob, originalFileName).

(** What a handler leaves the user with: a destructive toast, or a
    download together with the success toast. *)
Inductive Outcome : Type :=
| MissingInputs
| PasswordTooShort
| Failed (error : exn)
| Saved (blob : Blob) (filename : js_value number).

Definition is_empty (s : js_string) : bool :=
  match s with [] => true | _ => false end.

Definition handleEncrypt (file : option File)
    (password receiverEmail : js_string) : M Outcome :=
  match file with
  | None => ret MissingInputs
  | Some file =>
      if is_empty password || is_empty receiverEmail then ret MissingInputs
      else if Nat.ltb (length password) MIN_PASSWORD_LENGTH
      then ret PasswordTooShort
      else
        securityLog [Text "Starting encryption process."] INFO ;;
        try_catch
          (finalBlob <- encryptFile file password receiverEmail ;;
           let encryptedFileName := name file ++ ENCRYPTED_FILE_EXTENSION in
           ret (Saved finalBlob (Some (JString encryptedFileName))))
          (fun error =>
             securityLog [Text "Encryption failed: "; Thrown error] ERROR ;;
             ret (Failed error))
  end.

Definition handleDecrypt (file : option File)
    (password receiverEmail : js_string) : M Outcome :=
  match file with
  | None => ret MissingInputs
  | Some file =>
      if is_empty password || is_empty receiverEmail then ret MissingInputs
      else if Nat.ltb (length password) MIN_PASSWORD_LENGTH
      then ret PasswordTooShort
      else
        securityLog [Text "Starting decryption process."] INFO ;;
        try_catch
          (result <- decryptFile file password receiverEmail ;;
           let '(decryptedBlob, originalFileName) := result in
           ret (Saved decryptedBlob originalFileName))
          (fun error =>
             securityLog [Text "Decryption failed: "; Thrown error] ERROR ;;
             ret (Failed error))
  end.

End Program.

(** ** The error taxonomy *)

Inductive ErrorKind : Type :=
| FormatError
| IntegrityError
| AuthenticationError.

(** Modelled from the spec: the repository has no error classes; every
    failure of its own is a plain [Error] told apart by its message.  The
    kinds are those of the taxonomy (magic mismatch and malformed JSON are
    format errors; wrong salt or IV lengths, a payload below the minimum
    and a payload tag failure are integrity errors; a failed key unwrap is
    an authentication error).  Anything else is unclassified. *)
Definition classify (e : exn) : option ErrorKind :=
  match e with
  | Error m =>
      if String.eqb m "Invalid file format: Magic header mismatch."
         || String.eqb m "Invalid file format: Metadata JSON parsing failed."
      then Some FormatError
      else if String.eqb m "Metadata integrity check failed: Invalid salt length."
         || String.eqb m "Metadata integrity check failed: Invalid wrapping IV length."
         || String.eqb m "Encrypted data too short."
         || String.eqb m "Integrity check failed: Data may be corrupted or key is incorrect."
      then Some IntegrityError
      else if String.eqb m "Authentication failed: Invalid password or receiver email."
      then Some AuthenticationError
      else None
  | _ => None
  end.

(** ** A reference platform *)

(** An executable platform, to run the program on concrete inputs: UTF-8
    and JSON as the standards define them (JSON numbers restricted to
    integers), and in place of PBKDF2, HKDF and AES-GCM small functions
    with the same shape (a keyed stream cipher with a 16-byte tag). *)
Module Reference.

Local Open Scope N_scope.

(** *** UTF-8 *)

Definition is_high_surrogate (c : N) : bool := (55296 <=? c) && (c <? 56320).
Definition is_low_surrogate (c : N) : bool := (56320 <=? c) && (c <? 57344).

Definition replacement : list byte := [xef; xbf; xbd].

Fixpoint utf8_encode (s : js_string) : list byte :=
  match s with
  | [] => []
  | c :: rest =>
      if c <? 128 then toUint8 c :: utf8_encode rest
      else if c <? 2048
      then toUint8 (192 + c / 64) :: toUint8 (128 + c mod 64) :: utf8_encode rest
      else if is_high_surrogate c then
        match rest with
        | c2 :: rest' =>
            if is_low_surrogate c2 then
              let cp := 65536 + (c - 55296) * 1024 + (c2 - 56320) in
              toUint8 (240 + cp / 262144)
                :: toUint8 (128 + (cp / 4096) mod 64)
                :: toUint8 (128 + (cp / 64) mod 64)
                :: toUint8 (128 + cp mod 64) :: utf8_encode rest'
            else replacement ++ utf8_encode rest
        | [] => replacement
        end
      else if is_low_surrogate c then replacement ++ utf8_encode rest
      else toUint8 (224 + c / 4096)
             :: toUint8 (128 + (c / 64) mod 64)
             :: toUint8 (128 + c mod 64) :: utf8_encode rest
  end.

Definition is_continuation (b : N) : bool := (128 <=? b) && (b <? 192).

(** Decoding without the [fatal] flag: a byte that starts no well-formed
    sequence becomes U+FFFD. *)
Fixpoint utf8_decode_from (fuel : nat) (l : list N) : js_string :=
  match fuel with
  | O => []
  | S fuel =>
      match l with
      | [] => []
      | b0 :: r0 =>
          if b0 <? 128 then b0 :: utf8_decode_from fuel r0
          else
            match r0 with
            | b1 :: r1 =>
                if (194 <=? b0) && (b0 <? 224) && is_continuation b1
                then (b0 - 192) * 64 + (b1 - 128) :: utf8_decode_from fuel r1
                else
                  match r1 with
                  | b2 :: r2 =>
                      let c := (b0 - 224) * 4096 + (b1 - 128) * 64 + (b2 - 128) in
                      if (224 <=? b0) && (b0 <? 240) && is_continuation b1
                         && is_continuation b2 && (2048 <=? c)
                         && negb (is_high_surrogate c || is_low_surrogate c)
                      then c :: utf8_decode_from fuel r2
                      else
                        match r2 with
                        | b3 :: r3 =>
                            let cp := (b0 - 240) * 262144 + (b1 - 128) * 4096
                                      + (b2 - 128) * 64 + (b3 - 128) in
                            if (240 <=? b0) && (b0 <? 245) && is_continuation b1
                               && is_continuation b2 && is_continuation b3
                               && (65536 <=? cp) && (cp <? 1114112)
                            then 55296 + (cp - 65536) / 1024
                                   :: 56320 + (cp - 65536) mod 1024
                                   :: utf8_decode_from fuel r3
                            else 65533 :: utf8_decode_from fuel r0
                        | [] => 65533 :: utf8_decode_from fuel r0
                        end
                  | [] => 65533 :: utf8_decode_from fuel r0
                  end
            | [] => [65533]
            end
      end
  end.

(** [new TextDecoder().decode(bytes)]: a leading byte order mark is
    dropped. *)
Definition utf8_decode (bytes : list byte) : js_string :=
  let l := List.map Byte.to_N bytes in
  let l := match l with
           | 239 :: 187 :: 191 :: r => r
           | _ => l
           end in
  utf8_decode_from (length l) l.

(** *** JSON *)

Definition hex_digit (d : N) : N := if d <? 10 then 48 + d else 87 + d.

Definition unicode_escape (c : N) : js_string :=
  [92; 117; hex_digit (c / 4096); hex_digit ((c / 256) mod 16);
   hex_digit ((c / 16) mod 16); hex_digit (c mod 16)].

Fixpoint quote_chars (s : js_string) : js_string :=
  match s with
  | [] => []
  | c :: rest =>
      if c =? 34 then 92 :: 34 :: quote_chars rest
      else if c =? 92 then 92 :: 92 :: quote_chars rest
      else if c =? 8 then 92 :: 98 :: quote_chars rest
      else if c =? 12 then 92 :: 102 :: quote_chars rest
      else if c =? 10 then 92 :: 110 :: quote_chars rest
      else if c =? 13 then 92 :: 114 :: quote_chars rest
      else if c =? 9 then 92 :: 116 :: quote_chars rest
      else if c <? 32 then unicode_escape c ++ quote_chars rest
      else if is_high_surrogate c then
        match rest with
        | c2 :: rest' =>
            if is_low_surrogate c2 then c :: c2 :: quote_chars rest'
            else unicode_escape c ++ quote_chars rest
        | [] => unicode_escape c
        end
      else if is_low_surrogate c then unicode_escape c ++ quote_chars rest
      else c :: quote_chars rest
  end.

Definition quote (s : js_string) : js_string := 34 :: quote_chars s ++ [34].

Fixpoint decimal_digits (fuel : nat) (n : N) (acc : js_string) : js_string :=
  match fuel with
  | O => acc
  | S fuel =>
      let acc := 48 + n mod 10 :: acc in
      if n / 10 =? 0 then acc else decimal_digits fuel (n / 10) acc
  end.

Definition decimal (z : Z) : js_string :=
  let n := Z.abs_N z in
  let digits := decimal_digits (S (N.to_nat (N.log2 n))) n [] in
  if (z <? 0)%Z then 45 :: digits else digits.

Fixpoint stringify (v : json Z) : js_string :=
  match v with
  | JNull => js "null"
  | JBool true => js "true"
  | JBool false => js "false"
  | JNumber z => decimal z
  | JString s => quote s
  | JArray items =>
      91 :: (fix go (l : list (json Z)) : js_string :=
               match l with
               | [] => []
               | x :: r =>
                   stringify x ++ match r with [] => [] | _ => 44 :: go r end
               end) items ++ [93]
  | JObject props =>
      123 :: (fix go (l : list (js_string * json Z)) : js_string :=
                match l with
                | [] => []
                | (k, x) :: r =>
                    quote k ++ 58 :: stringify x
                      ++ match r with [] => [] | _ => 44 :: go r end
                end) props ++ [125]
  end.

Fixpoint skip_ws (l : js_string) : js_string :=
  match l with
  | c :: r =>
      if (c =? 32) || (c =? 9) || (c =? 10) || (c =? 13) then skip_ws r else l
  | [] => []
  end.

Definition hex_value (c : N) : option N :=
  if (48 <=? c) && (c <=? 57) then Some (c - 48)
  else if (97 <=? c) && (c <=? 102) then Some (c - 87)
  else if (65 <=? c) && (c <=? 70) then Some (c - 55)
  else None.

(** The characters of a string literal after its opening quote, and what
    follows the closing one. *)
Fixpoint parse_string (fuel : nat) (l : js_string)
  : option (js_string * js_string) :=
  match fuel with
  | O => None
  | S fuel =>
      let continue c r :=
        match parse_string fuel r with
        | Some (s, r') => Some (c :: s, r')
        | None => None
        end in
      match l with
      | [] => None
      | c :: r =>
          if c =? 34 then Some ([], r)
          else if c =? 92 then
            match r with
            | [] => None
            | e :: r =>
                if e =? 34 then continue 34 r
                else if e =? 92 then continue 92 r
                else if e =? 47 then continue 47 r
                else if e =? 98 then continue 8 r
                else if e =? 102 then continue 12 r
                else if e =? 110 then continue 10 r
                else if e =? 114 then continue 13 r
                else if e =? 116 then continue 9 r
                else if e =? 117 then
                  match r with
                  | h3 :: h2 :: h1 :: h0 :: r' =>
                      match hex_value h3, hex_value h2, hex_value h1,
                            hex_value h0 with
                      | Some a, Some b, Some c, Some d =>
                          continue (a * 4096 + b * 256 + c * 16 + d) r'
                      | _, _, _, _ => None
                      end
                  | _ => None
                  end
                else None
            end
          else if c <? 32 then None
          else continue c r
      end
  end.

Fixpoint parse_digits (l : js_string) (acc : N) : N * js_string :=
  match l with
  | c :: r =>
      if (48 <=? c) && (c <=? 57) then parse_digits r (acc * 10 + (c - 48))
      else (acc, l)
  | [] => (acc, [])
  end.

(** An integer literal; fractions and exponents are not supported. *)
Definition parse_number (l : js_string) : option (Z * js_string) :=
  let '(negative, l) :=
    match l with 45 :: r => (true, r) | _ => (false, l) end in
  match l with
  | c :: r =>
      if (48 <=? c) && (c <=? 57) then
        let '(n, rest) :=
          if c =? 48 then (0, r) else parse_digits l 0 in
        match rest with
        | d :: _ =>
            if (d =? 46) || (d =? 101) || (d =? 69) || ((48 <=? d) && (d <=? 57))
            then None
            else Some (if negative then (- Z.of_N n)%Z else Z.of_N n, rest)
        | [] => Some (if negative then (- Z.of_N n)%Z else Z.of_N n, rest)
        end
      else None
  | [] => None
  end.

(** A later member replaces an earlier one of the same name. *)
Fixpoint set_prop (k : js_string) (v : json Z) (props : list (js_string * json Z))
  : list (js_string * json Z) :=
  match props with
  | [] => [(k, v)]
  | (k', v') :: r =>
      if js_string_eqb k' k then (k', v) :: r else (k', v') :: set_prop k v r
  end.

Fixpoint parse_value (fuel : nat) (l : js_string)
  : option (json Z * js_string) :=
  match fuel with
  | O => None
  | S fuel =>
      match skip_ws l with
      | 110 :: 117 :: 108 :: 108 :: r => Some (JNull, r)
      | 116 :: 114 :: 117 :: 101 :: r => Some (JBool true, r)
      | 102 :: 97 :: 108 :: 115 :: 101 :: r => Some (JBool false, r)
      | 34 :: r =>
          match parse_string (S (length r)) r with
          | Some (s, r') => Some (JString s, r')
          | None => None
          end
      | 91 :: r =>
          match skip_ws r with
          | 93 :: r' => Some (JArray [], r')
          | _ =>
              match parse_elements fuel r with
              | Some (items, r') => Some (JArray items, r')
              | None => None
              end
          end
      | 123 :: r =>
          match skip_ws r with
          | 125 :: r' => Some (JObject [], r')
          | _ =>
              match parse_members fuel r [] with
              | Some (props, r') => Some (JObject props, r')
              | None => None
              end
          end
      | r =>
          match parse_number r with
          | Some (z, r') => Some (JNumber z, r')
          | None => None
          end
      end
  end
with parse_elements (fuel : nat) (l : js_string)
  : option (list (json Z) * js_string) :=
  match fuel with
  | O => None
  | S fuel =>
      match parse_value fuel l with
      | Some (v, r) =>
          match skip_ws r with
          | 44 :: r' =>
              match parse_elements fuel r' with
              | Some (vs, r'') => Some (v :: vs, r'')
              | None => None
              end
          | 93 :: r' => Some ([v], r')
          | _ => None
          end
      | None => None
      end
  end
with parse_members (fuel : nat) (l : js_string)
    (acc : list (js_string * json Z))
  : option (list (js_string * json Z) * js_string) :=
  match fuel with
  | O => None
  | S fuel =>
      match skip_ws l with
      | 34 :: r =>
          match parse_string (S (length r)) r with
          | Some (k, r1) =>
              match skip_ws r1 with
              | 58 :: r2 =>
                  match parse_value fuel r2 with
                  | Some (v, r3) =>
                      let acc := set_prop k v acc in
                      match skip_ws r3 with
                      | 44 :: r4 => parse_members fuel r4 acc
                      | 125 :: r4 => Some (acc, r4)
                      | _ => None
                      end
                  | None => None
                  end
              | _ => None
              end
          | None => None
          end
      | _ => None
      end
  end.

Definition parse (s : js_string) : option (json Z) :=
  match parse_value (S (S (length s))) s with
  | Some (v, r) => match skip_ws r with [] => Some v | _ => None end
  | None => None
  end.

(** *** Well-formed UTF-16 *)

(** A code unit is a 16-bit value. *)
Definition code_unit (c : N) : Prop := c < 65536.

(** Strings without lone surrogates: what UTF-8 can carry. *)
Inductive WellFormed : js_string -> Prop :=
| wf_nil : WellFormed []
| wf_scalar (c : N) (s : js_string) :
    c < 65536 -> is_high_surrogate c = false -> is_low_surrogate c = false ->
    WellFormed s -> WellFormed (c :: s)
| wf_pair (c c2 : N) (s : js_string) :
    is_high_surrogate c = true -> is_low_surrogate c2 = true ->
    WellFormed s -> WellFormed (c :: c2 :: s).

(** The JSON text of a metadata object. *)
Definition metadata_text (fileName a b c d : js_string) : js_string :=
  123 :: (quote (js "fileName") ++ 58 :: quote fileName ++
  44 :: (quote (js "sp") ++ 58 :: quote a ++
  44 :: (quote (js "se") ++ 58 :: quote b ++
  44 :: (quote (js "wiv") ++ 58 :: quote c ++
  44 :: (quote (js "wdek") ++ 58 :: quote d ++ [125]))))).

(** *** Stand-ins for the key derivations and the cipher *)

Definition mix (l : list byte) : N :=
  fold_left (fun acc b => (acc * 31 + Byte.to_N b + 7) mod 65521) l 1.

Definition keystream (seed : N) (n : nat) : list byte :=
  List.map (fun i => toUint8 ((seed + 1) * (N.of_nat i + 3) / 7 + seed))
    (seq 0 n).

Definition xor_bytes (a b : list byte) : list byte :=
  List.map (fun p => toUint8 (N.lxor (Byte.to_N (fst p)) (Byte.to_N (snd p))))
    (combine a b).

Definition derive (label : string) (parts : list (list byte)) (bits : N)
  : list byte :=
  let tagged := List.map (fun p => toUint8 (N.of_nat (length p)) :: p) parts in
  keystream (mix (list_byte_of_string label ++ concat tagged))
    (N.to_nat (bits / 8)).

Definition pbkdf2 (hash : string) (password salt : list byte)
    (iterations bits : N) : list byte :=
  derive hash [password; salt; [toUint8 iterations]] bits.

Definition hkdf (hash : string) (ikm salt info : list byte) (bits : N)
  : list byte :=
  derive hash [ikm; salt; info] bits.

Definition tag_of (key iv ciphertext : list byte) : list byte :=
  derive "tag" [key; iv; ciphertext] 128.

Definition seal (key iv plaintext : list byte) : list byte :=
  let ciphertext :=
    xor_bytes plaintext (derive "stream" [key; iv] (8 * N.of_nat (length plaintext))) in
  ciphertext ++ tag_of key iv ciphertext.

Definition bytes_eqb (a b : list byte) : bool :=
  if list_eq_dec Byte.byte_eq_dec a b then true else false.

Definition unseal (key iv data : list byte) : option (list byte) :=
  if Nat.ltb (length data) 16 then None
  else
    let n := (length data - 16)%nat in
    let ciphertext := firstn n data in
    if bytes_eqb (skipn n data) (tag_of key iv ciphertext)
    then Some (xor_bytes ciphertext (derive "stream" [key; iv] (8 * N.of_nat n)))
    else None.

Definition platform : Platform :=
  {| number := Z;
     Number_toString := decimal;
     JSON_stringify := stringify;
     JSON_parse := parse;
     TextEncoder_encode := utf8_encode;
     TextDecoder_decode := utf8_decode;
     PBKDF2_HMAC := pbkdf2;
     HKDF_expand := hkdf;
     AES_GCM_encrypt := seal;
     AES_GCM_decrypt := unseal |}.

(** A random source for the examples, and the world before anything
    happened. *)
Definition source (seed : N) (i : nat) : byte :=
  toUint8 (seed + 37 * N.of_nat i * (N.of_nat i + seed) + 11).

Definition world (seed : N) : World :=
  {| random := source seed; consumed := 0; trace := [] |}.

(** *** Sample inputs *)

Definition sample_file : File :=
  {| name := js "a.txt"; content := list_byte_of_string "hello" |}.

Definition sample_password : js_string := js "correcthorse".
Definition sample_email : js_string := js "a@b.com".
Definition other_email : js_string := js "x@y.com".

(** Metadata whose password salt is no base64 text. *)
Definition undecodable_metadata : list byte :=
  utf8_encode (stringify (Metadata (P := platform) (js "a.txt") (js "!") [] [] [])).

(** A 16-byte window on a buffer of 32 bytes. *)
Definition windowed_salt : Uint8Array :=
  {| buffer := repeat x00 32; byteOffset := 0; byteLength := 16 |}.

End Reference.

(** ** Vocabulary of the statements *)

(** The world after [n] more random bytes were consumed and the events
    [evs] happened. *)
Definition advance (w : World) (n : nat) (evs : list Event) : World :=
  {| random := random w; consumed := (consumed w + n)%nat;
     trace := trace w ++ evs |}.

Definition extend (w : World) (evs : list Event) : World :=
  {| random := random w; consumed := consumed w; trace := trace w ++ evs |}.

(** The [n] bytes the random source of [w] delivers after [from] others. *)
Definition upcoming (w : World) (from n : nat) : list byte :=
  List.map (fun i => random w (consumed w + (from + i))%nat) (seq 0 n).

(** The base64 text of a byte sequence. *)
Definition b64 (b : list byte) : js_string :=
  Base64.encode (List.map Byte.to_N b).

Definition magic_bytes : list byte := [x44; x59; x41; x44].

(** The UTF-8 bytes of the metadata JSON for the given fields. *)
Definition metadata_bytes `{P : Platform} (fileName : js_string)
    (sp se wiv wdek : list byte) : list byte :=
  TextEncoder_encode
    (JSON_stringify
       (Metadata fileName (b64 sp) (b64 se) (b64 wiv) (b64 wdek))).

Definition header_bytes `{P : Platform} (fileName : js_string)
    (sp se wiv wdek : list byte) : list byte :=
  let mb := metadata_bytes fileName sp se wiv wdek in
  magic_bytes ++ le32 (N.of_nat (length mb)) ++ mb.

(** The platform's JSON and UTF-8 codecs give the metadata object back. *)
Definition codec_round_trip `{P : Platform} (fileName : js_string)
    (sp se wiv wdek : list byte) : Prop :=
  JSON_parse
    (TextDecoder_decode (metadata_bytes fileName sp se wiv wdek))
  = Some (Metadata fileName (b64 sp) (b64 se) (b64 wiv) (b64 wdek)).

(** The key [deriveKeyPBKDF2] makes of a secret and a salt. *)
Definition stretched `{P : Platform} (secret : js_string) (salt : list byte)
  : CryptoKey :=
  {| algorithm := {| alg_name := AES_GCM; alg_length := Some 256 |};
     extractable := true;
     usages := [encrypt; decrypt; wrapKey; unwrapKey];
     raw := PBKDF2_HMAC "SHA-256" (TextEncoder_encode secret) salt 600000 256 |}.

(** The key [deriveMasterKey] makes of two raw key materials. *)
Definition master_key `{P : Platform} (kpRaw keRaw : list byte) : CryptoKey :=
  {| algorithm := {| alg_name := AES_GCM; alg_length := Some 256 |};
     extractable := false;
     usages := [encrypt; decrypt];
     raw := HKDF_expand "SHA-256" (kpRaw ++ keRaw) []
              (TextEncoder_encode master_key_info) 256 |}.

(** The master key of a password, an email and their salts. *)
Definition master_of `{P : Platform} (password email : js_string)
    (sp se : list byte) : CryptoKey :=
  master_key (raw (stretched password sp)) (raw (stretched email se)).

(** A 256-bit data key with the given material. *)
Definition data_key (material : list byte) : CryptoKey :=
  {| algorithm := {| alg_name := AES_GCM; alg_length := Some 256 |};
     extractable := true;
     usages := [encrypt; decrypt];
     raw := material |}.

Definition pbkdf2_base_key `{P : Platform} (secret : js_string) : CryptoKey :=
  {| algorithm := {| alg_name := PBKDF2; alg_length := None |};
     extractable := false; usages := [deriveKey];
     raw := TextEncoder_encode secret |}.

Definition hkdf_base_key (ikm : list byte) : CryptoKey :=
  {| algorithm := {| alg_name := HKDF; alg_length := None |};
     extractable := false; usages := [deriveKey]; raw := ikm |}.

(** What a run of [deriveKeyPBKDF2] leaves in the trace. *)
Definition stretch_events `{P : Platform} (secret : js_string)
    (salt : list byte) : list Event :=
  [ConsoleLog INFO [Text "Starting PBKDF2 key derivation."];
   SubtleImportKey PBKDF2 (TextEncoder_encode secret);
   SubtleDeriveKey (Pbkdf2Params salt 600000 "SHA-256") (pbkdf2_base_key secret);
   ConsoleLog INFO [Text "PBKDF2 key derivation successful."]].

(** What a run of [deriveMasterKey] leaves in the trace. *)
Definition combine_events `{P : Platform} (kp ke : CryptoKey) : list Event :=
  [ConsoleLog INFO [Text "Deriving Master Key (KM) using HKDF."];
   SubtleExportKey kp;
   SubtleExportKey ke;
   SubtleImportKey HKDF (raw kp ++ raw ke);
   SubtleDeriveKey
     (HkdfParams "SHA-256" [] (TextEncoder_encode master_key_info))
     (hkdf_base_key (raw kp ++ raw ke));
   ConsoleLog INFO [Text "Master Key derivation complete."]].

(** Events of a given sort. *)
Definition is_decrypt (e : Event) : bool :=
  match e with SubtleDecrypt _ _ _ => true | _ => false end.

Definition is_console (e : Event) : bool :=
  match e with ConsoleLog _ _ => true | _ => false end.

(** What a run of [wrapDataKey] leaves in the trace. *)
Definition wrap_events `{P : Platform} (dek km : CryptoKey) (iv : list byte)
  : list Event :=
  [ConsoleLog INFO [Text "Wrapping DEK using KM (AES-GCM)."];
   SubtleExportKey dek;
   GetRandomValues iv;
   SubtleEncrypt km iv (raw dek);
   ConsoleLog INFO [Text "DEK wrapping complete."]].

(** What the platform makes of a ciphertext under a key handle: [None]
    when the handle may not decrypt or the tag does not verify. *)
Definition opened `{P : Platform} (key : CryptoKey) (iv data : list byte)
  : option (list byte) :=
  if name_eqb (alg_name (algorithm key)) AES_GCM && has_usage decrypt key
  then AES_GCM_decrypt (raw key) iv data
  else None.

(** The key [unwrapDataKey] imports from raw material. *)
Definition imported_key (material : list byte) : CryptoKey :=
  {| algorithm := {| alg_name := AES_GCM;
                     alg_length := Some (8 * N.of_nat (length material)) |};
     extractable := true;
     usages := [encrypt; decrypt];
     raw := material |}.

Definition authentication_failed : exn :=
  Error "Authentication failed: Invalid password or receiver email.".

Definition integrity_failed : exn :=
  Error "Integrity check failed: Data may be corrupted or key is incorrect.".

Definition too_short : exn := Error "Encrypted data too short.".

(** The result of [unwrapDataKey], and the events it adds to the trace. *)
Definition unwrap_result `{P : Platform} (wrappedKey iv : list byte)
    (km : CryptoKey) : (exn + CryptoKey) * list Event :=
  let attempt := ConsoleLog INFO [Text "Attempting to unwrap DEK."] in
  let failed :=
    ConsoleLog ERROR
      [Text "DEK unwrapping failed. Invalid password/email combination."] in
  match opened km iv wrappedKey with
  | Some dekRaw =>
      if valid_aes_bits (8 * N.of_nat (length dekRaw))
      then (inr (imported_key dekRaw),
            [attempt; SubtleDecrypt km iv wrappedKey;
             SubtleImportKey AES_GCM dekRaw;
             ConsoleLog INFO [Text "DEK unwrapping successful."]])
      else (inl authentication_failed,
            [attempt; SubtleDecrypt km iv wrappedKey;
             SubtleImportKey AES_GCM dekRaw; failed])
  | None =>
      (inl authentication_failed,
       [attempt; SubtleDecrypt km iv wrappedKey; failed])
  end.

(** The result of [decryptFileStream], and the events it adds. *)
Definition payload_result `{P : Platform} (blob : list byte) (dek : CryptoKey)
  : (exn + Blob) * list Event :=
  let start :=
    ConsoleLog INFO [Text "Starting decryption and integrity verification."] in
  if Nat.ltb (length blob) 28 then (inl too_short, [start])
  else
    let iv := firstn 12 blob in
    let data := skipn 12 blob in
    match opened dek iv data with
    | Some plaintext =>
        (inr plaintext,
         [start; SubtleDecrypt dek iv data;
          ConsoleLog INFO
            [Text "Decryption successful. Integrity verified (Authentication Tag passed)."]])
    | None =>
        (inl integrity_failed,
         [start; SubtleDecrypt dek iv data;
          ConsoleLog ERROR
            [Text "Decryption failed. Authentication Tag verification failed."]])
    end.

(** The random values one encryption consumes, in the order it draws
    them: password salt, email salt, data key, wrapping IV, payload IV. *)
Record Draws : Type := {
  drawn_sp : list byte;
  drawn_se : list byte;
  drawn_dek : list byte;
  drawn_wiv : list byte;
  drawn_iv : list byte
}.

Definition draws (w : World) : Draws :=
  {| drawn_sp := upcoming w 0 16;
     drawn_se := upcoming w 16 16;
     drawn_dek := upcoming w 32 32;
     drawn_wiv := upcoming w 64 12;
     drawn_iv := upcoming w 76 12 |}.

(** The wrapped data key of an encryption with the given draws. *)
Definition wrapped_dek `{P : Platform} (password email : js_string)
    (d : Draws) : list byte :=
  AES_GCM_encrypt
    (raw (master_of password email (drawn_sp d) (drawn_se d)))
    (drawn_wiv d) (drawn_dek d).

(** The payload: IV, then ciphertext and tag. *)
Definition payload_bytes `{P : Platform} (fileBytes : list byte) (d : Draws)
  : list byte :=
  drawn_iv d ++ AES_GCM_encrypt (drawn_dek d) (drawn_iv d) fileBytes.

(** The header of an encryption with the given draws. *)
Definition envelope_header `{P : Platform} (file : File)
    (password email : js_string) (d : Draws) : list byte :=
  header_bytes (name file) (drawn_sp d) (drawn_se d) (drawn_wiv d)
    (wrapped_dek password email d).

(** The envelope: header, then payload. *)
Definition envelope `{P : Platform} (file : File) (password email : js_string)
    (d : Draws) : list byte :=
  envelope_header file password email d ++ payload_bytes (content file) d.

(** What [decryptFile] does once the header is parsed: the result, and
    the events added to the trace. *)
Definition after_parse `{P : Platform} (md : ParsedMetadata)
    (payload : list byte) (password email : js_string)
  : (exn + (Blob * js_value number)) * list Event :=
  let kp := stretched password (sp md) in
  let ke := stretched email (se md) in
  let km := master_key (raw kp) (raw ke) in
  let u := unwrap_result (wdek md) (wiv md) km in
  let keys :=
    stretch_events password (sp md) ++ stretch_events email (se md)
      ++ combine_events kp ke in
  match fst u with
  | inl e => (inl e, keys ++ snd u)
  | inr dek =>
      let r := payload_result payload dek in
      (match fst r with
       | inl e => inl e
       | inr plaintext => inr (plaintext, fileName md)
       end,
       keys ++ snd u ++ snd r)
  end.

(** The platform's cipher gives a plaintext back under the same key and
    IV, and appends a 16-byte tag. *)
Definition aead_round_trip `{P : Platform} (key iv plaintext : list byte)
  : Prop :=
  AES_GCM_decrypt key iv (AES_GCM_encrypt key iv plaintext) = Some plaintext.

Definition aead_tagged `{P : Platform} (key iv plaintext : list byte) : Prop :=
  length (AES_GCM_encrypt key iv plaintext) = (length plaintext + 16)%nat.

(** The metadata JSON of an encryption. *)
Definition envelope_metadata `{P : Platform} (file : File)
    (password email : js_string) (d : Draws) : list byte :=
  metadata_bytes (name file) (drawn_sp d) (drawn_se d) (drawn_wiv d)
    (wrapped_dek password email d).

(** What the platform must do for the header of an encryption to be read
    back: its codecs round-trip on the metadata, whose length fits the
    32-bit length field. *)
Definition header_readable `{P : Platform} (file : File)
    (password email : js_string) (d : Draws) : Prop :=
  codec_round_trip (name file) (drawn_sp d) (drawn_se d) (drawn_wiv d)
    (wrapped_dek password email d)
  /\ N.of_nat (length (envelope_metadata file password email d)) < 4294967296.

(** The metadata [parseMetadata] reads from the envelope of an
    encryption. *)
Definition envelope_parsed `{P : Platform} (file : File)
    (password email : js_string) (d : Draws) : ParsedMetadata :=
  {| fileName := Some (JString (name file));
     sp := drawn_sp d; se := drawn_se d; wiv := drawn_wiv d;
     wdek := wrapped_dek password email d;
     headerLength := 8 + length (envelope_metadata file password email d) |}.

Definition parse_events (headerLength : nat) : list Event :=
  [ConsoleLog INFO [Text "Starting metadata parsing."];
   ConsoleLog INFO [Text "Metadata parsed successfully. Header length: ";
                    Num headerLength; Text "."]].

(** What the platform's cipher must do for an encryption to be read back:
    it round-trips on the data key under the master key and on the file
    under the data key, and the payload carries its 16-byte tag. *)
Definition cipher_round_trips `{P : Platform} (file : File)
    (password email : js_string) (d : Draws) : Prop :=
  aead_round_trip
    (raw (master_of password email (drawn_sp d) (drawn_se d)))
    (drawn_wiv d) (drawn_dek d)
  /\ aead_round_trip (drawn_dek d) (drawn_iv d) (content file)
  /\ aead_tagged (drawn_dek d) (drawn_iv d) (content file).

(** A header with the given fields is read back by the platform. *)
Definition readable `{P : Platform} (fileName : js_string)
    (sp se wiv wdek : list byte) : Prop :=
  codec_round_trip fileName sp se wiv wdek
  /\ N.of_nat (length (metadata_bytes fileName sp se wiv wdek)) < 4294967296.

(** The metadata [parseMetadata] reads from a framed header. *)
Definition framed_metadata `{P : Platform} (fileName : js_string)
    (sp se wiv wdek : list byte) : ParsedMetadata :=
  {| fileName := Some (JString fileName);
     sp := sp; se := se; wiv := wiv; wdek := wdek;
     headerLength := 8 + length (metadata_bytes fileName sp se wiv wdek) |}.

(** The envelope of an encryption with the wrapped-key field replaced. *)
Definition rewrapped_envelope `{P : Platform} (file : File) (d : Draws)
    (wdek : list byte) : list byte :=
  header_bytes (name file) (drawn_sp d) (drawn_se d) (drawn_wiv d) wdek
    ++ payload_bytes (content file) d.

(** The decryption attempts recorded in a trace. *)
Definition decrypt_attempts (evs : list Event) : list Event :=
  filter is_decrypt evs.

(** A stream that frames the metadata bytes [mb]: magic, length, [mb],
    then anything. *)
Definition framed (mb rest : list byte) : list byte :=
  magic_bytes ++ le32 (N.of_nat (length mb)) ++ mb ++ rest.

Definition invalid_character : exn := DOMException "InvalidCharacterError".

(** The events a computation adds to the trace of [w]. *)
Definition added {A : Type} (m : M A) (w : World) : list Event :=
  skipn (length (trace w)) (trace (snd (m w))).

(** A key handle the platform lets decrypt. *)
Definition may_decrypt (key : CryptoKey) : Prop :=
  alg_name (algorithm key) = AES_GCM /\ has_usage decrypt key = true.

(** The draws of the encryption that follows one started in [w]: the
    next 88 bytes of the source. *)
Definition next_draws (w : World) : Draws :=
  {| drawn_sp := upcoming w 88 16;
     drawn_se := upcoming w 104 16;
     drawn_dek := upcoming w 120 32;
     drawn_wiv := upcoming w 152 12;
     drawn_iv := upcoming w 164 12 |}.

(** The payload IV stored in an envelope whose header was parsed. *)
Definition stored_iv `{P : Platform} (env : list byte) (md : ParsedMetadata)
  : list byte :=
  firstn 12 (slice_from env (headerLength md)).

(** A typed array whose window is its whole buffer, as [new Uint8Array(n)]
    makes them. *)
Definition spans_buffer (u : Uint8Array) : Prop :=
  byteOffset u = 0%nat /\ byteLength u = length (buffer u).

(** ** File selection in [CryptoForm] and the form [SteganographyForm]
    ([src/components/SteganographyForm.tsx], lines 1-241) *)

(** [String.prototype.startsWith] and [String.prototype.endsWith], called
    with the search string alone. *)
Definition startsWith (s searchString : js_string) : bool :=
  if Nat.ltb (length s) (length searchString) then false
  else js_string_eqb (firstn (length searchString) s) searchString.

Definition endsWith (s searchString : js_string) : bool :=
  if Nat.ltb (length s) (length searchString) then false
  else js_string_eqb (skipn (length s - length searchString) s) searchString.

(** [String.prototype.split] with a separator of one code unit, and
    [Array.prototype.join]. *)
Fixpoint split (separator : N) (s : js_string) : list js_string :=
  match s with
  | [] => [[]]
  | c :: rest =>
      if N.eqb c separator then [] :: split separator rest
      else match split separator rest with
           | head :: tail => (c :: head) :: tail
           | [] => [[c]]
           end
  end.

Fixpoint join (separator : js_string) (parts : list js_string) : js_string :=
  match parts with
  | [] => []
  | [part] => part
  | part :: rest => part ++ separator ++ join separator rest
  end.

(** The code unit of the full stop. *)
Definition full_stop : N := 46.

Module CryptoForm.

Inductive Mode : Type := Encrypt | Decrypt.

Definition Mode_eqb (a b : Mode) : bool :=
  match a, b with
  | Encrypt, Encrypt | Decrypt, Decrypt => true
  | _, _ => false
  end.

(** The state set by [handleFileChange]: [mode] and [file]. *)
Record State : Type := { mode : Mode; file : option File }.

(** [handleFileChange]; [files] is [e.target.files?.[0] || null]. *)
Definition handleFileChange (defaultMode : Mode) (files : option File)
    (st : State) : State :=
  let selectedFile := files in
  let st := {| mode := mode st; file := selectedFile |} in
  match selectedFile with
  | Some selectedFile =>
      if Mode_eqb defaultMode Encrypt
         && endsWith (name selectedFile) ENCRYPTED_FILE_EXTENSION
      then {| mode := Decrypt; file := file st |}
      else if Mode_eqb defaultMode Decrypt
         && negb (endsWith (name selectedFile) ENCRYPTED_FILE_EXTENSION)
      then {| mode := Encrypt; file := file st |}
      else {| mode := defaultMode; file := file st |}
  | None => st
  end.

End CryptoForm.

Module SteganographyForm.

Inductive Mode : Type := Embed | Extract.

(** A [File] of the DOM with its media type. *)
Record ImageFile : Type := { image : File; type : js_string }.

(** The state the handlers read and set; [isLoading], which only disables
    the buttons while a handler runs, is left out. *)
Record State : Type := {
  imageFile : option ImageFile;
  textInput : js_string;
  extractedText : js_string
}.

(** The toasts, by their titles. *)
Inductive Toast : Type :=
| Invalid_File_Type
| Missing_Inputs
| Embedding_Successful (newFileName : js_string)
| Embedding_Failed (error : exn)
| Missing_Image
| Extraction_Successful
| Extraction_Failed (error : exn).

(** [handleImageChange]; [files] is [e.target.files?.[0] || null]. *)
Definition handleImageChange (mode : Mode) (files : option ImageFile)
    (st : State) : State * option Toast :=
  let selectedFile := files in
  let st := {| imageFile := selectedFile; textInput := textInput st;
               extractedText := extractedText st |} in
  let st := match mode with
            | Extract => {| imageFile := imageFile st;
                            textInput := textInput st;
                            extractedText := [] |}
            | Embed => st
            end in
  match selectedFile with
  | Some selectedFile =>
      if negb (startsWith (type selectedFile) (js "image/"))
      then ({| imageFile := None; textInput := textInput st;
               extractedText := extractedText st |},
            Some Invalid_File_Type)
      else (st, None)
  | None => (st, None)
  end.

(** [`embedded_${name.split('.').slice(0, -1).join('.') || 'image'}.png`];
    [slice(0, -1)] drops the last element of the array. *)
Definition newFileName (name : js_string) : js_string :=
  let stem := join (js ".") (removelast (split full_stop name)) in
  js "embedded_" ++ (if is_empty stem then js "image" else stem) ++ js ".png".

Section Handlers.

(** The functions of [@/modules/Steganography], which the repository's
    sources do not include: any functions of these types. *)
Variable ImageData : Type.
Variable loadImageData : File -> M ImageData.
Variable embedTextInImage : ImageData -> js_string -> M ImageData.
Variable extractTextFromImage : ImageData -> M js_string.
Variable imageDataToBlob : ImageData -> M Blob.

(** [handleEmbed]: the download it triggers, if any, and its toast. *)
Definition handleEmbed (st : State) : M (option (Blob * js_string) * Toast) :=
  match imageFile st with
  | None => ret (None, Missing_Inputs)
  | Some imageFile =>
      if is_empty (textInput st) then ret (None, Missing_Inputs)
      else
        try_catch
          (imageData <- loadImageData (image imageFile) ;;
           embeddedImageData <- embedTextInImage imageData (textInput st) ;;
           embeddedImageBlob <- imageDataToBlob embeddedImageData ;;
           let newFileName := newFileName (name (image imageFile)) in
           ret (Some (embeddedImageBlob, newFileName),
                Embedding_Successful newFileName))
          (fun error => ret (None, Embedding_Failed error))
  end.

(** [handleExtract]: the state it leaves and its toast. *)
Definition handleExtract (st : State) : M (State * Toast) :=
  match imageFile st with
  | None => ret (st, Missing_Image)
  | Some imageFile =>
      try_catch
        (imageData <- loadImageData (image imageFile) ;;
         text <- extractTextFromImage imageData ;;
         ret ({| SteganographyForm.imageFile := SteganographyForm.imageFile st;
                 textInput := textInput st;
                 extractedText := text |}, Extraction_Successful))
        (fun error =>
           ret ({| SteganographyForm.imageFile := SteganographyForm.imageFile st;
                   textInput := textInput st;
                   extractedText := [] |}, Extraction_Failed error))
  end.

End Handlers.

End SteganographyForm.

(** ** Vocabulary of the further properties *)

(** The exceptions [parseMetadata] can throw. *)
Definition parse_failures : list exn :=
  [Error "Invalid file format: Magic header mismatch.";
   RangeError;
   Error "Invalid file format: Metadata JSON parsing failed.";
   TypeError;
   invalid_character;
   Error "Metadata integrity check failed: Invalid salt length.";
   Error "Metadata integrity check failed: Invalid wrapping IV length."].

(** What [base64ToArrayBuffer] makes of a field: the bytes named by the
    characters of the decoded text. *)
Definition decodes_to `{P : Platform} (field : js_value number)
    (b : list byte) : Prop :=
  exists s binary,
    ToString Number_toString field = inr s
    /\ Base64.atob s = inr binary
    /\ b = List.map toUint8 binary.

(** The value [v] has the property [key], and it decodes to [b]. *)
Definition field_decodes `{P : Platform} (v : json number) (key : string)
    (b : list byte) : Prop :=
  exists field,
    get v (js key) = inr (Some field) /\ decodes_to (Some field) b.


(** *** Sample inputs of the further properties *)

Module Samples.
Import Reference.

Definition empty_file : File := {| name := js "empty"; content := [] |}.

(** A zip archive's first bytes. *)
Definition foreign_file : File :=
  {| name := js "a.zip"; content := list_byte_of_string "PK" |}.

(** A header object without [fileName]. *)
Definition nameless_value : json Z :=
  JObject [(js "sp", JString (b64 (repeat x00 16)));
           (js "se", JString (b64 (repeat x01 16)));
           (js "wiv", JString (b64 (repeat x02 12)));
           (js "wdek", JString (b64 [x03; x04]))].

Definition nameless_metadata : list byte :=
  utf8_encode (stringify nameless_value).

(** Two passwords of eight code units that differ in the last, an
    unpaired surrogate. *)
Definition high_surrogate_password : js_string := js "abcdefg" ++ [55296].
Definition low_surrogate_password : js_string := js "abcdefg" ++ [56320].

(** The bytes [l] with the byte at index [k] replaced by [b]. *)
Definition with_byte (l : list byte) (k : nat) (b : byte) : list byte :=
  firstn k l ++ b :: skipn (S k) l.

Definition text_file : SteganographyForm.ImageFile :=
  {| SteganographyForm.image := sample_file;
     SteganographyForm.type := js "text/plain" |}.

Definition empty_form : SteganographyForm.State :=
  {| SteganographyForm.imageFile := None;
     SteganographyForm.textInput := js "secret";
     SteganographyForm.extractedText := js "earlier" |}.

End Samples.

(** * Properties *)

(** ** Correctness of base64 *)

Module Base64Facts.
Import Base64.

Local Ltac arith :=
  repeat match goal with H : Forall _ (_ :: _) |- _ => inversion_clear H end;
  zify; Z.to_euclidean_division_equations; lia.

Lemma list_ind3 (A : Type) (P : list A -> Prop) :
  P [] -> (forall a, P [a]) -> (forall a b, P [a; b]) ->
  (forall a b c l, P l -> P (a :: b :: c :: l)) ->
  forall l, P l.
Proof.
  intros H0 H1 H2 H3.
  fix IH 1. intros [|a [|b [|c l]]]; [exact H0 | apply H1 | apply H2 |].
  apply H3, IH.
Qed.

Lemma below_64_cases (Q : N -> bool) :
  forallb Q (List.map N.of_nat (seq 0 64)) = true ->
  forall i, i < 64 -> Q i = true.
Proof.
  intros H i Hi. rewrite forallb_forall in H. apply H.
  apply in_map_iff. exists (N.to_nat i). split; [apply N2Nat.id|].
  apply in_seq. lia.
Qed.

Lemma index_digit i : i < 64 -> index (digit i) = Some i.
Proof.
  intros Hi.
  pose proof (below_64_cases
    (fun i => match index (digit i) with Some j => j =? i | None => false end)
    eq_refl Hi) as H.
  cbv beta in H. destruct (index (digit i)); [|discriminate].
  apply N.eqb_eq in H. now subst.
Qed.

Lemma digit_plain i :
  i < 64 -> (digit i =? pad) = false /\ is_ascii_whitespace (digit i) = false.
Proof.
  intros Hi.
  pose proof (below_64_cases
    (fun i => negb (digit i =? pad) && negb (is_ascii_whitespace (digit i)))
    eq_refl Hi) as H.
  cbv beta in H. apply andb_true_iff in H. destruct H as [H1 H2].
  now rewrite negb_true_iff in H1, H2.
Qed.

Lemma sextets_lt64 s : Forall lt256 s -> Forall lt64 (sextets s).
Proof.
  unfold lt256, lt64. induction s as [|a|a b|a b c l IH] using list_ind3;
    intros H; cbn [sextets].
  - constructor.
  - repeat constructor; arith.
  - repeat constructor; arith.
  - inversion_clear H as [|? ? Ha H']. inversion_clear H' as [|? ? Hb H''].
    inversion_clear H'' as [|? ? Hc Hl].
    repeat constructor; try apply IH; auto;
      zify; Z.to_euclidean_division_equations; lia.
Qed.

Lemma octets_sextets s : Forall lt256 s -> octets (sextets s) = s.
Proof.
  unfold lt256. induction s as [|a|a b|a b c l IH] using list_ind3;
    intros H; cbn [sextets octets].
  - reflexivity.
  - f_equal. arith.
  - repeat f_equal; arith.
  - inversion_clear H as [|? ? Ha H']. inversion_clear H' as [|? ? Hb H''].
    inversion_clear H'' as [|? ? Hc Hl].
    rewrite (IH Hl). repeat f_equal; zify; Z.to_euclidean_division_equations; lia.
Qed.

Lemma sextets_length s :
  Nat.modulo (length (sextets s) + length (padding (length s))) 4 = 0%nat
  /\ Nat.modulo (length (sextets s)) 4 <> 1%nat.
Proof.
  induction s as [|a|a b|a b c l IH] using list_ind3;
    try (cbn; split; [reflexivity | discriminate]).
  assert (E : padding (length (a :: b :: c :: l)) = padding (length l)).
  { unfold padding. cbn [length].
    replace (S (S (S (length l)))) with (length l + 1 * 3)%nat by lia.
    now rewrite Nat.Div0.mod_add. }
  rewrite E. cbn [sextets length]. destruct IH as [IH1 IH2]. split.
  - replace (S (S (S (S (length (sextets l))))) + length (padding (length l)))%nat
      with (length (sextets l) + length (padding (length l)) + 1 * 4)%nat by lia.
    now rewrite Nat.Div0.mod_add.
  - replace (S (S (S (S (length (sextets l))))))
      with (length (sextets l) + 1 * 4)%nat by lia.
    now rewrite Nat.Div0.mod_add.
Qed.

Lemma padding_cases n :
  padding n = [] \/ padding n = [pad] \/ padding n = [pad; pad].
Proof.
  unfold padding. destruct (Nat.modulo n 3) as [|[|[|?]]]; auto.
Qed.

Lemma strip_padding_app l p :
  Forall (fun c => (c =? pad) = false) l ->
  Nat.modulo (length (l ++ p)) 4 = 0%nat ->
  p = [] \/ p = [pad] \/ p = [pad; pad] ->
  strip_padding (l ++ p) = l.
Proof.
  intros Hl Hlen Hp. unfold strip_padding. rewrite Hlen. cbn [Nat.eqb].
  rewrite rev_app_distr.
  destruct Hp as [-> | [-> | ->]]; cbn [rev app].
  - rewrite app_nil_r. destruct (rev l) as [|p1 [|p2 r]] eqn:E; auto.
    assert (In p1 l) as Hin by (apply in_rev; rewrite E; now left).
    rewrite Forall_forall in Hl. now rewrite (Hl _ Hin).
  - destruct (rev l) as [|p2 r] eqn:E.
    + apply (f_equal (@rev N)) in E. rewrite rev_involutive in E. subst l.
      discriminate Hlen.
    + assert (In p2 l) as Hin by (apply in_rev; rewrite E; now left).
      rewrite Forall_forall in Hl. cbv iota. rewrite (Hl _ Hin), N.eqb_refl.
      change (rev r ++ [p2]) with (rev (p2 :: r)).
      rewrite <- E. apply rev_involutive.
  - rewrite !N.eqb_refl. apply rev_involutive.
Qed.

Lemma indices_digits l : Forall lt64 l -> indices (List.map digit l) = Some l.
Proof.
  induction 1 as [|i l Hi _ IH]; cbn [List.map indices]; [reflexivity|].
  now rewrite (index_digit Hi), IH.
Qed.

Lemma encode_no_whitespace s :
  Forall lt256 s ->
  filter (fun c => negb (is_ascii_whitespace c)) (encode s) = encode s.
Proof.
  intros Hs. apply forallb_filter_id, forallb_forall. intros c Hc.
  unfold encode in Hc. apply in_app_iff in Hc. destruct Hc as [Hc | Hc].
  - apply in_map_iff in Hc. destruct Hc as [i [<- Hi]].
    pose proof (sextets_lt64 Hs) as Hall. rewrite Forall_forall in Hall.
    now rewrite (proj2 (digit_plain (Hall _ Hi))).
  - destruct (padding_cases (length s)) as [E | [E | E]]; rewrite E in Hc;
      cbn in Hc; intuition (subst; reflexivity).
Qed.

(** [btoa] accepts every byte string. *)
Lemma btoa_bytes s : Forall lt256 s -> btoa s = inr (encode s).
Proof.
  intros Hs. unfold btoa.
  replace (forallb (fun c => c <? 256) s) with true; [reflexivity|].
  symmetry. apply forallb_forall. intros c Hc. rewrite Forall_forall in Hs.
  apply N.ltb_lt, Hs, Hc.
Qed.

(** Decoding what [btoa] produced gives the byte string back. *)
Lemma atob_encode s : Forall lt256 s -> atob (encode s) = inr s.
Proof.
  intros Hs. unfold atob. rewrite (encode_no_whitespace Hs).
  pose proof (sextets_lt64 Hs) as H64.
  destruct (sextets_length s) as [Hlen Hne1].
  assert (E : strip_padding (encode s) = List.map digit (sextets s)).
  { apply strip_padding_app.
    - apply Forall_forall. intros c Hc. apply in_map_iff in Hc.
      destruct Hc as [i [<- Hi]]. rewrite Forall_forall in H64.
      apply (digit_plain (H64 _ Hi)).
    - now rewrite length_app, length_map.
    - apply padding_cases. }
  rewrite E, length_map.
  destruct (Nat.eqb_spec (Nat.modulo (length (sextets s)) 4) 1);
    [contradiction|].
  now rewrite (indices_digits H64), (octets_sextets Hs).
Qed.

End Base64Facts.

(** ** Bytes, buffers and the header frame *)

Unset Implicit Arguments.

Ltac munfold :=
  cbv beta iota zeta
    delta [bind emit ret throw lift securityLog try_catch].

Ltac wnorm :=
  cbn [random consumed trace]; rewrite <- ?app_assoc; cbn [app].

Lemma elements_of (b : ArrayBuffer) : elements (Uint8Array_of b) = b.
Proof. unfold elements, Uint8Array_of. cbn. apply firstn_all. Qed.

Lemma toUint8_to_N (b : byte) : toUint8 (Byte.to_N b) = b.
Proof.
  unfold toUint8. pose proof (Byte.to_N_bounded b).
  rewrite N.mod_small by lia. now rewrite Byte.of_to_N.
Qed.

Lemma to_N_toUint8 (n : N) : Byte.to_N (toUint8 n) = n mod 256.
Proof.
  unfold toUint8. destruct (Byte.of_N (n mod 256)) as [b|] eqn:E.
  - now apply Byte.to_of_N.
  - apply Byte.of_N_None_iff in E. pose proof (N.mod_upper_bound n 256). lia.
Qed.

Lemma map_toUint8_to_N (l : list byte) :
  List.map toUint8 (List.map Byte.to_N l) = l.
Proof.
  rewrite map_map. rewrite <- (map_id l) at 2. apply map_ext, toUint8_to_N.
Qed.

Lemma bytes_lt256 (l : list byte) :
  Forall Base64.lt256 (List.map Byte.to_N l).
Proof.
  apply Forall_forall. intros c Hc. apply in_map_iff in Hc.
  destruct Hc as [b [<- _]]. pose proof (Byte.to_N_bounded b).
  unfold Base64.lt256. lia.
Qed.

Lemma set_bytes_middle (a old new c : list byte) :
  length old = length new ->
  set_bytes (a ++ old ++ c) new (length a) = inr (a ++ new ++ c).
Proof.
  intros Hlen. unfold set_bytes.
  replace (Nat.leb (length a + length new) (length (a ++ old ++ c))) with true.
  2:{ symmetry. apply Nat.leb_le. rewrite !length_app. lia. }
  f_equal. rewrite firstn_app, firstn_all, Nat.sub_diag, firstn_O, app_nil_r.
  f_equal. f_equal.
  rewrite skipn_app, skipn_all2 by lia.
  replace (length a + length new - length a)%nat with (length old) by lia.
  cbn [app]. rewrite skipn_app, skipn_all, Nat.sub_diag. reflexivity.
Qed.

Lemma getUint32_le32 (pre : list byte) (v : N) (rest : list byte) :
  getUint32_le (pre ++ le32 v ++ rest) (length pre) = inr (v mod 4294967296).
Proof.
  unfold getUint32_le. rewrite skipn_app, skipn_all, Nat.sub_diag.
  cbn [app skipn le32]. rewrite !to_N_toUint8. f_equal.
  zify. Z.to_euclidean_division_equations. lia.
Qed.

(** The three writes of [packageMetadata] fill the zeroed header with
    magic, length and metadata, in this order. *)
Lemma header_writes (mb : list byte) :
  let header := buffer (Uint8Array_new (byteLength MAGIC_HEADER + 4 + length mb)) in
  exists h1 h2,
    set_bytes header (elements MAGIC_HEADER) 0 = inr h1
    /\ setUint32_le h1 (0 + byteLength MAGIC_HEADER) (N.of_nat (length mb)) = inr h2
    /\ set_bytes h2 mb (0 + byteLength MAGIC_HEADER + 4)
       = inr (magic_bytes ++ le32 (N.of_nat (length mb)) ++ mb).
Proof.
  cbn zeta. change (elements MAGIC_HEADER) with magic_bytes.
  change (byteLength MAGIC_HEADER) with 4%nat.
  change (buffer (Uint8Array_new (4 + 4 + length mb)))
    with (repeat x00 4 ++ repeat x00 4 ++ repeat x00 (length mb)).
  exists (magic_bytes ++ repeat x00 4 ++ repeat x00 (length mb)).
  exists (magic_bytes ++ le32 (N.of_nat (length mb)) ++ repeat x00 (length mb)).
  split; [|split].
  - apply (set_bytes_middle [] (repeat x00 4) magic_bytes _ eq_refl).
  - apply (set_bytes_middle magic_bytes (repeat x00 4)
             (le32 (N.of_nat (length mb))) _ eq_refl).
  - pose proof (set_bytes_middle (magic_bytes ++ le32 (N.of_nat (length mb)))
                  (repeat x00 (length mb)) mb [] (repeat_length _ _)) as H.
    rewrite !app_nil_r, <- !app_assoc in H. exact H.
Qed.

(** ** The metadata codec *)

Lemma arrayBufferToBase64_run `{P : Platform} (b : ArrayBuffer) (w : World) :
  arrayBufferToBase64 b w = (inr (b64 b), w).
Proof.
  unfold arrayBufferToBase64, lift. rewrite elements_of.
  now rewrite (Base64Facts.btoa_bytes (bytes_lt256 b)).
Qed.

Lemma base64ToArrayBuffer_b64 `{P : Platform} (b : list byte) (w : World) :
  base64ToArrayBuffer (Some (JString (b64 b))) w = (inr b, w).
Proof.
  unfold base64ToArrayBuffer. munfold. cbn [ToString ToString_json].
  unfold b64. rewrite (Base64Facts.atob_encode (bytes_lt256 b)).
  now rewrite map_toUint8_to_N.
Qed.

(** [packageMetadata] never throws: it returns the framed header of the
    buffers behind its arguments. *)
Lemma packageMetadata_run `{P : Platform} (fileName : js_string)
    (sp se wiv : Uint8Array) (wdek : ArrayBuffer) (w : World) :
  packageMetadata fileName sp se wiv wdek w =
    (inr (Uint8Array_of
            (header_bytes fileName (buffer sp) (buffer se) (buffer wiv) wdek)),
     extend w
       [ConsoleLog INFO [Text "Packaging metadata header."];
        ConsoleLog INFO
          [Text "Metadata packaged. Total header size: ";
           Num (4 + 4 + length (metadata_bytes fileName (buffer sp)
                                  (buffer se) (buffer wiv) wdek));
           Text " bytes."]]).
Proof.
  unfold packageMetadata. munfold. rewrite !arrayBufferToBase64_run. munfold.
  fold (metadata_bytes fileName (buffer sp) (buffer se) (buffer wiv) wdek).
  destruct (header_writes
              (metadata_bytes fileName (buffer sp) (buffer se) (buffer wiv) wdek))
    as [h1 [h2 [E1 [E2 E3]]]].
  cbv zeta in E1. rewrite E1, E2, E3. unfold extend. wnorm. reflexivity.
Qed.

Lemma metadata_fields `{P : Platform} (fileName a b c d : js_string) :
  let m := Metadata fileName a b c d in
  get m (js "fileName") = inr (Some (JString fileName))
  /\ get m (js "sp") = inr (Some (JString a))
  /\ get m (js "se") = inr (Some (JString b))
  /\ get m (js "wiv") = inr (Some (JString c))
  /\ get m (js "wdek") = inr (Some (JString d)).
Proof. repeat split. Qed.

(** Parsing a stream that starts with a framed header: the fields are
    decoded, then their lengths checked. *)
Lemma parseMetadata_fields `{P : Platform} (fileName : js_string)
    (sp se wiv wdek rest : list byte) (fname : js_string) (w : World) :
  N.of_nat (length (metadata_bytes fileName sp se wiv wdek)) < 4294967296 ->
  codec_round_trip fileName sp se wiv wdek ->
  let n := length (metadata_bytes fileName sp se wiv wdek) in
  let started := ConsoleLog INFO [Text "Starting metadata parsing."] in
  parseMetadata
    {| name := fname; content := header_bytes fileName sp se wiv wdek ++ rest |} w
  = if negb (Nat.eqb (length sp) 16) || negb (Nat.eqb (length se) 16)
    then (inl (Error "Metadata integrity check failed: Invalid salt length."),
          extend w [started])
    else if negb (Nat.eqb (length wiv) 12)
    then (inl (Error "Metadata integrity check failed: Invalid wrapping IV length."),
          extend w [started])
    else
      (inr {| fileName := Some (JString fileName); sp := sp; se := se;
              wiv := wiv; wdek := wdek; headerLength := 8 + n |},
       extend w
         [started;
          ConsoleLog INFO [Text "Metadata parsed successfully. Header length: ";
                           Num (8 + n); Text "."]]).
Proof.
  intros Hn Hcodec n started.
  unfold parseMetadata, header_bytes. fold n. munfold. cbn [content].
  set (mb := metadata_bytes fileName sp se wiv wdek) in *.
  change (slice ((magic_bytes ++ le32 (N.of_nat n) ++ mb) ++ rest) 0 8)
    with (magic_bytes ++ le32 (N.of_nat n) ++ []).
  change (differs _ _ || differs _ _ || differs _ _ || differs _ _)
    with false.
  cbv iota.
  change 4%nat with (length magic_bytes) at 1.
  rewrite getUint32_le32, N.mod_small by exact Hn.
  rewrite Nat2N.id.
  replace (slice ((magic_bytes ++ le32 (N.of_nat n) ++ mb) ++ rest) 8 (8 + n))
    with mb.
  2:{ unfold slice. replace (8 + n - 8)%nat with (length mb) by (subst n; lia).
      cbn [magic_bytes le32 app skipn]. now rewrite firstn_app, firstn_all,
        Nat.sub_diag, firstn_O, app_nil_r. }
  unfold codec_round_trip in Hcodec. fold mb in Hcodec. rewrite Hcodec.
  cbv iota beta.
  destruct (metadata_fields fileName (b64 sp) (b64 se) (b64 wiv) (b64 wdek))
    as [E0 [E1 [E2 [E3 E4]]]]. cbv zeta in E0.
  rewrite E0, E1. cbv iota beta. rewrite base64ToArrayBuffer_b64.
  rewrite E2. cbv iota beta. rewrite base64ToArrayBuffer_b64.
  rewrite E3. cbv iota beta. rewrite base64ToArrayBuffer_b64.
  rewrite E4. cbv iota beta. rewrite base64ToArrayBuffer_b64.
  change SALT_LENGTH with 16%nat. change AES_IV_LENGTH with 12%nat.
  destruct (negb (Nat.eqb (length sp) 16) || negb (Nat.eqb (length se) 16));
    [reflexivity|].
  destruct (negb (Nat.eqb (length wiv) 12)); [reflexivity|].
  unfold extend. wnorm. reflexivity.
Qed.

(** Parsing a stream that starts with a framed header whose fields have
    the right lengths. *)
Lemma parseMetadata_header `{P : Platform} (fileName : js_string)
    (sp se wiv wdek rest : list byte) (fname : js_string) (w : World) :
  length sp = 16%nat -> length se = 16%nat -> length wiv = 12%nat ->
  N.of_nat (length (metadata_bytes fileName sp se wiv wdek)) < 4294967296 ->
  codec_round_trip fileName sp se wiv wdek ->
  let n := length (metadata_bytes fileName sp se wiv wdek) in
  parseMetadata
    {| name := fname; content := header_bytes fileName sp se wiv wdek ++ rest |} w
  = (inr {| fileName := Some (JString fileName); sp := sp; se := se;
            wiv := wiv; wdek := wdek; headerLength := 8 + n |},
     extend w
       [ConsoleLog INFO [Text "Starting metadata parsing."];
        ConsoleLog INFO [Text "Metadata parsed successfully. Header length: ";
                         Num (8 + n); Text "."]]).
Proof.
  intros Hsp Hse Hwiv Hn Hcodec n.
  rewrite (parseMetadata_fields fileName sp se wiv wdek rest fname w Hn Hcodec).
  now rewrite Hsp, Hse, Hwiv.
Qed.

(** ** Key derivation *)

(** Stretching never throws. *)
Lemma deriveKeyPBKDF2_run `{P : Platform} (secret : js_string)
    (salt : list byte) (w : World) :
  deriveKeyPBKDF2 secret salt w
  = (inr (stretched secret salt), extend w (stretch_events secret salt)).
Proof.
  unfold deriveKeyPBKDF2, subtle_importKey, subtle_deriveKey. munfold.
  cbn. unfold extend, stretch_events. wnorm. reflexivity.
Qed.

Lemma set_bytes_ikm (kpRaw keRaw : list byte) :
  exists ikm1,
    set_bytes (buffer (Uint8Array_new (length kpRaw + length keRaw))) kpRaw 0
      = inr ikm1
    /\ set_bytes ikm1 keRaw (length kpRaw) = inr (kpRaw ++ keRaw).
Proof.
  change (buffer (Uint8Array_new (length kpRaw + length keRaw)))
    with (repeat x00 (length kpRaw + length keRaw)).
  rewrite repeat_app.
  exists (kpRaw ++ repeat x00 (length keRaw)). split.
  - apply (set_bytes_middle [] (repeat x00 (length kpRaw)) kpRaw _).
    apply repeat_length.
  - pose proof (set_bytes_middle kpRaw (repeat x00 (length keRaw)) keRaw []
                  (repeat_length _ _)) as H.
    now rewrite !app_nil_r in H.
Qed.

(** Combining two extractable keys never throws. *)
Lemma deriveMasterKey_run `{P : Platform} (kp ke : CryptoKey) (w : World) :
  extractable kp = true -> extractable ke = true ->
  deriveMasterKey kp ke w
  = (inr (master_key (raw kp) (raw ke)), extend w (combine_events kp ke)).
Proof.
  intros Hkp Hke.
  unfold deriveMasterKey, subtle_exportKey, subtle_importKey, subtle_deriveKey.
  munfold. rewrite Hkp, Hke. cbv iota.
  destruct (set_bytes_ikm (raw kp) (raw ke)) as [ikm1 [E1 E2]].
  rewrite E1, E2. cbn. unfold extend, combine_events. wnorm. reflexivity.
Qed.

(** ** The random source *)

Lemma upcoming_length (w : World) (from n : nat) :
  length (upcoming w from n) = n.
Proof. unfold upcoming. now rewrite length_map, length_seq. Qed.

Lemma upcoming_advance (w : World) (k : nat) (evs : list Event) (from n : nat) :
  upcoming (advance w k evs) from n = upcoming w (k + from) n.
Proof.
  unfold upcoming, advance. cbn [random consumed]. apply map_ext.
  intros i. f_equal. lia.
Qed.

Lemma upcoming_extend (w : World) (evs : list Event) (from n : nat) :
  upcoming (extend w evs) from n = upcoming w from n.
Proof. reflexivity. Qed.

(** Filling a fresh array takes the next bytes of the source. *)
Lemma fresh_random_run `{P : Platform} (n : nat) (w : World) :
  N.of_nat n <= 65536 ->
  crypto_getRandomValues (Uint8Array_new n) w
  = (inr (Uint8Array_of (upcoming w 0 n)),
     advance w n [GetRandomValues (upcoming w 0 n)]).
Proof.
  intros Hn. unfold crypto_getRandomValues, Uint8Array_new, Uint8Array_of.
  cbn [byteLength byteOffset buffer]. rewrite repeat_length.
  replace (65536 <? N.of_nat n) with false by (symmetry; apply N.ltb_ge; lia).
  unfold draw. munfold. cbn [firstn Nat.add app random consumed trace].
  rewrite skipn_all2 by (rewrite repeat_length; lia).
  rewrite app_nil_r. unfold upcoming, advance. cbn [Nat.add].
  now rewrite length_map, length_seq.
Qed.

Lemma generateSalt_run `{P : Platform} (w : World) :
  generateSalt SALT_LENGTH w
  = (inr (Uint8Array_of (upcoming w 0 16)),
     advance w 16 [GetRandomValues (upcoming w 0 16)]).
Proof. apply fresh_random_run. cbn. lia. Qed.

Lemma generateDataEncryptionKey_run `{P : Platform} (w : World) :
  generateDataEncryptionKey w
  = (inr (data_key (upcoming w 0 32)),
     advance w 32 [ConsoleLog INFO [Text "Generating random DEK."];
                   SubtleGenerateKey (data_key (upcoming w 0 32))]).
Proof.
  unfold generateDataEncryptionKey, subtle_generateKey, draw. munfold.
  cbn. unfold advance. wnorm. reflexivity.
Qed.

(** ** Wrapping and the payload cipher *)

Lemma wrapDataKey_run `{P : Platform} (dek km : CryptoKey) (w : World) :
  extractable dek = true ->
  alg_name (algorithm km) = AES_GCM -> has_usage encrypt km = true ->
  let iv := upcoming w 0 12 in
  wrapDataKey dek km w
  = (inr (AES_GCM_encrypt (raw km) iv (raw dek), Uint8Array_of iv),
     advance w 12 (wrap_events dek km iv)).
Proof.
  intros Hdek Hname Huse iv.
  unfold wrapDataKey, subtle_exportKey, subtle_encrypt. munfold.
  rewrite Hdek. cbv iota.
  wnorm. rewrite fresh_random_run by (cbn; lia).
  cbv iota beta. rewrite elements_of, Hname, Huse.
  cbn [name_eqb andb]. unfold advance, wrap_events. wnorm.
  reflexivity.
Qed.

(** [unwrapDataKey] in full: every way the browser can fail inside the
    [try] block ends in the same [Error]. *)
Lemma unwrapDataKey_run `{P : Platform} (wrappedKey iv : list byte)
    (km : CryptoKey) (w : World) :
  unwrapDataKey wrappedKey iv km w
  = (fst (unwrap_result wrappedKey iv km),
     extend w (snd (unwrap_result wrappedKey iv km))).
Proof.
  unfold unwrapDataKey, unwrap_result, opened, subtle_decrypt, subtle_importKey.
  munfold.
  destruct (name_eqb (alg_name (algorithm km)) AES_GCM && has_usage decrypt km).
  - destruct (AES_GCM_decrypt (raw km) iv wrappedKey) as [dekRaw|].
    + destruct (valid_aes_bits (8 * N.of_nat (length dekRaw)));
        cbn [fst snd]; unfold extend; wnorm; reflexivity.
    + cbn [fst snd]. unfold extend. wnorm. reflexivity.
  - cbn [fst snd]. unfold extend. wnorm. reflexivity.
Qed.

(** [decryptFileStream] in full. *)
Lemma decryptFileStream_run `{P : Platform} (blob : Blob) (dek : CryptoKey)
    (w : World) :
  decryptFileStream blob dek w
  = (fst (payload_result blob dek), extend w (snd (payload_result blob dek))).
Proof.
  unfold decryptFileStream, payload_result, opened, subtle_decrypt. munfold.
  change (AES_IV_LENGTH + AES_TAG_LENGTH)%nat with 28%nat.
  destruct (Nat.ltb (length blob) 28).
  - reflexivity.
  - unfold slice, slice_from.
    change (firstn (AES_IV_LENGTH - 0) (skipn 0 blob)) with (firstn 12 blob).
    change (skipn AES_IV_LENGTH blob) with (skipn 12 blob).
    destruct (name_eqb (alg_name (algorithm dek)) AES_GCM && has_usage decrypt dek).
    + destruct (AES_GCM_decrypt (raw dek) (firstn 12 blob) (skipn 12 blob));
        cbn [fst snd]; unfold extend; wnorm; reflexivity.
    + cbn [fst snd]. unfold extend. wnorm. reflexivity.
Qed.

Lemma encryptFileStream_run `{P : Platform} (file : File) (dek : CryptoKey)
    (w : World) :
  alg_name (algorithm dek) = AES_GCM -> has_usage encrypt dek = true ->
  let iv := upcoming w 0 12 in
  encryptFileStream file dek w
  = (inr (iv ++ AES_GCM_encrypt (raw dek) iv (content file)),
     advance w 12
       [ConsoleLog INFO [Text "Starting encryption for file: "; Str (name file)];
        ConsoleLog INFO [Text "File loaded into memory (";
                         Num (length (content file)); Text " bytes)."];
        GetRandomValues iv;
        SubtleEncrypt dek iv (content file);
        ConsoleLog INFO [Text "File encryption complete."]]).
Proof.
  intros Hname Huse iv. unfold encryptFileStream, subtle_encrypt. munfold.
  wnorm. rewrite fresh_random_run by (cbn; lia).
  cbv iota beta. rewrite elements_of, Hname, Huse.
  cbn [name_eqb andb buffer Uint8Array_of]. unfold advance. wnorm.
  reflexivity.
Qed.

(** ** The encryption pipeline *)

Lemma advance_advance (w : World) (a b : nat) (e1 e2 : list Event) :
  advance (advance w a e1) b e2 = advance w (a + b) (e1 ++ e2).
Proof.
  unfold advance. cbn [random consumed trace].
  now rewrite Nat.add_assoc, app_assoc.
Qed.

Lemma extend_advance (w : World) (a : nat) (e1 e2 : list Event) :
  extend (advance w a e1) e2 = advance w a (e1 ++ e2).
Proof. unfold advance, extend. cbn [random consumed trace]. now rewrite app_assoc. Qed.

Lemma advance_extend (w : World) (b : nat) (e1 e2 : list Event) :
  advance (extend w e1) b e2 = advance w b (e1 ++ e2).
Proof. unfold advance, extend. cbn [random consumed trace]. now rewrite app_assoc. Qed.

Lemma extend_extend (w : World) (e1 e2 : list Event) :
  extend (extend w e1) e2 = extend w (e1 ++ e2).
Proof. unfold extend. cbn [random consumed trace]. now rewrite app_assoc. Qed.

(** [encryptFile] never throws: it consumes 88 random bytes and returns
    the envelope they determine. *)
Lemma encryptFile_run `{P : Platform} (file : File)
    (password email : js_string) (w : World) :
  exists evs,
    encryptFile file password email w
    = (inr (envelope file password email (draws w)), advance w 88 evs).
Proof.
  unfold encryptFile. munfold.
  rewrite generateSalt_run. cbv iota beta.
  rewrite generateSalt_run. cbv iota beta.
  rewrite !elements_of.
  rewrite deriveKeyPBKDF2_run. cbv iota beta.
  rewrite deriveKeyPBKDF2_run. cbv iota beta.
  rewrite deriveMasterKey_run by reflexivity. cbv iota beta.
  rewrite generateDataEncryptionKey_run. cbv iota beta.
  rewrite wrapDataKey_run by reflexivity. cbv iota beta zeta.
  rewrite encryptFileStream_run by reflexivity. cbv iota beta zeta.
  rewrite packageMetadata_run. cbv iota beta.
  rewrite elements_of.
  cbn [buffer Uint8Array_of raw data_key].
  rewrite ?upcoming_advance, ?upcoming_extend.
  rewrite ?upcoming_advance, ?upcoming_extend.
  rewrite ?advance_advance, ?extend_advance, ?advance_extend.
  rewrite ?advance_advance, ?extend_advance, ?advance_extend.
  eexists. reflexivity.
Qed.

(** ** The decryption pipeline *)

(** [decryptFile] in full, in terms of what [parseMetadata] returns. *)
Lemma decryptFile_run `{P : Platform} (file : File)
    (password email : js_string) (w : World) :
  decryptFile file password email w
  = match parseMetadata file w with
    | (inl e, w1) => (inl e, w1)
    | (inr md, w1) =>
        let r := after_parse md (slice_from (content file) (headerLength md))
                   password email in
        (fst r, extend w1 (snd r))
    end.
Proof.
  unfold decryptFile. unfold bind at 1.
  destruct (parseMetadata file w) as [[e|md] w1]; [reflexivity|].
  munfold.
  rewrite deriveKeyPBKDF2_run. cbv iota beta.
  rewrite deriveKeyPBKDF2_run. cbv iota beta.
  rewrite deriveMasterKey_run by reflexivity. cbv iota beta.
  rewrite unwrapDataKey_run.
  unfold after_parse. cbv zeta.
  destruct (unwrap_result (wdek md) (wiv md)
              (master_key (raw (stretched password (sp md)))
                 (raw (stretched email (se md))))) as [[e|dek] uevs];
    cbn [fst snd].
  - rewrite !extend_extend, <- !app_assoc. reflexivity.
  - rewrite decryptFileStream_run.
    destruct (payload_result (slice_from (content file) (headerLength md)) dek)
      as [[e|plaintext] pevs]; cbn [fst snd];
      rewrite !extend_extend, <- !app_assoc; reflexivity.
Qed.

(** Parsing the header talks to the console only. *)
Lemma parseMetadata_trace `{P : Platform} (file : File) (w : World) :
  exists evs,
    snd (parseMetadata file w) = extend w evs
    /\ forallb is_console evs = true.
Proof.
  unfold parseMetadata, base64ToArrayBuffer. munfold.
  repeat match goal with
         | |- context [match ?x with _ => _ end] =>
             lazymatch x with
             | context [match _ with _ => _ end] => fail
             | _ => destruct x
             end
         | |- context [if ?x then _ else _] =>
             lazymatch x with
             | context [if _ then _ else _] => fail
             | context [match _ with _ => _ end] => fail
             | _ => destruct x
             end
         end;
    cbn [snd]; unfold extend; wnorm;
    eexists; (split; [reflexivity | reflexivity]).
Qed.

Lemma header_bytes_length `{P : Platform} (fileName : js_string)
    (sp se wiv wdek : list byte) :
  length (header_bytes fileName sp se wiv wdek)
  = (8 + length (metadata_bytes fileName sp se wiv wdek))%nat.
Proof. unfold header_bytes. cbv zeta. rewrite !length_app. reflexivity. Qed.

(** Parsing the envelope of an encryption gives back what was packaged. *)
Lemma parseMetadata_envelope `{P : Platform} (file : File)
    (password email fname : js_string) (w w2 : World) :
  header_readable file password email (draws w) ->
  parseMetadata
    {| name := fname; content := envelope file password email (draws w) |} w2
  = (inr (envelope_parsed file password email (draws w)),
     extend w2
       (parse_events (headerLength (envelope_parsed file password email (draws w))))).
Proof.
  intros [Hcodec Hlen]. unfold envelope, envelope_header.
  apply parseMetadata_header; auto; apply upcoming_length.
Qed.

(** Decrypting the envelope of an encryption, with any password and
    email: the header is read back, and the rest is [after_parse]. *)
Lemma decryptFile_envelope `{P : Platform} (file : File)
    (password email fname password' email' : js_string) (w w2 : World) :
  header_readable file password email (draws w) ->
  let d := draws w in
  let md := envelope_parsed file password email d in
  let r := after_parse md (payload_bytes (content file) d) password' email' in
  decryptFile
    {| name := fname; content := envelope file password email d |}
    password' email' w2
  = (fst r, extend w2 (parse_events (headerLength md) ++ snd r)).
Proof.
  intros Hread. cbv zeta. rewrite decryptFile_run.
  rewrite (parseMetadata_envelope file password email fname w w2 Hread).
  cbv zeta. cbn [content].
  set (d := draws w). set (md := envelope_parsed file password email d).
  replace (slice_from (envelope file password email d) (headerLength md))
    with (payload_bytes (content file) d).
  - rewrite extend_extend. reflexivity.
  - unfold slice_from, envelope, envelope_header, md, envelope_parsed,
      envelope_metadata. cbn [headerLength].
    rewrite <- header_bytes_length.
    now rewrite skipn_app, skipn_all, Nat.sub_diag.
Qed.

(** ** Round trip *)

Lemma opened_master `{P : Platform} (kpRaw keRaw iv data : list byte) :
  opened (master_key kpRaw keRaw) iv data
  = AES_GCM_decrypt (raw (master_key kpRaw keRaw)) iv data.
Proof. reflexivity. Qed.

Lemma opened_imported `{P : Platform} (material iv data : list byte) :
  opened (imported_key material) iv data = AES_GCM_decrypt material iv data.
Proof. reflexivity. Qed.

Lemma firstn_12_app (iv rest : list byte) :
  length iv = 12%nat -> firstn 12 (iv ++ rest) = iv.
Proof.
  intros H. rewrite <- H.
  now rewrite firstn_app, firstn_all, Nat.sub_diag, firstn_O, app_nil_r.
Qed.

Lemma skipn_12_app (iv rest : list byte) :
  length iv = 12%nat -> skipn 12 (iv ++ rest) = rest.
Proof.
  intros H. rewrite <- H. now rewrite skipn_app, skipn_all, Nat.sub_diag.
Qed.

(** With the right secrets the data key is unwrapped and the payload
    opened. *)
Lemma after_parse_envelope `{P : Platform} (file : File)
    (password email : js_string) (d : Draws) :
  length (drawn_dek d) = 32%nat -> length (drawn_iv d) = 12%nat ->
  cipher_round_trips file password email d ->
  fst (after_parse (envelope_parsed file password email d)
         (payload_bytes (content file) d) password email)
  = inr (content file, Some (JString (name file))).
Proof.
  intros Hdek Hiv [Hwrap [Hpay Htag]].
  unfold after_parse, envelope_parsed, unwrap_result. cbv zeta.
  cbn [sp se wiv wdek fileName]. rewrite opened_master.
  unfold wrapped_dek, master_of. unfold aead_round_trip, master_of in Hwrap.
  rewrite Hwrap, Hdek. cbn [valid_aes_bits N.of_nat Pos.of_succ_nat Pos.succ
    N.mul Pos.mul Pos.add N.eqb Pos.eqb orb fst snd].
  unfold payload_result, payload_bytes.
  replace (Nat.ltb (length (drawn_iv d ++
             AES_GCM_encrypt (drawn_dek d) (drawn_iv d) (content file))) 28)
    with false.
  2:{ symmetry. apply Nat.ltb_ge. rewrite length_app, Hiv, Htag. lia. }
  rewrite (firstn_12_app _ _ Hiv), (skipn_12_app _ _ Hiv).
  rewrite opened_imported, Hpay. reflexivity.
Qed.

(** Decrypting the envelope of an encryption with the same secrets. *)
Lemma decryptFile_round_trip `{P : Platform} (file : File)
    (password email fname : js_string) (w w2 : World) :
  header_readable file password email (draws w) ->
  cipher_round_trips file password email (draws w) ->
  fst (decryptFile
         {| name := fname; content := envelope file password email (draws w) |}
         password email w2)
  = inr (content file, Some (JString (name file))).
Proof.
  intros Hread Hcipher.
  rewrite (decryptFile_envelope file password email fname password email
             w w2 Hread).
  cbn [fst]. apply after_parse_envelope; auto; apply upcoming_length.
Qed.

(** C1. For every file, password of at least 7 code units and email:
    [encryptFile] returns the envelope, and [decryptFile] on it with the
    same password and email returns exactly the file's bytes (and its
    name); if the email is not empty, [handleEncrypt] saves that envelope
    and [handleDecrypt] saves the file's bytes.  The platform is assumed
    to read its own metadata JSON back and to decrypt what it encrypted
    under the same key and IV. *)
Theorem decrypt_encrypt_round_trip `{P : Platform} (file : File)
    (password email fname : js_string) (w w2 : World) :
  (7 <= length password)%nat ->
  header_readable file password email (draws w) ->
  cipher_round_trips file password email (draws w) ->
  let env := envelope file password email (draws w) in
  let encrypted := {| name := fname; content := env |} in
  fst (encryptFile file password email w) = inr env
  /\ fst (decryptFile encrypted password email w2)
     = inr (content file, Some (JString (name file)))
  /\ (email <> [] ->
      fst (handleEncrypt (Some file) password email w)
      = inr (Saved env (Some (JString (name file ++ ENCRYPTED_FILE_EXTENSION))))
      /\ fst (handleDecrypt (Some encrypted) password email w2)
         = inr (Saved (content file) (Some (JString (name file))))).
Proof.
  intros Hlen Hread Hcipher env encrypted.
  destruct (encryptFile_run file password email w) as [evs Henc].
  assert (Hdec : forall w', fst (decryptFile encrypted password email w')
                 = inr (content file, Some (JString (name file)))).
  { intros w'. now apply decryptFile_round_trip. }
  split; [now rewrite Henc|]. split; [apply Hdec|].
  intros Hemail.
  assert (Hguard : is_empty password || is_empty email = false).
  { destruct password; [cbn in Hlen; lia|]. destruct email; [contradiction|].
    reflexivity. }
  assert (Hmin : Nat.ltb (length password) MIN_PASSWORD_LENGTH = false)
    by (apply Nat.ltb_ge; exact Hlen).
  split.
  - unfold handleEncrypt. rewrite Hguard, Hmin. munfold.
    match goal with
    | |- context [encryptFile file password email ?w'] =>
        destruct (encryptFile_run file password email w') as [evs' Henc'];
        change (draws w') with (draws w) in Henc'; rewrite Henc'
    end.
    reflexivity.
  - unfold handleDecrypt. rewrite Hguard, Hmin. munfold.
    match goal with
    | |- context [decryptFile encrypted password email ?w'] =>
        pose proof (Hdec w') as H;
        destruct (decryptFile encrypted password email w') as [r w'']
    end.
    cbn [fst] in H. subst r. reflexivity.
Qed.

(** ** Rejection of wrong secrets *)

(** Decrypting any stream that starts with a well-formed header. *)
Lemma decryptFile_framed `{P : Platform} (fileName fname : js_string)
    (sp se wiv wdek payload : list byte) (password email : js_string)
    (w : World) :
  length sp = 16%nat -> length se = 16%nat -> length wiv = 12%nat ->
  readable fileName sp se wiv wdek ->
  let md := framed_metadata fileName sp se wiv wdek in
  let r := after_parse md payload password email in
  decryptFile
    {| name := fname;
       content := header_bytes fileName sp se wiv wdek ++ payload |}
    password email w
  = (fst r, extend w (parse_events (headerLength md) ++ snd r)).
Proof.
  intros Hsp Hse Hwiv [Hcodec Hlen]. cbv zeta. rewrite decryptFile_run.
  rewrite (parseMetadata_header fileName sp se wiv wdek payload fname w
             Hsp Hse Hwiv Hlen Hcodec).
  cbv zeta. cbn [content]. fold (framed_metadata fileName sp se wiv wdek).
  replace (slice_from (header_bytes fileName sp se wiv wdek ++ payload)
             (headerLength (framed_metadata fileName sp se wiv wdek)))
    with payload.
  - rewrite extend_extend. reflexivity.
  - unfold slice_from, framed_metadata. cbn [headerLength].
    rewrite <- header_bytes_length.
    now rewrite skipn_app, skipn_all, Nat.sub_diag.
Qed.


Lemma decrypt_attempts_app (a b : list Event) :
  decrypt_attempts (a ++ b) = decrypt_attempts a ++ decrypt_attempts b.
Proof. apply filter_app. Qed.

Lemma decrypt_attempts_console (evs : list Event) :
  forallb is_console evs = true -> decrypt_attempts evs = [].
Proof.
  induction evs as [|e evs IH]; [reflexivity|]. cbn [forallb].
  intros H. apply andb_true_iff in H. destruct H as [He Hevs].
  destruct e; try discriminate. cbn. now apply IH.
Qed.

(** The secrets enter a decryption through their UTF-8 encodings alone:
    secrets that encode alike, as strings that differ in unpaired
    surrogates do, give the same run on every file. *)
Lemma same_encoding_same_run `{P : Platform} (file : File)
    (password email password' email' : js_string) (w : World) :
  TextEncoder_encode password' = TextEncoder_encode password ->
  TextEncoder_encode email' = TextEncoder_encode email ->
  decryptFile file password' email' w = decryptFile file password email w.
Proof.
  intros Hp He. rewrite !decryptFile_run.
  destruct (parseMetadata file w) as [[e|md] w1]; [reflexivity|].
  unfold after_parse, stretched, stretch_events, pbkdf2_base_key.
  now rewrite Hp, He.
Qed.

(** C2, as amended.  Take the envelope of an encryption, possibly with
    its wrapped-key bytes replaced in a header that stays readable, and
    any password and email.  If the platform's tag check rejects the
    wrapped key under the master key these secrets derive (a wrong
    password, a wrong email, both, or replaced key bytes), [decryptFile]
    throws one and the same error, whose kind is [AuthenticationError]; it
    is thrown by [unwrapDataKey], the unwrap being the only decryption
    attempted.  A secret is wrong by its UTF-8 encoding: secrets that
    encode as the right ones do decrypt exactly as the right ones. *)
Theorem wrong_secrets_fail_identically `{P : Platform} (file : File)
    (password email fname password' email' : js_string) (wdek' : list byte)
    (w w2 : World) :
  let d := draws w in
  let km' := master_of password' email' (drawn_sp d) (drawn_se d) in
  let run :=
    decryptFile {| name := fname; content := rewrapped_envelope file d wdek' |}
      password' email' w2 in
  readable (name file) (drawn_sp d) (drawn_se d) (drawn_wiv d) wdek' ->
  AES_GCM_decrypt (raw km') (drawn_wiv d) wdek' = None ->
  rewrapped_envelope file d (wrapped_dek password email d)
  = envelope file password email d
  /\ fst run = inl authentication_failed
  /\ classify authentication_failed = Some AuthenticationError
  /\ decrypt_attempts (trace (snd run))
     = decrypt_attempts (trace w2) ++ [SubtleDecrypt km' (drawn_wiv d) wdek']
  /\ forall (encrypted : File) (password'' email'' : js_string) (w' : World),
       TextEncoder_encode password'' = TextEncoder_encode password ->
       TextEncoder_encode email'' = TextEncoder_encode email ->
       decryptFile encrypted password'' email'' w'
       = decryptFile encrypted password email w'.
Proof.
  intros d km' run Hread Hreject.
  split; [reflexivity|].
  assert (Hrun : run = (inl authentication_failed,
            extend w2
              (parse_events
                 (8 + length (metadata_bytes (name file) (drawn_sp d)
                                (drawn_se d) (drawn_wiv d) wdek'))
               ++ stretch_events password' (drawn_sp d)
               ++ stretch_events email' (drawn_se d)
               ++ combine_events (stretched password' (drawn_sp d))
                    (stretched email' (drawn_se d))
               ++ [ConsoleLog INFO [Text "Attempting to unwrap DEK."];
                   SubtleDecrypt km' (drawn_wiv d) wdek';
                   ConsoleLog ERROR
                     [Text "DEK unwrapping failed. Invalid password/email combination."]]))).
  { unfold run, rewrapped_envelope.
    rewrite (decryptFile_framed (name file) fname (drawn_sp d) (drawn_se d)
               (drawn_wiv d) wdek' (payload_bytes (content file) d)
               password' email' w2
               (upcoming_length _ _ _) (upcoming_length _ _ _)
               (upcoming_length _ _ _) Hread).
    unfold after_parse, framed_metadata, unwrap_result. cbv zeta.
    cbn [sp se wiv wdek headerLength]. rewrite opened_master.
    fold (master_of password' email' (drawn_sp d) (drawn_se d)). fold km'.
    rewrite Hreject. cbn [fst snd]. rewrite <- !app_assoc. reflexivity. }
  rewrite Hrun. cbn [fst snd]. split; [reflexivity|]. split; [reflexivity|].
  split.
  - unfold extend. cbn [trace]. rewrite decrypt_attempts_app. f_equal.
  - intros encrypted password'' email'' w'. apply same_encoding_same_run.
Qed.

(** ** The envelope layout *)

Lemma envelope_frame `{P : Platform} (file : File) (password email : js_string)
    (d : Draws) :
  envelope file password email d
  = magic_bytes
      ++ le32 (N.of_nat (length (envelope_metadata file password email d)))
      ++ envelope_metadata file password email d
      ++ payload_bytes (content file) d.
Proof.
  unfold envelope, envelope_header, header_bytes, envelope_metadata.
  cbv zeta. now rewrite <- !app_assoc.
Qed.

(** C3. The envelope [encryptFile] returns is laid out as: bytes 0-3 the
    ASCII magic [DYAD]; bytes 4-7 the little-endian length [n] of the
    metadata; bytes 8 to 8+n the UTF-8 JSON of the object
    [{fileName, sp, se, wiv, wdek}] with the 16-byte salts, the 12-byte
    wrapping IV and the wrapped key in base64; then the payload, a
    12-byte IV followed by ciphertext and 16-byte tag.  The length is
    assumed to fit its 32-bit field, and the platform's cipher to append
    its tag to a ciphertext as long as the plaintext. *)
Theorem envelope_layout `{P : Platform} (file : File)
    (password email : js_string) (w : World) :
  let d := draws w in
  let env := envelope file password email d in
  let metadata := envelope_metadata file password email d in
  let n := length metadata in
  let sealed := AES_GCM_encrypt (drawn_dek d) (drawn_iv d) (content file) in
  N.of_nat n < 4294967296 ->
  aead_tagged (drawn_dek d) (drawn_iv d) (content file) ->
  fst (encryptFile file password email w) = inr env
  /\ slice env 0 4 = list_byte_of_string "DYAD"
  /\ slice env 4 8 = le32 (N.of_nat n)
  /\ getUint32_le env 4 = inr (N.of_nat n)
  /\ slice env 8 (8 + n) = metadata
  /\ metadata
     = TextEncoder_encode
         (JSON_stringify
            (JObject
               [(js "fileName", JString (name file));
                (js "sp", JString (b64 (drawn_sp d)));
                (js "se", JString (b64 (drawn_se d)));
                (js "wiv", JString (b64 (drawn_wiv d)));
                (js "wdek", JString (b64 (wrapped_dek password email d)))]))
  /\ (length (drawn_sp d) = 16 /\ length (drawn_se d) = 16
      /\ length (drawn_wiv d) = 12)%nat
  /\ slice_from env (8 + n) = drawn_iv d ++ sealed
  /\ length (drawn_iv d) = 12%nat
  /\ exists ciphertext tag,
       sealed = ciphertext ++ tag
       /\ length ciphertext = length (content file)
       /\ length tag = 16%nat.
Proof.
  intros d env metadata n sealed Hn Htag.
  destruct (encryptFile_run file password email w) as [evs Henc].
  assert (Henv : env = magic_bytes ++ le32 (N.of_nat n) ++ metadata
                         ++ payload_bytes (content file) d)
    by apply envelope_frame.
  split; [now rewrite Henc|].
  split; [now rewrite Henv|].
  split; [now rewrite Henv|].
  split.
  { rewrite Henv. change 4%nat with (length magic_bytes).
    rewrite getUint32_le32. now rewrite N.mod_small. }
  split.
  { rewrite Henv. unfold slice.
    replace (8 + n - 8)%nat with (length metadata) by (unfold n; lia).
    cbn [magic_bytes le32 app skipn].
    now rewrite firstn_app, firstn_all, Nat.sub_diag, firstn_O, app_nil_r. }
  split; [reflexivity|].
  split; [repeat split; apply upcoming_length|].
  split.
  { rewrite Henv. unfold slice_from.
    replace (8 + n)%nat
      with (length (magic_bytes ++ le32 (N.of_nat n) ++ metadata))
      by (rewrite !length_app; reflexivity).
    rewrite !app_assoc. rewrite skipn_app, skipn_all, Nat.sub_diag.
    reflexivity. }
  split; [apply upcoming_length|].
  exists (firstn (length (content file)) sealed),
         (skipn (length (content file)) sealed).
  unfold aead_tagged in Htag. fold sealed in Htag.
  split; [now rewrite firstn_skipn|].
  split.
  - rewrite length_firstn. lia.
  - rewrite length_skipn. lia.
Qed.

(** ** Rejection of malformed input *)

(** The first steps of [parseMetadata] on a framed stream. *)
Ltac parse_frame mb Hn :=
  unfold parseMetadata, framed; munfold; cbn [content];
  match goal with
  | |- context [slice (magic_bytes ++ ?l ++ mb ++ ?rest) 0 8] =>
      change (slice (magic_bytes ++ l ++ mb ++ rest) 0 8)
        with (magic_bytes ++ l ++ [])
  end;
  change (differs _ _ || differs _ _ || differs _ _ || differs _ _) with false;
  cbv iota;
  change 4%nat with (length magic_bytes) at 1;
  rewrite getUint32_le32, N.mod_small by exact Hn;
  rewrite Nat2N.id;
  match goal with
  | |- context [slice (magic_bytes ++ ?l ++ mb ++ ?rest) 8 (8 + length mb)] =>
      replace (slice (magic_bytes ++ l ++ mb ++ rest) 8 (8 + length mb))
        with mb
        by (unfold slice;
            replace (8 + length mb - 8)%nat with (length mb) by lia;
            cbn [magic_bytes le32 app skipn];
            now rewrite firstn_app, firstn_all, Nat.sub_diag, firstn_O,
              app_nil_r)
  end.

(** A stream whose first four bytes are not the magic is a format
    error. *)
Lemma parse_bad_magic `{P : Platform} (file : File) (w : World) :
  firstn 4 (content file) <> magic_bytes ->
  parseMetadata file w
  = (inl (Error "Invalid file format: Magic header mismatch."),
     extend w [ConsoleLog INFO [Text "Starting metadata parsing."]]).
Proof.
  intros Hmagic. unfold parseMetadata. munfold.
  replace (differs _ _ || differs _ _ || differs _ _ || differs _ _) with true;
    [reflexivity|].
  symmetry. destruct file as [fname bytes]. cbn [content] in *.
  destruct bytes as [|b0 [|b1 [|b2 [|b3 rest]]]];
    cbn [slice Nat.sub skipn firstn Uint8Array_of elements buffer byteOffset
           byteLength length nth_error MAGIC_HEADER differs] in *;
    repeat match goal with
           | |- context [Byte.eqb ?a ?b] =>
               let E := fresh "E" in destruct (Byte.eqb a b) eqn:E
           end;
    try reflexivity.
  repeat match goal with
         | H : Byte.eqb _ _ = true |- _ => apply Byte.byte_dec_bl in H
         end.
  subst. now contradiction Hmagic.
Qed.

(** Metadata the platform cannot parse as JSON is a format error. *)
Lemma parse_bad_json `{P : Platform} (fname : js_string) (mb rest : list byte)
    (w : World) :
  N.of_nat (length mb) < 4294967296 ->
  JSON_parse (TextDecoder_decode mb) = None ->
  parseMetadata {| name := fname; content := framed mb rest |} w
  = (inl (Error "Invalid file format: Metadata JSON parsing failed."),
     extend w [ConsoleLog INFO [Text "Starting metadata parsing."]]).
Proof.
  intros Hn Hjson. parse_frame mb Hn. rewrite Hjson. reflexivity.
Qed.

(** C4. The claim fails on a header cut short after the magic: for a
    stream that is the magic followed by fewer than four bytes, reading
    the length field throws the [RangeError] of [DataView.getUint32],
    which is no format error. *)
Theorem truncated_header_escapes `{P : Platform} (fname : js_string)
    (tail : list byte) (w : World) :
  (length tail < 4)%nat ->
  fst (parseMetadata {| name := fname; content := magic_bytes ++ tail |} w)
  = inl RangeError
  /\ classify RangeError = None.
Proof.
  intros Htail. split; [|reflexivity].
  destruct tail as [|t0 [|t1 [|t2 [|t3 tail]]]];
    try (cbn [length] in Htail; lia); reflexivity.
Qed.

Lemma atob_error (s : js_string) (e : exn) :
  Base64.atob s = inl e -> e = invalid_character.
Proof.
  unfold Base64.atob.
  destruct (Nat.eqb _ 1); [now intros [= <-]|].
  destruct (Base64.indices _); [discriminate | now intros [= <-]].
Qed.

(** C5. The claim fails where a header field is not base64: when the
    metadata parses to an object whose [sp] is text that [atob] rejects,
    the [InvalidCharacterError] of [atob] leaves [parseMetadata],
    [decryptFile] and reaches the [catch] of [handleDecrypt] as it is,
    with no kind of the taxonomy. *)
Theorem undecodable_field_escapes `{P : Platform}
    (fileName spText seText wivText wdekText fname password email : js_string)
    (mb rest : list byte) (e : exn) (w : World) :
  N.of_nat (length mb) < 4294967296 ->
  JSON_parse (TextDecoder_decode mb)
    = Some (Metadata fileName spText seText wivText wdekText) ->
  Base64.atob spText = inl e ->
  (7 <= length password)%nat -> email <> [] ->
  let file := {| name := fname; content := framed mb rest |} in
  fst (parseMetadata file w) = inl e
  /\ fst (decryptFile file password email w) = inl e
  /\ fst (handleDecrypt (Some file) password email w) = inr (Failed e)
  /\ e = invalid_character
  /\ classify e = None.
Proof.
  intros Hn Hjson Hatob Hlen Hemail file.
  assert (Hparse : forall w', fst (parseMetadata file w') = inl e).
  { intros w'. unfold file. parse_frame mb Hn. rewrite Hjson. cbv iota beta.
    destruct (metadata_fields fileName spText seText wivText wdekText)
      as [E0 [E1 _]]. cbv zeta in E0, E1. rewrite E0, E1. cbv iota beta.
    unfold base64ToArrayBuffer. munfold. cbn [ToString ToString_json].
    rewrite Hatob. reflexivity. }
  assert (Hdec : forall w', fst (decryptFile file password email w') = inl e).
  { intros w'. rewrite decryptFile_run. pose proof (Hparse w') as H.
    destruct (parseMetadata file w') as [[e'|md] w1]; cbn [fst] in *.
    - now injection H as ->.
    - discriminate. }
  pose proof (atob_error _ _ Hatob) as He.
  split; [apply Hparse|]. split; [apply Hdec|].
  split; [|split; [exact He | now rewrite He]].
  assert (Hguard : is_empty password || is_empty email = false).
  { destruct password; [cbn in Hlen; lia|]. destruct email; [contradiction|].
    reflexivity. }
  unfold handleDecrypt. rewrite Hguard.
  replace (Nat.ltb (length password) MIN_PASSWORD_LENGTH) with false
    by (symmetry; apply Nat.ltb_ge; exact Hlen).
  munfold.
  match goal with
  | |- context [decryptFile file password email ?w'] =>
      pose proof (Hdec w') as H;
      destruct (decryptFile file password email w') as [r w'']
  end.
  cbn [fst] in H. subst r. reflexivity.
Qed.

(** ** The payload cipher *)

Lemma added_extend {A : Type} (m : M A) (w : World) (r : exn + A)
    (evs : list Event) :
  m w = (r, extend w evs) -> added m w = evs.
Proof.
  intros H. unfold added. rewrite H. cbn [snd extend trace].
  now rewrite skipn_app, skipn_all, Nat.sub_diag.
Qed.

(** C8. [decryptFileStream] on fewer than 28 bytes throws the integrity
    error [Encrypted data too short.] without any decryption attempt.  On
    28 bytes or more it makes one attempt, with the first 12 bytes as IV
    on the remaining bytes; if the tag does not verify it throws the
    integrity error [Integrity check failed...], and with a key that may
    decrypt it returns what the platform decrypts. *)
Theorem payload_minimum_length `{P : Platform} (blob : Blob) (dek : CryptoKey)
    (w : World) :
  let run := decryptFileStream blob dek w in
  let iv := firstn 12 blob in
  let data := skipn 12 blob in
  ((length blob < 28)%nat ->
   fst run = inl too_short
   /\ classify too_short = Some IntegrityError
   /\ decrypt_attempts (added (decryptFileStream blob dek) w) = [])
  /\ ((28 <= length blob)%nat ->
      decrypt_attempts (added (decryptFileStream blob dek) w)
      = [SubtleDecrypt dek iv data]
      /\ (AES_GCM_decrypt (raw dek) iv data = None ->
          fst run = inl integrity_failed
          /\ classify integrity_failed = Some IntegrityError)
      /\ (forall plaintext,
            may_decrypt dek ->
            AES_GCM_decrypt (raw dek) iv data = Some plaintext ->
            fst run = inr plaintext)).
Proof.
  cbv zeta. pose proof (decryptFileStream_run blob dek w) as Hrun.
  rewrite (added_extend _ _ _ _ Hrun), Hrun. cbn [fst].
  unfold payload_result, opened. split.
  - intros Hshort.
    replace (Nat.ltb (length blob) 28) with true
      by (symmetry; apply Nat.ltb_lt; exact Hshort).
    repeat split.
  - intros Hlong.
    replace (Nat.ltb (length blob) 28) with false
      by (symmetry; apply Nat.ltb_ge; exact Hlong).
    cbv zeta. split; [|split].
    + destruct (name_eqb (alg_name (algorithm dek)) AES_GCM
                && has_usage decrypt dek);
        [destruct (AES_GCM_decrypt (raw dek) (firstn 12 blob) (skipn 12 blob))|];
        reflexivity.
    + intros Hfail. rewrite Hfail.
      destruct (name_eqb (alg_name (algorithm dek)) AES_GCM
                && has_usage decrypt dek); split; reflexivity.
    + intros plaintext [Hname Huse] Hok. rewrite Hname, Huse, Hok.
      reflexivity.
Qed.

(** ** The order of the two checks *)

Lemma added_extend2 {A : Type} (m : M A) (w : World) (r : exn + A)
    (evs1 evs2 : list Event) :
  m w = (r, extend (extend w evs1) evs2) -> added m w = evs1 ++ evs2.
Proof.
  intros H. apply (added_extend m w r). now rewrite H, extend_extend.
Qed.

Lemma key_events_no_attempt `{P : Platform} (password email : js_string)
    (sp se : list byte) (rest : list Event) :
  decrypt_attempts
    (stretch_events password sp ++ stretch_events email se
       ++ combine_events (stretched password sp) (stretched email se) ++ rest)
  = decrypt_attempts rest.
Proof. reflexivity. Qed.

(** C9. In every run of [decryptFile], the decryption attempts are, in
    this order: none if the header does not parse; else the unwrap of the
    data key under the master key; and only if that succeeded and the
    payload has its minimum length, the decryption of the payload under
    the unwrapped key.  If the unwrap fails the run ends with the
    authentication error and the payload is never decrypted; the result
    of the payload step depends on its own tag check alone. *)
Theorem unwrap_gates_payload `{P : Platform} (file : File)
    (password email : js_string) (w : World) :
  let result := fst (decryptFile file password email w) in
  let attempts :=
    decrypt_attempts (added (decryptFile file password email) w) in
  match fst (parseMetadata file w) with
  | inl e => result = inl e /\ attempts = []
  | inr md =>
      let km := master_of password email (sp md) (se md) in
      let unwrap := SubtleDecrypt km (wiv md) (wdek md) in
      let payload := slice_from (content file) (headerLength md) in
      match fst (unwrapDataKey (wdek md) (wiv md) km w) with
      | inl _ => result = inl authentication_failed /\ attempts = [unwrap]
      | inr dek =>
          AES_GCM_decrypt (raw km) (wiv md) (wdek md) = Some (raw dek)
          /\ may_decrypt dek
          /\ if Nat.ltb (length payload) 28
             then result = inl too_short /\ attempts = [unwrap]
             else
               let iv := firstn 12 payload in
               let data := skipn 12 payload in
               attempts = [unwrap; SubtleDecrypt dek iv data]
               /\ result
                  = match AES_GCM_decrypt (raw dek) iv data with
                    | Some plaintext => inr (plaintext, fileName md)
                    | None => inl integrity_failed
                    end
      end
  end.
Proof.
  cbv zeta.
  pose proof (decryptFile_run file password email w) as Hrun.
  destruct (parseMetadata_trace file w) as [evs0 [Hw1 Hconsole]].
  destruct (parseMetadata file w) as [[e|md] w1]; cbn [fst snd] in *; subst w1.
  - rewrite Hrun. cbn [fst]. split; [reflexivity|].
    rewrite (added_extend _ _ _ _ Hrun).
    now apply decrypt_attempts_console.
  - cbv zeta in Hrun. rewrite (added_extend2 _ _ _ _ _ Hrun), Hrun. cbn [fst].
    rewrite decrypt_attempts_app, (decrypt_attempts_console _ Hconsole).
    cbn [app]. rewrite unwrapDataKey_run. cbn [fst].
    unfold after_parse. cbv zeta. unfold master_of.
    set (km := master_key (raw (stretched password (sp md)))
                 (raw (stretched email (se md)))).
    set (payload := slice_from (content file) (headerLength md)).
    unfold unwrap_result. cbv zeta.
    change (opened km (wiv md) (wdek md))
      with (AES_GCM_decrypt (raw km) (wiv md) (wdek md)).
    destruct (AES_GCM_decrypt (raw km) (wiv md) (wdek md)) as [dekRaw|];
      [destruct (valid_aes_bits (8 * N.of_nat (length dekRaw)))|];
      cbn [fst snd]; try (split; reflexivity).
    split; [reflexivity|]. split; [split; reflexivity|].
    unfold payload_result. cbv zeta.
    destruct (Nat.ltb (length payload) 28); cbn [fst snd].
    + split; reflexivity.
    + rewrite opened_imported. cbn [raw imported_key].
      destruct (AES_GCM_decrypt dekRaw (firstn 12 payload) (skipn 12 payload));
        cbn [fst snd]; split; reflexivity.
Qed.

(** ** The master key *)

(** C6. For extractable keys [kp] and [ke], [deriveMasterKey] imports
    the raw bytes of [kp] followed by those of [ke] as HKDF keying
    material, and derives with SHA-256, an empty salt and the info
    [Dyad File Encryption Master Key] a 256-bit AES-GCM key for encrypt
    and decrypt that is not extractable: exporting it throws.  The other
    derivation of the protocol, [deriveKeyPBKDF2], is a PBKDF2 derivation
    and carries no info. *)
Theorem master_key_derivation `{P : Platform} (kp ke : CryptoKey) (w : World) :
  extractable kp = true -> extractable ke = true ->
  exists km,
    deriveMasterKey kp ke w = (inr km, extend w (combine_events kp ke))
    /\ raw km
       = HKDF_expand "SHA-256" (raw kp ++ raw ke) []
           (TextEncoder_encode (js "Dyad File Encryption Master Key")) 256
    /\ algorithm km = {| alg_name := AES_GCM; alg_length := Some 256 |}
    /\ usages km = [encrypt; decrypt]
    /\ extractable km = false
    /\ (forall w', fst (subtle_exportKey km w')
                   = inl (DOMException "InvalidAccessError"))
    /\ In (SubtleImportKey HKDF (raw kp ++ raw ke)) (combine_events kp ke)
    /\ (forall secret salt params base,
          In (SubtleDeriveKey params base) (stretch_events secret salt) ->
          params = Pbkdf2Params salt 600000 "SHA-256").
Proof.
  intros Hkp Hke. exists (master_key (raw kp) (raw ke)).
  split; [now apply deriveMasterKey_run|].
  repeat (split; [reflexivity|]).
  split; [cbn; auto|].
  intros secret salt params base Hin. cbn in Hin.
  destruct Hin as [H|[H|[H|[H|[]]]]]; try discriminate.
  now injection H as <- _.
Qed.

(** ** Freshness *)

Lemma slice_from_envelope `{P : Platform} (file : File)
    (password email : js_string) (d : Draws) :
  slice_from (envelope file password email d)
    (headerLength (envelope_parsed file password email d))
  = payload_bytes (content file) d.
Proof.
  unfold slice_from, envelope, envelope_header, envelope_parsed,
    envelope_metadata. cbn [headerLength]. rewrite <- header_bytes_length.
  now rewrite skipn_app, skipn_all, Nat.sub_diag.
Qed.

(** C7. Two encryptions of the same file under the same password and
    email, started in worlds whose random sources deliver different
    salts and IVs: each envelope stores exactly the values its run drew,
    so the password salts, the email salts, the wrapping IVs and the
    payload IVs of the two envelopes differ; and the wrapped keys differ
    when the platform unwraps the second under its own master key and IV
    and rejects the first under them.  A run consumes 88 bytes of the
    source, and a run started where another ended draws the next 88. *)
Theorem fresh_values_per_encryption `{P : Platform} (file : File)
    (password email fname : js_string) (w1 w2 w' : World) :
  let d1 := draws w1 in
  let d2 := draws w2 in
  let env1 := envelope file password email d1 in
  let env2 := envelope file password email d2 in
  let md1 := envelope_parsed file password email d1 in
  let md2 := envelope_parsed file password email d2 in
  let km2 := master_of password email (drawn_sp d2) (drawn_se d2) in
  drawn_sp d1 <> drawn_sp d2 -> drawn_se d1 <> drawn_se d2 ->
  drawn_wiv d1 <> drawn_wiv d2 -> drawn_iv d1 <> drawn_iv d2 ->
  header_readable file password email d1 ->
  header_readable file password email d2 ->
  aead_round_trip (raw km2) (drawn_wiv d2) (drawn_dek d2) ->
  AES_GCM_decrypt (raw km2) (drawn_wiv d2) (wrapped_dek password email d1)
    = None ->
  (fst (encryptFile file password email w1) = inr env1
   /\ fst (encryptFile file password email w2) = inr env2)
  /\ (fst (parseMetadata {| name := fname; content := env1 |} w') = inr md1
      /\ fst (parseMetadata {| name := fname; content := env2 |} w') = inr md2)
  /\ (sp md1 = drawn_sp d1 /\ se md1 = drawn_se d1 /\ wiv md1 = drawn_wiv d1
      /\ stored_iv env1 md1 = drawn_iv d1)
  /\ (sp md1 <> sp md2 /\ se md1 <> se md2 /\ wiv md1 <> wiv md2
      /\ stored_iv env1 md1 <> stored_iv env2 md2
      /\ wdek md1 <> wdek md2)
  /\ consumed (snd (encryptFile file password email w1))
     = (consumed w1 + 88)%nat
  /\ draws (snd (encryptFile file password email w1)) = next_draws w1.
Proof.
  intros d1 d2 env1 env2 md1 md2 km2 Hsp Hse Hwiv Hiv Hread1 Hread2 Hrt Hrej.
  destruct (encryptFile_run file password email w1) as [evs1 Henc1].
  destruct (encryptFile_run file password email w2) as [evs2 Henc2].
  assert (Hstored : forall d, length (drawn_iv d) = 12%nat ->
            stored_iv (envelope file password email d)
              (envelope_parsed file password email d) = drawn_iv d).
  { intros d Hd. unfold stored_iv. rewrite slice_from_envelope.
    unfold payload_bytes. now apply firstn_12_app. }
  split; [split; [now rewrite Henc1 | now rewrite Henc2]|].
  split.
  { split.
    - unfold env1, d1. now rewrite (parseMetadata_envelope _ _ _ _ _ _ Hread1).
    - unfold env2, d2. now rewrite (parseMetadata_envelope _ _ _ _ _ _ Hread2). }
  split.
  { repeat split. apply Hstored, upcoming_length. }
  split.
  { repeat split; try assumption.
    - unfold env1, env2, md1, md2.
      rewrite !Hstored by apply upcoming_length. exact Hiv.
    - cbn [wdek md1 md2 envelope_parsed]. intros Heq.
      unfold aead_round_trip in Hrt. fold d2 in Hrt.
      change (AES_GCM_encrypt (raw km2) (drawn_wiv d2) (drawn_dek d2))
        with (wrapped_dek password email d2) in Hrt.
      rewrite <- Heq, Hrej in Hrt. discriminate Hrt. }
  rewrite Henc1. cbn [snd]. split; [reflexivity|].
  unfold draws, next_draws. now rewrite !upcoming_advance.
Qed.

(** ** Packaging and parsing *)

Lemma elements_spanning (u : Uint8Array) :
  spans_buffer u -> elements u = buffer u.
Proof.
  intros [Hoff Hlen]. unfold elements. rewrite Hoff, Hlen. apply firstn_all.
Qed.

(** For arrays that span their buffers, as every array the program
    passes does, parsing what [packageMetadata] returned gives the
    arguments back. *)
Lemma pack_parse_round_trip `{P : Platform} (fileName fname : js_string)
    (sp se wiv : Uint8Array) (wdek rest : list byte) (w w2 : World) :
  spans_buffer sp -> spans_buffer se -> spans_buffer wiv ->
  length (elements sp) = 16%nat -> length (elements se) = 16%nat ->
  length (elements wiv) = 12%nat ->
  readable fileName (elements sp) (elements se) (elements wiv) wdek ->
  exists header,
    fst (packageMetadata fileName sp se wiv wdek w) = inr header
    /\ fst (parseMetadata
              {| name := fname; content := elements header ++ rest |} w2)
       = inr {| fileName := Some (JString fileName);
                sp := elements sp; se := elements se; wiv := elements wiv;
                wdek := wdek;
                headerLength :=
                  8 + length (metadata_bytes fileName (elements sp)
                                (elements se) (elements wiv) wdek) |}.
Proof.
  intros Ssp Sse Swiv Hsp Hse Hwiv [Hcodec Hn].
  rewrite packageMetadata_run. eexists. split; [reflexivity|].
  rewrite elements_of.
  rewrite <- (elements_spanning sp Ssp), <- (elements_spanning se Sse),
    <- (elements_spanning wiv Swiv).
  now rewrite (parseMetadata_header _ _ _ _ _ rest fname w2 Hsp Hse Hwiv Hn Hcodec).
Qed.

(** The arrays the program packages come from [crypto.getRandomValues] on
    a fresh array, and span their buffers. *)
Lemma fresh_array_spans `{P : Platform} (n : nat) (w : World) (u : Uint8Array) :
  fst (crypto_getRandomValues (Uint8Array_new n) w) = inr u ->
  spans_buffer u /\ length (elements u) = n.
Proof.
  destruct (N.leb_spec (N.of_nat n) 65536) as [Hn|Hn].
  - rewrite (fresh_random_run n w Hn). cbn [fst]. intros H; injection H as <-.
    rewrite elements_of, upcoming_length. split; [|reflexivity].
    split; [reflexivity|]. cbn. now rewrite upcoming_length.
  - unfold crypto_getRandomValues, Uint8Array_new, Uint8Array_of.
    cbn [byteLength]. rewrite repeat_length.
    apply N.ltb_lt in Hn. rewrite Hn. discriminate.
Qed.

(** C10.  For every file name, salts of 16 bytes, wrapping IV of 12 bytes
    and wrapped key of any length, held in arrays that span their
    buffers, parsing a stream that begins with what [packageMetadata]
    returned gives the same file name, salts, IV and wrapped key back,
    with a header length of 8 plus the length of the metadata JSON; no
    length is required of the wrapped key.  The arrays the program
    packages are made by [generateSalt] and [wrapDataKey], and span their
    buffers. *)
Theorem packaged_metadata_round_trip `{P : Platform}
    (fileName fname : js_string) (sp se wiv : Uint8Array)
    (wdek rest : list byte) (w w2 : World) :
  spans_buffer sp -> spans_buffer se -> spans_buffer wiv ->
  length (elements sp) = 16%nat -> length (elements se) = 16%nat ->
  length (elements wiv) = 12%nat ->
  readable fileName (elements sp) (elements se) (elements wiv) wdek ->
  (exists header,
     fst (packageMetadata fileName sp se wiv wdek w) = inr header
     /\ fst (parseMetadata
               {| name := fname; content := elements header ++ rest |} w2)
        = inr {| fileName := Some (JString fileName);
                 sp := elements sp; se := elements se; wiv := elements wiv;
                 wdek := wdek;
                 headerLength :=
                   8 + length (metadata_bytes fileName (elements sp)
                                 (elements se) (elements wiv) wdek) |})
  /\ (forall (n : nat) (w' : World) (salt : Uint8Array),
        fst (generateSalt n w') = inr salt ->
        spans_buffer salt /\ length (elements salt) = n)
  /\ (forall (dek km : CryptoKey) (w' : World) (wrappedKey : ArrayBuffer)
             (iv : Uint8Array),
        fst (wrapDataKey dek km w') = inr (wrappedKey, iv) ->
        spans_buffer iv /\ length (elements iv) = 12%nat).
Proof.
  intros Ssp Sse Swiv Hsp Hse Hwiv Hread.
  split; [now apply pack_parse_round_trip|].
  split; [intros n w' salt; apply fresh_array_spans|].
  intros dek km w' wrappedKey iv.
  unfold wrapDataKey, subtle_exportKey, subtle_encrypt. munfold.
  destruct (extractable dek); [|discriminate].
  match goal with
  | |- context [crypto_getRandomValues (Uint8Array_new AES_IV_LENGTH) ?w1] =>
      pose proof (fresh_array_spans AES_IV_LENGTH w1) as Hspan;
      destruct (crypto_getRandomValues (Uint8Array_new AES_IV_LENGTH) w1)
        as [[e|iv'] w2']; [discriminate|]
  end.
  destruct (_ && _); [|discriminate].
  cbn [fst]. intros H; injection H as _ <-. now apply Hspan.
Qed.

(** The arrays must span their buffers.  For a salt that is a 16-byte
    window on a longer buffer, which nothing in the program makes,
    [packageMetadata] encodes [sp.buffer], the whole buffer, and parsing
    its header throws [Invalid salt length]. *)
Lemma windowed_salt_not_recovered `{P : Platform} (fileName fname : js_string)
    (sp se wiv : Uint8Array) (wdek rest : list byte) (w w2 : World) :
  length (elements sp) = 16%nat -> length (buffer sp) <> 16%nat ->
  readable fileName (buffer sp) (buffer se) (buffer wiv) wdek ->
  exists header,
    fst (packageMetadata fileName sp se wiv wdek w) = inr header
    /\ fst (parseMetadata
              {| name := fname; content := elements header ++ rest |} w2)
       = inl (Error "Metadata integrity check failed: Invalid salt length.").
Proof.
  intros Hsp Hbuf [Hcodec Hn].
  rewrite packageMetadata_run. eexists. split; [reflexivity|].
  rewrite elements_of.
  rewrite (parseMetadata_fields _ _ _ _ _ rest fname w2 Hn Hcodec).
  apply Nat.eqb_neq in Hbuf. now rewrite Hbuf.
Qed.

(** ** The reference platform meets the assumptions *)

Module ReferenceFacts.
Import Reference.

(** *** The cipher *)

Lemma lxor_byte (a b : N) : a < 256 -> b < 256 -> N.lxor a b < 256.
Proof.
  intros Ha Hb.
  destruct (N.eq_dec (N.lxor a b) 0) as [E|E]; [rewrite E; lia|].
  apply N.log2_lt_pow2 with (b := 8); [lia|].
  eapply N.le_lt_trans; [apply N.log2_lxor|].
  apply N.max_lub_lt.
  - destruct (N.eq_dec a 0) as [->|]; [cbn; lia|]. apply N.log2_lt_pow2; lia.
  - destruct (N.eq_dec b 0) as [->|]; [cbn; lia|]. apply N.log2_lt_pow2; lia.
Qed.

Lemma xor_byte_cancel (a b : byte) :
  toUint8 (N.lxor (Byte.to_N (toUint8 (N.lxor (Byte.to_N a) (Byte.to_N b))))
             (Byte.to_N b)) = a.
Proof.
  pose proof (Byte.to_N_bounded a). pose proof (Byte.to_N_bounded b).
  rewrite to_N_toUint8, N.mod_small by (apply lxor_byte; lia).
  rewrite N.lxor_assoc, N.lxor_nilpotent, N.lxor_0_r. apply toUint8_to_N.
Qed.

Lemma xor_bytes_cancel (p k : list byte) :
  length p = length k -> xor_bytes (xor_bytes p k) k = p.
Proof.
  revert k. induction p as [|a p IH]; intros [|b k] H; try discriminate.
  - reflexivity.
  - unfold xor_bytes in *. cbn [combine List.map fst snd].
    rewrite xor_byte_cancel. f_equal. apply IH. now injection H.
Qed.

Lemma xor_bytes_length (p k : list byte) :
  length p = length k -> length (xor_bytes p k) = length p.
Proof.
  intros H. unfold xor_bytes. rewrite length_map, length_combine. lia.
Qed.

Lemma derive_length (label : string) (parts : list (list byte)) (n : nat) :
  length (derive label parts (8 * N.of_nat n)) = n.
Proof.
  unfold derive, keystream. rewrite length_map, length_seq.
  rewrite N.mul_comm, N.div_mul by lia. apply Nat2N.id.
Qed.

Lemma bytes_eqb_refl (a : list byte) : bytes_eqb a a = true.
Proof. unfold bytes_eqb. destruct (list_eq_dec Byte.byte_eq_dec a a); congruence. Qed.

Lemma unseal_seal (key iv plaintext : list byte) :
  unseal key iv (seal key iv plaintext) = Some plaintext.
Proof.
  unfold seal, unseal.
  set (ks := derive "stream" [key; iv] (8 * N.of_nat (length plaintext))).
  assert (Hks : length plaintext = length ks) by (unfold ks; now rewrite derive_length).
  set (ct := xor_bytes plaintext ks).
  assert (Hct : length ct = length plaintext) by (now apply xor_bytes_length).
  assert (Htag : length (tag_of key iv ct) = 16%nat)
    by (unfold tag_of; apply (derive_length "tag" _ 16)).
  rewrite length_app, Htag.
  replace (Nat.ltb (length ct + 16) 16) with false by (symmetry; apply Nat.ltb_ge; lia).
  replace (length ct + 16 - 16)%nat with (length ct) by lia.
  rewrite firstn_app, firstn_all, Nat.sub_diag, firstn_O, app_nil_r.
  rewrite skipn_app, skipn_all, Nat.sub_diag. cbn [skipn app].
  rewrite bytes_eqb_refl, Hct. fold ks. unfold ct. now rewrite xor_bytes_cancel.
Qed.

Lemma seal_length (key iv plaintext : list byte) :
  length (seal key iv plaintext) = (length plaintext + 16)%nat.
Proof.
  unfold seal. rewrite length_app.
  rewrite xor_bytes_length by (now rewrite derive_length).
  unfold tag_of. now rewrite (derive_length "tag" _ 16).
Qed.

(** *** JSON *)

Local Ltac narith := zify; Z.to_euclidean_division_equations; lia.

Lemma hex_value_digit (d : N) : d < 16 -> hex_value (hex_digit d) = Some d.
Proof.
  intros Hd. unfold hex_digit, hex_value.
  destruct (N.ltb_spec d 10).
  - replace ((48 <=? 48 + d) && (48 + d <=? 57)) with true.
    + f_equal. lia.
    + symmetry. apply andb_true_iff. split; apply N.leb_le; lia.
  - replace ((48 <=? 87 + d) && (87 + d <=? 57)) with false.
    + replace ((97 <=? 87 + d) && (87 + d <=? 102)) with true.
      * f_equal. lia.
      * symmetry. apply andb_true_iff. split; apply N.leb_le; lia.
    + symmetry. apply andb_false_iff. right. apply N.leb_gt. lia.
Qed.

(** Reading back a [\uXXXX] escape. *)
Lemma parse_unicode_escape (fuel : nat) (c : N) (rest : js_string) :
  c < 65536 ->
  parse_string (S fuel) (unicode_escape c ++ rest)
  = match parse_string fuel rest with
    | Some (s, r') => Some (c :: s, r')
    | None => None
    end.
Proof.
  intros Hc. unfold unicode_escape. cbn [app parse_string].
  change (92 =? 34) with false. change (92 =? 92) with true.
  change (117 =? 34) with false. change (117 =? 92) with false.
  change (117 =? 47) with false. change (117 =? 98) with false.
  change (117 =? 102) with false. change (117 =? 110) with false.
  change (117 =? 114) with false. change (117 =? 116) with false.
  change (117 =? 117) with true. cbv iota.
  rewrite !hex_value_digit by narith.
  replace (c / 4096 * 4096 + c / 256 mod 16 * 256 + c / 16 mod 16 * 16 + c mod 16)
    with c by narith.
  reflexivity.
Qed.

Lemma parse_plain (fuel : nat) (c : N) (rest : js_string) :
  (c =? 34) = false -> (c =? 92) = false -> (c <? 32) = false ->
  parse_string (S fuel) (c :: rest)
  = match parse_string fuel rest with
    | Some (s, r') => Some (c :: s, r')
    | None => None
    end.
Proof. intros H1 H2 H3. cbn [parse_string]. now rewrite H1, H2, H3. Qed.

Lemma parse_simple_escape (fuel : nat) (e c : N) (rest : js_string) :
  In (e, c) [(34, 34); (92, 92); (98, 8); (102, 12); (110, 10); (114, 13);
             (116, 9)] ->
  parse_string (S fuel) (92 :: e :: rest)
  = match parse_string fuel rest with
    | Some (s, r') => Some (c :: s, r')
    | None => None
    end.
Proof.
  intros Hin. cbn [In] in Hin.
  repeat (destruct Hin as [[= <- <-]|Hin]; [reflexivity|]). contradiction.
Qed.

Lemma surrogate_plain (c : N) :
  is_high_surrogate c || is_low_surrogate c = true ->
  (c =? 34) = false /\ (c =? 92) = false /\ (c <? 32) = false.
Proof.
  unfold is_high_surrogate, is_low_surrogate. intros H.
  repeat split; [apply N.eqb_neq | apply N.eqb_neq | apply N.ltb_ge];
    apply orb_true_iff in H; destruct H as [H|H];
    apply andb_true_iff in H; destruct H as [H1 H2];
    apply N.leb_le in H1; lia.
Qed.

Lemma parse_quote_chars (n : nat) :
  forall (s rest : js_string) (fuel : nat),
    (length s <= n)%nat -> Forall code_unit s -> (length s < fuel)%nat ->
    parse_string fuel (quote_chars s ++ 34 :: rest) = Some (s, rest).
Proof.
  induction n as [|n IH]; intros s rest fuel Hn Hs Hfuel.
  - destruct s; [|cbn in Hn; lia]. destruct fuel; [lia|]. reflexivity.
  - destruct s as [|c s]; [destruct fuel; [lia|]; reflexivity|].
    destruct fuel as [|fuel]; [cbn in Hfuel; lia|].
    inversion_clear Hs as [|? ? Hc Hs']. unfold code_unit in Hc.
    cbn [length] in Hn, Hfuel.
    assert (IHs : forall rest', parse_string fuel (quote_chars s ++ 34 :: rest')
                          = Some (s, rest'))
      by (intros; apply IH; auto; lia).
    cbn [quote_chars].
    destruct (N.eqb_spec c 34) as [->|N34].
    { cbn [app]. rewrite (parse_simple_escape fuel 34 34) by (cbn; auto).
      now rewrite IHs. }
    destruct (N.eqb_spec c 92) as [->|N92].
    { cbn [app]. rewrite (parse_simple_escape fuel 92 92) by (cbn; auto 10).
      now rewrite IHs. }
    destruct (N.eqb_spec c 8) as [->|N8].
    { cbn [app]. rewrite (parse_simple_escape fuel 98 8) by (cbn; auto 10).
      now rewrite IHs. }
    destruct (N.eqb_spec c 12) as [->|N12].
    { cbn [app]. rewrite (parse_simple_escape fuel 102 12) by (cbn; auto 10).
      now rewrite IHs. }
    destruct (N.eqb_spec c 10) as [->|N10].
    { cbn [app]. rewrite (parse_simple_escape fuel 110 10) by (cbn; auto 10).
      now rewrite IHs. }
    destruct (N.eqb_spec c 13) as [->|N13].
    { cbn [app]. rewrite (parse_simple_escape fuel 114 13) by (cbn; auto 10).
      now rewrite IHs. }
    destruct (N.eqb_spec c 9) as [->|N9].
    { cbn [app]. rewrite (parse_simple_escape fuel 116 9) by (cbn; auto 10).
      now rewrite IHs. }
    destruct (N.ltb_spec c 32) as [L32|G32].
    { rewrite <- app_assoc, parse_unicode_escape by exact Hc. now rewrite IHs. }
    assert (Hplain : (c =? 34) = false /\ (c =? 92) = false /\ (c <? 32) = false).
    { repeat split; [apply N.eqb_neq | apply N.eqb_neq | apply N.ltb_ge]; auto. }
    destruct Hplain as [P1 [P2 P3]].
    destruct (is_high_surrogate c) eqn:Hhigh.
    { destruct s as [|c2 s'].
      - rewrite parse_unicode_escape by exact Hc.
        destruct fuel; [cbn in Hfuel; lia|]. reflexivity.
      - destruct (is_low_surrogate c2) eqn:Hlow.
        + cbn [app]. rewrite (parse_plain fuel c _ P1 P2 P3).
          destruct fuel as [|fuel]; [cbn in Hfuel; lia|].
          destruct (surrogate_plain c2) as [Q1 [Q2 Q3]];
            [now rewrite Hlow, orb_true_r|].
          rewrite (parse_plain fuel c2 _ Q1 Q2 Q3).
          inversion_clear Hs' as [|? ? Hc2 Hs''].
          rewrite (IH s' rest fuel); auto; cbn [length] in *; lia.
        + rewrite <- app_assoc, parse_unicode_escape by exact Hc.
          now rewrite IHs. }
    destruct (is_low_surrogate c) eqn:Hlow.
    { rewrite <- app_assoc, parse_unicode_escape by exact Hc. now rewrite IHs. }
    cbn [app]. rewrite (parse_plain fuel c _ P1 P2 P3). now rewrite IHs.
Qed.

Lemma quote_chars_length (s : js_string) :
  (length s <= length (quote_chars s))%nat.
Proof.
  assert (H : forall n s, (length s <= n)%nat ->
                          (length s <= length (quote_chars s))%nat).
  { induction n as [|n IH]; intros [|c r] Hn; cbn [length] in *; try lia.
    cbn [quote_chars].
    assert (IHr : (length r <= length (quote_chars r))%nat) by (apply IH; lia).
    repeat match goal with
           | |- context [if ?b then _ else _] => destruct b
           end;
      cbn [length app unicode_escape]; try lia.
    destruct r as [|c2 r']; [cbn; lia|].
    destruct (is_low_surrogate c2); cbn [length app unicode_escape].
    + assert ((length r' <= length (quote_chars r'))%nat)
        by (apply IH; cbn [length] in Hn; lia).
      cbn [length] in *. lia.
    + cbn [length] in IHr. lia. }
  eauto.
Qed.

Lemma parse_quoted (fuel : nat) (v rest : js_string) :
  Forall code_unit v ->
  parse_value (S fuel) (quote v ++ rest) = Some (JString v, rest).
Proof.
  intros Hv. unfold quote. cbn [app parse_value skip_ws].
  change ((34 =? 32) || (34 =? 9) || (34 =? 10) || (34 =? 13)) with false.
  cbv iota. rewrite <- app_assoc. cbn [app].
  rewrite (parse_quote_chars (length v)); auto.
  rewrite length_app. pose proof (quote_chars_length v). lia.
Qed.

Lemma skip_ws_plain (c : N) (r : js_string) :
  (c =? 32) || (c =? 9) || (c =? 10) || (c =? 13) = false ->
  skip_ws (c :: r) = c :: r.
Proof. intros H. cbn [skip_ws]. now rewrite H. Qed.

Lemma parse_member (fuel : nat) (k v rest : js_string)
    (acc : list (js_string * json Z)) :
  Forall code_unit k -> Forall code_unit v ->
  parse_members (S (S fuel)) (quote k ++ 58 :: quote v ++ rest) acc
  = match skip_ws rest with
    | 44 :: r4 => parse_members (S fuel) r4 (set_prop k (JString v) acc)
    | 125 :: r4 => Some (set_prop k (JString v) acc, r4)
    | _ => None
    end.
Proof.
  intros Hk Hv. unfold quote at 1.
  cbn [app]. rewrite <- app_assoc. cbn [app].
  change (parse_members (S (S fuel)) ?l acc)
    with (match skip_ws l with
          | 34 :: r =>
              match parse_string (S (length r)) r with
              | Some (k, r1) =>
                  match skip_ws r1 with
                  | 58 :: r2 =>
                      match parse_value (S fuel) r2 with
                      | Some (v, r3) =>
                          let acc := set_prop k v acc in
                          match skip_ws r3 with
                          | 44 :: r4 => parse_members (S fuel) r4 acc
                          | 125 :: r4 => Some (acc, r4)
                          | _ => None
                          end
                      | None => None
                      end
                  | _ => None
                  end
              | None => None
              end
          | _ => None
          end).
  rewrite skip_ws_plain by reflexivity.
  rewrite (parse_quote_chars (length k)); auto.
  2:{ rewrite length_app. pose proof (quote_chars_length k). lia. }
  rewrite skip_ws_plain by reflexivity.
  rewrite parse_quoted by exact Hv. reflexivity.
Qed.

Lemma parse_object_start (fuel : nat) (k r : js_string) :
  parse_value (S fuel) (123 :: quote k ++ r)
  = match parse_members fuel (quote k ++ r) [] with
    | Some (props, r') => Some (JObject props, r')
    | None => None
    end.
Proof.
  unfold quote. cbn [app parse_value].
  rewrite skip_ws_plain by reflexivity. cbv iota.
  rewrite skip_ws_plain by reflexivity. cbv iota. reflexivity.
Qed.

Lemma js_code_units (k : string) : Forall code_unit (js k).
Proof.
  apply Forall_forall. intros x Hx. unfold js in Hx.
  apply in_map_iff in Hx. destruct Hx as [ch [<- _]].
  unfold code_unit. pose proof (N_ascii_bounded ch). lia.
Qed.

Lemma stringify_metadata (fileName a b c d : js_string) :
  stringify (Metadata (P := platform) fileName a b c d)
  = metadata_text fileName a b c d.
Proof.
  unfold Metadata, metadata_text. cbn [stringify].
  repeat (rewrite <- app_assoc || rewrite <- app_comm_cons).
  reflexivity.
Qed.

Lemma metadata_text_length (fileName a b c d : js_string) :
  exists fuel,
    length (metadata_text fileName a b c d) = S (S (S (S (S (S (S fuel)))))).
Proof.
  assert (H : (7 <= length (metadata_text fileName a b c d))%nat).
  { unfold metadata_text, quote.
    repeat (rewrite length_app || rewrite length_cons). lia. }
  exists (length (metadata_text fileName a b c d) - 7)%nat. lia.
Qed.

Lemma parse_metadata_text (fileName a b c d : js_string) :
  Forall code_unit fileName -> Forall code_unit a -> Forall code_unit b ->
  Forall code_unit c -> Forall code_unit d ->
  parse (metadata_text fileName a b c d)
  = Some (Metadata (P := platform) fileName a b c d).
Proof.
  intros Hf Ha Hb Hc Hd. unfold parse.
  destruct (metadata_text_length fileName a b c d) as [fuel Hlen].
  rewrite Hlen. unfold metadata_text.
  rewrite parse_object_start.
  rewrite parse_member by (auto using js_code_units).
  rewrite skip_ws_plain by reflexivity. cbv iota.
  rewrite parse_member by (auto using js_code_units).
  rewrite skip_ws_plain by reflexivity. cbv iota.
  rewrite parse_member by (auto using js_code_units).
  rewrite skip_ws_plain by reflexivity. cbv iota.
  rewrite parse_member by (auto using js_code_units).
  rewrite skip_ws_plain by reflexivity. cbv iota.
  rewrite parse_member by (auto using js_code_units).
  cbn [skip_ws]. cbv iota.
  set (props := set_prop _ _ _).
  assert (Hprops : props = [(js "fileName", JString fileName); (js "sp", JString a);
            (js "se", JString b); (js "wiv", JString c); (js "wdek", JString d)])
    by (vm_compute; reflexivity).
  rewrite Hprops. reflexivity.
Qed.

(** *** UTF-8 *)

Lemma scalar_range (c : N) :
  is_high_surrogate c = false -> is_low_surrogate c = false ->
  c < 55296 \/ 57344 <= c.
Proof.
  unfold is_high_surrogate, is_low_surrogate. intros H1 H2.
  destruct (N.leb_spec 55296 c), (N.ltb_spec c 56320), (N.leb_spec 56320 c),
    (N.ltb_spec c 57344); cbn in *; try discriminate; lia.
Qed.

Lemma high_range (c : N) : is_high_surrogate c = true -> 55296 <= c < 56320.
Proof.
  unfold is_high_surrogate. intros H. apply andb_true_iff in H.
  destruct H as [H1 H2]. apply N.leb_le in H1. apply N.ltb_lt in H2. lia.
Qed.

Lemma low_range (c : N) : is_low_surrogate c = true -> 56320 <= c < 57344.
Proof.
  unfold is_low_surrogate. intros H. apply andb_true_iff in H.
  destruct H as [H1 H2]. apply N.leb_le in H1. apply N.ltb_lt in H2. lia.
Qed.

Lemma to_N_toUint8_small (x : N) : x < 256 -> Byte.to_N (toUint8 x) = x.
Proof. intros H. rewrite to_N_toUint8. now apply N.mod_small. Qed.

Lemma split2 (c : N) :
  c < 2048 -> c = c / 64 * 64 + c mod 64 /\ c / 64 < 32 /\ c mod 64 < 64.
Proof. intros H. narith. Qed.

Lemma split3 (c : N) :
  c < 65536 ->
  c = c / 4096 * 4096 + (c / 64) mod 64 * 64 + c mod 64
  /\ c / 4096 < 16 /\ (c / 64) mod 64 < 64 /\ c mod 64 < 64.
Proof. intros H. narith. Qed.

Lemma split4 (c : N) :
  c < 1114112 ->
  c = c / 262144 * 262144 + (c / 4096) mod 64 * 4096 + (c / 64) mod 64 * 64
      + c mod 64
  /\ c / 262144 < 5 /\ (c / 4096) mod 64 < 64 /\ (c / 64) mod 64 < 64
  /\ c mod 64 < 64.
Proof. intros H. narith. Qed.

Local Ltac lsolve :=
  lazymatch goal with
  | |- ?x = ?x => reflexivity
  | |- (_ && _) = true => apply andb_true_iff; split; lsolve
  | |- (_ && _) = false =>
      apply andb_false_iff; first [left; lsolve | right; lsolve]
  | |- (_ || _) = false => apply orb_false_iff; split; lsolve
  | |- (_ || _) = true =>
      apply orb_true_iff; first [left; lsolve | right; lsolve]
  | |- negb _ = true => apply negb_true_iff; lsolve
  | |- negb _ = false => apply negb_false_iff; lsolve
  | |- (_ <? _) = true => apply N.ltb_lt; lia
  | |- (_ <? _) = false => apply N.ltb_ge; lia
  | |- (_ <=? _) = true => apply N.leb_le; lia
  | |- (_ <=? _) = false => apply N.leb_gt; lia
  | |- is_continuation _ = _ => unfold is_continuation; lsolve
  | |- is_high_surrogate _ = _ => unfold is_high_surrogate; lsolve
  | |- is_low_surrogate _ = _ => unfold is_low_surrogate; lsolve
  end.

(** Rewrites the test of the first conditional of the goal. *)
Local Ltac decide_if v :=
  match goal with
  | |- context [if ?b then _ else _] =>
      replace b with v by (symmetry; lsolve); cbv iota
  end.

Lemma decode_1 (fuel : nat) (c : N) (rest : list N) :
  c < 128 ->
  utf8_decode_from (S fuel) (c :: rest) = c :: utf8_decode_from fuel rest.
Proof. intros H. cbn [utf8_decode_from]. now decide_if true. Qed.

Lemma decode_2 (fuel : nat) (q r : N) (rest : list N) :
  2 <= q < 32 -> r < 64 ->
  utf8_decode_from (S fuel) (192 + q :: 128 + r :: rest)
  = q * 64 + r :: utf8_decode_from fuel rest.
Proof.
  intros Hq Hr. cbn [utf8_decode_from]. decide_if false. decide_if true.
  f_equal. lia.
Qed.

Lemma decode_3 (fuel : nat) (q a b : N) (rest : list N) :
  q < 16 -> a < 64 -> b < 64 ->
  2048 <= q * 4096 + a * 64 + b ->
  is_high_surrogate (q * 4096 + a * 64 + b) = false ->
  is_low_surrogate (q * 4096 + a * 64 + b) = false ->
  utf8_decode_from (S fuel) (224 + q :: 128 + a :: 128 + b :: rest)
  = q * 4096 + a * 64 + b :: utf8_decode_from fuel rest.
Proof.
  intros Hq Ha Hb Hmin Hhigh Hlow. cbn [utf8_decode_from].
  decide_if false. decide_if false. cbv zeta.
  replace ((224 + q - 224) * 4096 + (128 + a - 128) * 64 + (128 + b - 128))
    with (q * 4096 + a * 64 + b) by lia.
  rewrite Hhigh, Hlow. decide_if true. reflexivity.
Qed.

Lemma decode_4 (fuel : nat) (q a b d : N) (rest : list N) :
  q < 5 -> a < 64 -> b < 64 -> d < 64 ->
  65536 <= q * 262144 + a * 4096 + b * 64 + d < 1114112 ->
  utf8_decode_from (S fuel) (240 + q :: 128 + a :: 128 + b :: 128 + d :: rest)
  = 55296 + (q * 262144 + a * 4096 + b * 64 + d - 65536) / 1024
      :: 56320 + (q * 262144 + a * 4096 + b * 64 + d - 65536) mod 1024
      :: utf8_decode_from fuel rest.
Proof.
  intros Hq Ha Hb Hd Hcp. cbn [utf8_decode_from].
  decide_if false. decide_if false. cbv zeta.
  match goal with
  | |- context [if ?b then (?x :: _) else _] =>
      replace b with false by (symmetry; lsolve); cbv iota
  end.
  replace ((240 + q - 240) * 262144 + (128 + a - 128) * 4096
           + (128 + b - 128) * 64 + (128 + d - 128))
    with (q * 262144 + a * 4096 + b * 64 + d) by lia.
  decide_if true. reflexivity.
Qed.

Lemma utf8_round_trip (s : js_string) :
  WellFormed s ->
  forall fuel, (length (utf8_encode s) <= fuel)%nat ->
    utf8_decode_from fuel (List.map Byte.to_N (utf8_encode s)) = s.
Proof.
  induction 1 as [|c s Hc Hhigh Hlow Hs IH|c c2 s Hhigh Hlow Hs IH];
    intros fuel Hfuel.
  - destruct fuel; reflexivity.
  - cbn [utf8_encode] in *. rewrite Hhigh, Hlow in *.
    destruct (N.ltb_spec c 128) as [L1|G1]; [|destruct (N.ltb_spec c 2048) as [L2|G2]];
      cbn [length] in Hfuel; (destruct fuel as [|fuel]; [lia|]);
      cbn [List.map].
    + rewrite to_N_toUint8_small by lia. rewrite decode_1 by exact L1.
      f_equal. apply IH. lia.
    + destruct (split2 c L2) as [E [B1 B2]].
      rewrite !to_N_toUint8_small by lia.
      rewrite decode_2 by lia. f_equal; [lia | apply IH; lia].
    + destruct (split3 c Hc) as [E [B1 [B2 B3]]].
      rewrite !to_N_toUint8_small by lia.
      rewrite decode_3; try lia; try (rewrite <- E; assumption).
      f_equal; [lia | apply IH; lia].
  - pose proof (high_range c Hhigh) as Rc. pose proof (low_range c2 Hlow) as Rc2.
    cbn [utf8_encode] in *. rewrite Hhigh, Hlow in *.
    destruct (N.ltb_spec c 128); [lia|]. destruct (N.ltb_spec c 2048); [lia|].
    cbn [length] in Hfuel. destruct fuel as [|fuel]; [lia|].
    set (cp := 65536 + (c - 55296) * 1024 + (c2 - 56320)) in *.
    assert (Hcp : 65536 <= cp < 1114112) by (unfold cp; lia).
    destruct (split4 cp (proj2 Hcp)) as [E [B1 [B2 [B3 B4]]]].
    cbn [List.map]. rewrite !to_N_toUint8_small by lia.
    rewrite decode_4 by lia. rewrite <- E.
    assert (Hdiff : cp - 65536 = (c - 55296) * 1024 + (c2 - 56320))
      by (unfold cp; lia).
    rewrite Hdiff.
    f_equal; [|f_equal; [|apply IH; lia]].
    + rewrite N.div_add_l by lia. rewrite N.div_small by lia. lia.
    + replace ((c - 55296) * 1024 + (c2 - 56320))
        with ((c2 - 56320) + (c - 55296) * 1024) by lia.
      rewrite N.Div0.mod_add. rewrite N.mod_small by lia. lia.
Qed.

Lemma wf_app (a b : js_string) :
  WellFormed a -> WellFormed b -> WellFormed (a ++ b).
Proof.
  induction 1; intros Hb; cbn [app];
    [assumption | apply wf_scalar; auto | apply wf_pair; auto].
Qed.

Lemma wf_plain (s : js_string) :
  Forall (fun c => c < 55296) s -> WellFormed s.
Proof.
  induction 1 as [|c s Hc _ IH]; [apply wf_nil|].
  apply wf_scalar; auto; try lia;
    unfold is_high_surrogate, is_low_surrogate;
    apply andb_false_iff; left; apply N.leb_gt; lia.
Qed.

Lemma hex_digit_plain (d : N) : d < 16 -> hex_digit d < 55296.
Proof. intros H. unfold hex_digit. destruct (d <? 10); lia. Qed.

Lemma wf_unicode_escape (c : N) : c < 65536 -> WellFormed (unicode_escape c).
Proof.
  intros Hc. apply wf_plain. unfold unicode_escape.
  repeat constructor; try lia; apply hex_digit_plain;
    zify; Z.to_euclidean_division_equations; lia.
Qed.

Lemma wf_quote_chars_bounded (n : nat) :
  forall s, (length s <= n)%nat -> Forall code_unit s ->
            WellFormed (quote_chars s).
Proof.
  induction n as [|n IH]; intros [|c s] Hn Hs; cbn [length] in Hn;
    try lia; try apply wf_nil.
  inversion_clear Hs as [|? ? Hc Hs']. unfold code_unit in Hc.
  assert (IHs : WellFormed (quote_chars s)) by (apply IH; auto; lia).
  assert (Hpair : forall x y t, WellFormed t -> x < 55296 -> y < 55296 ->
                                WellFormed (x :: y :: t)).
  { intros x y t Ht Hx Hy. apply (wf_app [x; y] t); [|exact Ht].
    apply wf_plain. repeat constructor; assumption. }
  cbn [quote_chars].
  repeat match goal with
         | |- WellFormed (if c =? ?k then _ else _) =>
             destruct (c =? k); [apply Hpair; [exact IHs | lia | lia]|]
         end.
  destruct (c <? 32); [apply wf_app; [now apply wf_unicode_escape | exact IHs]|].
  destruct (is_high_surrogate c) eqn:Hhigh.
  - destruct s as [|c2 s']; [now apply wf_unicode_escape|].
    destruct (is_low_surrogate c2) eqn:Hlow.
    + apply wf_pair; [exact Hhigh | exact Hlow | apply IH].
      * cbn [length] in Hn. lia.
      * now inversion Hs'.
    + apply wf_app; [now apply wf_unicode_escape | exact IHs].
  - destruct (is_low_surrogate c) eqn:Hlow.
    + apply wf_app; [now apply wf_unicode_escape | exact IHs].
    + apply wf_scalar; auto.
Qed.

Lemma wf_quote (s : js_string) : Forall code_unit s -> WellFormed (quote s).
Proof.
  intros Hs. unfold quote.
  apply (wf_app [34] (quote_chars s ++ [34])).
  - apply wf_plain. repeat constructor.
  - apply wf_app; [now apply (wf_quote_chars_bounded (length s))|].
    apply wf_plain. repeat constructor.
Qed.

Lemma wf_metadata_text (fileName a b c d : js_string) :
  Forall code_unit fileName -> Forall code_unit a -> Forall code_unit b ->
  Forall code_unit c -> Forall code_unit d ->
  WellFormed (metadata_text fileName a b c d).
Proof.
  intros Hf Ha Hb Hc Hd. unfold metadata_text.
  assert (Hkey : forall k, WellFormed (quote (js k))).
  { intros k. apply wf_quote. apply Forall_forall. intros x Hx. unfold js in Hx.
    apply in_map_iff in Hx. destruct Hx as [ch [<- _]].
    unfold code_unit. pose proof (N_ascii_bounded ch). lia. }
  assert (Hchar : forall x t, x < 55296 -> WellFormed t -> WellFormed (x :: t)).
  { intros x t Hx Ht. apply (wf_app [x] t); [|exact Ht].
    apply wf_plain. repeat constructor. exact Hx. }
  repeat lazymatch goal with
         | |- WellFormed (quote (js _) ++ _) => apply wf_app; [apply Hkey|]
         | |- WellFormed (quote _ ++ _) => apply wf_app; [now apply wf_quote|]
         | |- WellFormed (_ :: _) => apply Hchar; [reflexivity|]
         | |- WellFormed [] => apply wf_nil
         end.
Qed.

(** *** The assumptions of the theorems, for all inputs *)

Lemma utf8_decode_encode_object (s : js_string) :
  WellFormed (123 :: s) -> utf8_decode (utf8_encode (123 :: s)) = 123 :: s.
Proof.
  intros Hwf. unfold utf8_decode.
  change (utf8_encode (123 :: s)) with (x7b :: utf8_encode s) at 1 2.
  cbn [List.map]. change (Byte.to_N x7b) with 123. cbv iota zeta.
  change (123 :: List.map Byte.to_N (utf8_encode s))
    with (List.map Byte.to_N (utf8_encode (123 :: s))).
  apply utf8_round_trip; [exact Hwf|]. now rewrite length_map.
Qed.

Lemma digit_code_unit (i : N) : code_unit (Base64.digit i).
Proof.
  unfold Base64.digit, code_unit.
  destruct (nth_in_or_default (N.to_nat i) Base64.alphabet 0) as [Hin | ->];
    [|lia].
  pose proof (js_code_units
    "ABCDEFGHIJKLMNOPQRSTUVWXYZabcdefghijklmnopqrstuvwxyz0123456789+/") as H.
  rewrite Forall_forall in H. apply H, Hin.
Qed.

Lemma b64_code_units (x : list byte) : Forall code_unit (b64 x).
Proof.
  unfold b64, Base64.encode. apply Forall_app. split.
  - apply Forall_forall. intros c Hc. apply in_map_iff in Hc.
    destruct Hc as [i [<- _]]. apply digit_code_unit.
  - destruct (Base64Facts.padding_cases (length (List.map Byte.to_N x)))
      as [-> | [-> | ->]]; repeat constructor.
Qed.

(** The reference codecs read back the metadata of every file name made
    of code units. *)
Lemma codec_round_trips (fileName : js_string) (sp se wiv wdek : list byte) :
  Forall code_unit fileName ->
  codec_round_trip (P := platform) fileName sp se wiv wdek.
Proof.
  intros Hname. unfold codec_round_trip, metadata_bytes.
  change (@JSON_parse platform) with parse.
  change (@TextDecoder_decode platform) with utf8_decode.
  change (@TextEncoder_encode platform) with utf8_encode.
  change (@JSON_stringify platform) with stringify.
  rewrite stringify_metadata.
  pose proof (wf_metadata_text fileName (b64 sp) (b64 se) (b64 wiv) (b64 wdek)
                Hname (b64_code_units sp) (b64_code_units se)
                (b64_code_units wiv) (b64_code_units wdek)) as Hwf.
  unfold metadata_text in Hwf |- * at 1.
  rewrite (utf8_decode_encode_object _ Hwf).
  apply (parse_metadata_text fileName (b64 sp) (b64 se) (b64 wiv) (b64 wdek));
    auto using b64_code_units.
Qed.

(** The stand-in cipher is an authenticated cipher in shape. *)
Lemma cipher_laws (key iv plaintext : list byte) :
  aead_round_trip (P := platform) key iv plaintext
  /\ aead_tagged (P := platform) key iv plaintext.
Proof. split; [apply unseal_seal | apply seal_length]. Qed.

(** On the reference platform the round trip holds for every file whose
    name is made of code units and whose metadata fits the length
    field. *)
Lemma reference_round_trip (file : File) (password email fname : js_string)
    (w w2 : World) :
  Forall code_unit (name file) ->
  N.of_nat (length (envelope_metadata (P := platform) file password email
                      (draws w))) < 4294967296 ->
  fst (decryptFile (P := platform)
         {| name := fname;
            content := envelope (P := platform) file password email (draws w) |}
         password email w2)
  = inr (content file, Some (JString (name file))).
Proof.
  intros Hname Hlen.
  apply (decryptFile_round_trip (P := platform) file password email fname w w2).
  - split; [now apply codec_round_trips | exact Hlen].
  - repeat split; apply cipher_laws.
Qed.

End ReferenceFacts.

(** ** The theorems at work on the reference platform *)

Module Examples.
Import Reference.

#[local] Existing Instance platform.

Local Ltac evaluate := vm_compute; reflexivity.
Local Ltac differ := let H := fresh in intros H; vm_compute in H; discriminate H.

(** The scenario of the specification: the file [hello] under the
    password [correcthorse] and the email [a@b.com]. *)
Lemma decrypt_encrypt_round_trip_witness :
  fst (decryptFile (P := platform)
         {| name := js "a.txt.dyadenc";
            content := envelope sample_file sample_password sample_email
                         (draws (world 1)) |}
         sample_password sample_email (world 2))
  = inr (content sample_file, Some (JString (name sample_file))).
Proof.
  refine (proj1 (proj2 (decrypt_encrypt_round_trip (P := platform)
            sample_file sample_password sample_email (js "a.txt.dyadenc")
            (world 1) (world 2) _ _ _))).
  - vm_compute. lia.
  - split; evaluate.
  - repeat split; evaluate.
Defined.

(** The same envelope, decrypted with the email [x@y.com]. *)
Lemma wrong_secrets_fail_identically_witness :
  fst (decryptFile (P := platform)
         {| name := js "a.txt.dyadenc";
            content := envelope sample_file sample_password sample_email
                         (draws (world 1)) |}
         sample_password other_email (world 2))
  = inl authentication_failed.
Proof.
  refine (proj1 (proj2 (wrong_secrets_fail_identically (P := platform)
            sample_file sample_password sample_email (js "a.txt.dyadenc")
            sample_password other_email
            (wrapped_dek sample_password sample_email (draws (world 1)))
            (world 1) (world 2) _ _))).
  - split; evaluate.
  - evaluate.
Defined.

(** C2 as stated fails twice.  A password that differs from the right
    one in an unpaired surrogate encodes as the right one does, and
    decrypts the envelope; and a corruption of the wrapped-key field, a
    quotation mark written into its text at byte 150 of the sample
    envelope, is told apart from wrong secrets: it fails with the format
    error, before the unwrap. *)
Lemma accepted_wrong_password_and_told_apart_corruption :
  Samples.high_surrogate_password <> Samples.low_surrogate_password
  /\ fst (decryptFile (P := platform)
            {| name := js "a.txt.dyadenc";
               content := envelope sample_file Samples.high_surrogate_password
                            sample_email (draws (world 1)) |}
            Samples.low_surrogate_password sample_email (world 2))
     = inr (content sample_file, Some (JString (name sample_file)))
  /\ fst (decryptFile (P := platform)
            {| name := js "a.txt.dyadenc";
               content :=
                 Samples.with_byte
                   (envelope sample_file sample_password sample_email
                      (draws (world 1))) 150 x22 |}
            sample_password sample_email (world 2))
     = inl (Error "Invalid file format: Metadata JSON parsing failed.")
  /\ Error "Invalid file format: Metadata JSON parsing failed."
     <> authentication_failed.
Proof.
  split; [differ|]. split; [evaluate|]. split; [evaluate|]. discriminate.
Qed.

(** The sample envelope starts with the magic. *)
Lemma envelope_layout_witness :
  slice (envelope (P := platform) sample_file sample_password sample_email
           (draws (world 1))) 0 4
  = list_byte_of_string "DYAD".
Proof.
  refine (proj1 (proj2 (envelope_layout (P := platform) sample_file
            sample_password sample_email (world 1) _ _))); evaluate.
Defined.

(** A file that holds the four bytes of the magic and nothing else. *)
Lemma truncated_header_escapes_witness :
  fst (parseMetadata (P := platform)
         {| name := js "cut.dyadenc"; content := magic_bytes ++ [] |} (world 1))
  = inl RangeError.
Proof.
  refine (proj1 (truncated_header_escapes (P := platform) (js "cut.dyadenc")
            [] (world 1) _)).
  vm_compute. lia.
Defined.

(** A header whose [sp] is the text [!]. *)
Lemma undecodable_field_escapes_witness :
  fst (handleDecrypt (P := platform)
         (Some {| name := js "bad.dyadenc";
                  content := framed undecodable_metadata [] |})
         sample_password sample_email (world 1))
  = inr (Failed invalid_character).
Proof.
  refine (proj1 (proj2 (proj2 (undecodable_field_escapes (P := platform)
            (js "a.txt") (js "!") [] [] [] (js "bad.dyadenc")
            sample_password sample_email undecodable_metadata []
            invalid_character (world 1) _ _ _ _ _)))).
  - evaluate.
  - evaluate.
  - evaluate.
  - vm_compute. lia.
  - discriminate.
Defined.

(** The master key of the sample secrets. *)
Lemma master_key_derivation_witness :
  exists km,
    fst (deriveMasterKey (P := platform)
           (stretched sample_password (drawn_sp (draws (world 1))))
           (stretched sample_email (drawn_se (draws (world 1)))) (world 1))
    = inr km
    /\ extractable km = false.
Proof.
  destruct (master_key_derivation (P := platform)
              (stretched sample_password (drawn_sp (draws (world 1))))
              (stretched sample_email (drawn_se (draws (world 1)))) (world 1)
              eq_refl eq_refl) as [km [Hrun [_ [_ [_ [Hext _]]]]]].
  exists km. rewrite Hrun. split; [reflexivity | exact Hext].
Defined.

(** Two encryptions of the sample file with different random sources. *)
Lemma fresh_values_per_encryption_witness :
  wdek (envelope_parsed (P := platform) sample_file sample_password
          sample_email (draws (world 1)))
  <> wdek (envelope_parsed (P := platform) sample_file sample_password
             sample_email (draws (world 2))).
Proof.
  refine (proj2 (proj2 (proj2 (proj2 (proj1 (proj2 (proj2 (proj2
            (fresh_values_per_encryption (P := platform) sample_file
               sample_password sample_email (js "a.txt.dyadenc")
               (world 1) (world 2) (world 3) _ _ _ _ _ _ _ _))))))))).
  - differ.
  - differ.
  - differ.
  - differ.
  - split; evaluate.
  - split; evaluate.
  - evaluate.
  - evaluate.
Defined.

(** Payloads of 27 and of 28 zero bytes. *)
Lemma payload_minimum_length_witness :
  fst (decryptFileStream (P := platform) (repeat x00 27)
         (data_key (repeat x01 32)) (world 1))
  = inl too_short
  /\ fst (decryptFileStream (P := platform) (repeat x00 28)
            (data_key (repeat x01 32)) (world 1))
     = inl integrity_failed.
Proof.
  split.
  - refine (proj1 (proj1 (payload_minimum_length (P := platform)
              (repeat x00 27) (data_key (repeat x01 32)) (world 1)) _)).
    vm_compute. lia.
  - refine (proj1 (proj1 (proj2 (proj2 (payload_minimum_length (P := platform)
              (repeat x00 28) (data_key (repeat x01 32)) (world 1)) _)) _)).
    + vm_compute. lia.
    + evaluate.
Defined.

(** Fresh arrays of 16, 16 and 12 zero bytes and a wrapped key of two
    bytes, followed by a payload of one byte. *)
Lemma packaged_metadata_round_trip_witness :
  exists header,
    fst (packageMetadata (P := platform) (js "a.txt") (Uint8Array_new 16)
           (Uint8Array_new 16) (Uint8Array_new 12) [x03; x04] (world 1))
    = inr header
    /\ fst (parseMetadata (P := platform)
              {| name := js "a.txt.dyadenc";
                 content := elements header ++ [x05] |} (world 2))
       = inr {| fileName := Some (JString (js "a.txt"));
                sp := elements (Uint8Array_new 16);
                se := elements (Uint8Array_new 16);
                wiv := elements (Uint8Array_new 12);
                wdek := [x03; x04];
                headerLength :=
                  8 + length (metadata_bytes (js "a.txt")
                                (elements (Uint8Array_new 16))
                                (elements (Uint8Array_new 16))
                                (elements (Uint8Array_new 12)) [x03; x04]) |}.
Proof.
  refine (proj1 (packaged_metadata_round_trip (P := platform) (js "a.txt")
            (js "a.txt.dyadenc") (Uint8Array_new 16) (Uint8Array_new 16)
            (Uint8Array_new 12) [x03; x04] [x05] (world 1) (world 2)
            _ _ _ _ _ _ _)).
  - split; reflexivity.
  - split; reflexivity.
  - split; reflexivity.
  - evaluate.
  - evaluate.
  - evaluate.
  - split; evaluate.
Defined.

(** A salt that is the first half of a 32-byte buffer. *)
Lemma windowed_salt_not_recovered_witness :
  exists header,
    fst (packageMetadata (P := platform) (js "a.txt") windowed_salt
           (Uint8Array_new 16) (Uint8Array_new 12) [] (world 1))
    = inr header
    /\ fst (parseMetadata (P := platform)
              {| name := js "a.txt.dyadenc"; content := elements header ++ [] |}
              (world 2))
       = inl (Error "Metadata integrity check failed: Invalid salt length.").
Proof.
  refine (windowed_salt_not_recovered (P := platform) (js "a.txt")
            (js "a.txt.dyadenc") windowed_salt (Uint8Array_new 16)
            (Uint8Array_new 12) [] [] (world 1) (world 2) _ _ _).
  - evaluate.
  - vm_compute. discriminate.
  - split; evaluate.
Defined.

End Examples.

(** * Further properties *)


(** The only exception [ToString] raises on a parsed JSON value is a
    [TypeError]. *)
Lemma ToString_json_error (number : Type) (nts : number -> js_string) :
  forall (v : json number) (e : exn),
    ToString_json nts v = inl e -> e = TypeError.
Proof.
  fix IH 1. intros [| [|] | n | s | items | props] e; cbn [ToString_json];
    try discriminate.
  - revert items e. fix IHl 1. intros [|x rest] e; [discriminate|].
    specialize (IH x). specialize (IHl rest).
    match goal with
    | |- match ?a with _ => _ end = _ -> _ => destruct a as [e1|s1] eqn:E1
    end.
    + intros H; injection H as <-. destruct x; try discriminate E1;
        eapply IH; eassumption.
    + match goal with
      | |- match ?b with _ => _ end = _ -> _ => destruct b as [e2|s2] eqn:E2
      end; intros H; [injection H as <-|discriminate H].
      apply IHl; reflexivity.
  - destruct (own_property _ _); intros H; [now injection H|discriminate].
Qed.

(** [base64ToArrayBuffer] leaves the world alone, and fails only with a
    [TypeError] or an [InvalidCharacterError]. *)
Lemma base64ToArrayBuffer_cases `{P : Platform} (v : js_value number) (w : World) :
  exists r,
    base64ToArrayBuffer v w = (r, w)
    /\ match r with
       | inl e => e = TypeError \/ e = invalid_character
       | inr b =>
           exists s binary,
             ToString Number_toString v = inr s
             /\ Base64.atob s = inr binary
             /\ b = List.map toUint8 binary
       end.
Proof.
  unfold base64ToArrayBuffer. munfold.
  destruct (ToString Number_toString v) as [e|s] eqn:Es.
  - exists (inl e). split; [reflexivity|]. left.
    destruct v as [j|]; [|discriminate Es].
    exact (ToString_json_error _ _ _ _ Es).
  - destruct (Base64.atob s) as [e|binary] eqn:Ea.
    + exists (inl e). split; [reflexivity|]. right. exact (atob_error _ _ Ea).
    + exists (inr (List.map toUint8 binary)). split; [reflexivity|].
      exists s, binary. auto.
Qed.

Lemma get_error `{P : Platform} (v : json number) (key : js_string) (e : exn) :
  get v key = inl e -> e = TypeError.
Proof. destruct v; cbn; intros H; now inversion H. Qed.

Ltac field_step :=
  match goal with
  | |- context [get ?v ?k] =>
      let e := fresh "e" in let f := fresh "f" in let E := fresh "E" in
      destruct (get v k) as [e|f] eqn:E;
      [apply get_error in E; subst e|]
  | |- context [base64ToArrayBuffer ?f ?w] =>
      let r := fresh "r" in let E := fresh "E" in let H := fresh "H" in
      destruct (base64ToArrayBuffer_cases f w) as [r [E H]];
      rewrite E; destruct r
  end.

Lemma parseMetadata_outcome `{P : Platform} (file : File) (w : World) :
  let started := ConsoleLog INFO [Text "Starting metadata parsing."] in
  (exists md,
     parseMetadata file w
     = (inr md, extend w (parse_events (headerLength md))))
  \/ (exists e,
        parseMetadata file w = (inl e, extend w [started])
        /\ In e parse_failures).
Proof.
  cbv zeta. unfold parseMetadata, parse_failures, parse_events, extend. munfold.
  match goal with |- context [if ?b then _ else _] => destruct b end;
    [right; eexists; split; [reflexivity|cbn; auto]|].
  destruct (getUint32_le _ _) as [e0|n] eqn:En.
  { unfold getUint32_le in En.
    destruct (skipn _ _) as [|? [|? [|? [|? ?]]]]; inversion En; subst;
      right; eexists; (split; [reflexivity|cbn; auto]). }
  destruct (JSON_parse _) as [v|];
    [|right; eexists; split; [reflexivity|cbn; auto 10]].
  repeat field_step;
    try (right; eexists; split; [reflexivity|cbn; intuition (subst; auto 10)]).
  repeat match goal with |- context [if ?b then _ else _] => destruct b end;
    try (right; eexists; split; [reflexivity|cbn; auto 10]).
  left. eexists. apply f_equal2; [reflexivity|].
  cbn [headerLength]. wnorm. reflexivity.
Qed.

(** On a file whose bytes the browser delivers, whatever they are and
    whatever the platform, an exception of [parseMetadata] is one of
    seven: the two format errors, the two integrity errors, and the
    [RangeError], [TypeError] and [InvalidCharacterError] that escape from
    [getUint32], property access and [atob]; and a failed parse has
    written its first log line and nothing more.  (A read of the file
    that rejects is outside the model, see [File].) *)
Theorem parseMetadata_failures `{P : Platform} (file : File) (w : World)
    (e : exn) :
  fst (parseMetadata file w) = inl e ->
  In e parse_failures
  /\ snd (parseMetadata file w)
     = extend w [ConsoleLog INFO [Text "Starting metadata parsing."]].
Proof.
  destruct (parseMetadata_outcome file w) as [[md Hmd]|[e' [He Hin]]].
  - rewrite Hmd. discriminate.
  - rewrite He. cbn [fst snd]. intros H; injection H as <-. auto.
Qed.

Lemma getUint32_le_slice (c : list byte) (n : N) :
  getUint32_le (slice c 0 8) 4 = inr n -> getUint32_le c 4 = inr n.
Proof.
  unfold getUint32_le, slice.
  destruct c as [|c0 [|c1 [|c2 [|c3 [|c4 [|c5 [|c6 [|c7 rest]]]]]]]];
    cbn; auto; discriminate.
Qed.

(** Whatever the file and the platform, metadata that [parseMetadata]
    returns was read from a file that starts with the magic, has a header
    length of eight plus the little-endian length field, carries salts of
    16 bytes and a wrapping IV of 12, and holds the fields of the JSON
    value parsed from the bytes after the length field: that value has
    all of [sp], [se], [wiv] and [wdek], while [fileName] may be absent. *)
Theorem parsed_metadata_is_checked `{P : Platform} (file : File) (w : World)
    (md : ParsedMetadata) :
  fst (parseMetadata file w) = inr md ->
  firstn 4 (content file) = magic_bytes
  /\ getUint32_le (content file) 4 = inr (N.of_nat (headerLength md - 8))
  /\ (8 <= headerLength md)%nat
  /\ (length (sp md) = 16 /\ length (se md) = 16 /\ length (wiv md) = 12)%nat
  /\ exists v,
       JSON_parse
         (TextDecoder_decode (slice (content file) 8 (headerLength md)))
       = Some v
       /\ get v (js "fileName") = inr (fileName md)
       /\ field_decodes v "sp" (sp md)
       /\ field_decodes v "se" (se md)
       /\ field_decodes v "wiv" (wiv md)
       /\ field_decodes v "wdek" (wdek md).
Proof.
  intros Hrun.
  assert (Hmagic : firstn 4 (content file) = magic_bytes).
  { destruct (list_eq_dec Byte.byte_eq_dec (firstn 4 (content file)) magic_bytes)
      as [Heq|Hne]; [exact Heq|].
    rewrite (parse_bad_magic file w Hne) in Hrun. discriminate Hrun. }
  split; [exact Hmagic|]. revert Hrun.
  unfold parseMetadata. munfold.
  match goal with |- context [if ?b then _ else _] => destruct b end;
    [discriminate|].
  destruct (getUint32_le _ _) as [e0|n] eqn:En; [discriminate|].
  apply getUint32_le_slice in En.
  destruct (JSON_parse _) as [v|] eqn:Ev; [|discriminate].
  unfold field_decodes, decodes_to.
  repeat field_step; cbn [fst]; try discriminate.
  repeat match goal with
         | |- context [Nat.eqb ?a ?b] =>
             let E := fresh "E" in
             destruct (Nat.eqb a b) eqn:E;
             [apply Nat.eqb_eq in E|]
         end;
    cbn [fst negb orb]; try discriminate.
  intros Hmd; injection Hmd as <-. cbn [headerLength sp se wiv wdek fileName].
  match goal with
  | |- _ = inr (N.of_nat ?k) /\ _ => replace (N.of_nat k) with n by lia
  end.
  repeat split; try assumption; try lia.
  exists v. split; [exact Ev|]. split; [assumption|].
  repeat match goal with
         | Hg : get v _ = inr ?f,
           Hd : exists s binary, ToString _ ?f = inr s /\ _ |- _ =>
             destruct f as [?j|];
             [|exfalso; destruct Hd as [s [binary [Hs [Ha _]]]];
               injection Hs as <-; vm_compute in Ha; discriminate Ha];
             revert Hg Hd
         end.
  intros. repeat split; eexists; split; eassumption.
Qed.

(** Every buffer comes back from its base64 text: [base64ToArrayBuffer]
    undoes [arrayBufferToBase64], and neither throws nor touches the
    world. *)
Theorem base64_fields_round_trip `{P : Platform} (b : ArrayBuffer) (w : World) :
  (text <- arrayBufferToBase64 b ;;
   base64ToArrayBuffer (Some (JString text))) w
  = (inr b, w).
Proof.
  unfold bind. rewrite arrayBufferToBase64_run. apply base64ToArrayBuffer_b64.
Qed.

(** The derivations validate nothing and cannot fail: for every password,
    email and salts, the empty ones included, stretching both secrets and
    combining the two keys returns the master key. *)
Theorem derivation_chain_never_fails `{P : Platform}
    (password email : js_string) (sp se : list byte) (w : World) :
  (kp <- deriveKeyPBKDF2 password sp ;;
   ke <- deriveKeyPBKDF2 email se ;;
   deriveMasterKey kp ke) w
  = (inr (master_of password email sp se),
     extend w
       (stretch_events password sp ++ stretch_events email se
          ++ combine_events (stretched password sp) (stretched email se))).
Proof.
  unfold bind. rewrite !deriveKeyPBKDF2_run.
  rewrite deriveMasterKey_run by reflexivity.
  rewrite !extend_extend. cbn [fst snd]. unfold master_of. now rewrite <- ?app_assoc.
Qed.

(** A key that is not extractable cannot be an input of [deriveMasterKey]:
    the export throws [InvalidAccessError] before any keying material is
    imported.  So a master key, which is not extractable, is never
    combined again. *)
Theorem sealed_key_is_not_combined `{P : Platform} (kp ke : CryptoKey)
    (w : World) :
  extractable kp && extractable ke = false ->
  deriveMasterKey kp ke w
  = (inl (DOMException "InvalidAccessError"),
     extend w
       (ConsoleLog INFO [Text "Deriving Master Key (KM) using HKDF."]
          :: SubtleExportKey kp
          :: (if extractable kp then [SubtleExportKey ke] else []))).
Proof.
  unfold deriveMasterKey, subtle_exportKey, extend. munfold.
  destruct (extractable kp); cbn [andb]; [intros ->|intros _];
    wnorm; reflexivity.
Qed.

(** Unwrapping fails in one way only.  Whatever the wrapped key, the IV
    and the key handle, [unwrapDataKey] either throws the authentication
    error, or returns an extractable AES-GCM key for encrypt and decrypt
    whose material is what the platform decrypted, of 128, 192 or 256
    bits: a key handle that may not decrypt, a tag that does not verify
    and decrypted material of another length all end in the same error. *)
Theorem unwrap_fails_one_way `{P : Platform} (wrappedKey iv : list byte)
    (km : CryptoKey) (w : World) :
  match fst (unwrapDataKey wrappedKey iv km w) with
  | inl e => e = authentication_failed
  | inr dek =>
      opened km iv wrappedKey = Some (raw dek)
      /\ valid_aes_bits (8 * N.of_nat (length (raw dek))) = true
      /\ dek = imported_key (raw dek)
  end.
Proof.
  rewrite unwrapDataKey_run. cbn [fst]. unfold unwrap_result.
  destruct (opened km iv wrappedKey) as [dekRaw|]; [|reflexivity].
  destruct (valid_aes_bits _) eqn:Hv; cbn [fst]; auto.
Qed.

(** What [wrapDataKey] returns, [unwrapDataKey] opens: for an extractable
    data key of 128, 192 or 256 bits and a master key for encrypt and
    decrypt, on a platform whose cipher round-trips on them, unwrapping
    the wrapped key under the IV that was drawn gives a key with the
    material of the data key. *)
Theorem unwrap_opens_wrapped_key `{P : Platform} (dek km : CryptoKey)
    (w w2 : World) :
  extractable dek = true ->
  valid_aes_bits (8 * N.of_nat (length (raw dek))) = true ->
  alg_name (algorithm km) = AES_GCM ->
  has_usage encrypt km = true -> has_usage decrypt km = true ->
  aead_round_trip (raw km) (upcoming w 0 12) (raw dek) ->
  exists wrappedKey iv,
    fst (wrapDataKey dek km w) = inr (wrappedKey, iv)
    /\ elements iv = upcoming w 0 12
    /\ fst (unwrapDataKey wrappedKey (elements iv) km w2)
       = inr (imported_key (raw dek)).
Proof.
  intros Hext Hbits Halg Henc Hdec Hrt.
  rewrite (wrapDataKey_run dek km w Hext Halg Henc). cbv zeta. cbn [fst].
  eexists. eexists. split; [reflexivity|]. rewrite elements_of.
  split; [reflexivity|].
  rewrite unwrapDataKey_run. cbn [fst]. unfold unwrap_result, opened.
  rewrite Halg, Hdec. cbn [name_eqb andb].
  unfold aead_round_trip in Hrt. rewrite Hrt, Hbits. reflexivity.
Qed.

(** The payload round trip, the empty file included: with a data key for
    encrypt and decrypt, on a platform whose cipher round-trips on the
    file and appends its 16-byte tag, [encryptFileStream] returns the
    12-byte IV followed by the sealed content, 28 bytes more than the
    file, and [decryptFileStream] gives the content back. *)
Theorem payload_round_trip `{P : Platform} (file : File) (dek : CryptoKey)
    (w w2 : World) :
  alg_name (algorithm dek) = AES_GCM ->
  has_usage encrypt dek = true -> has_usage decrypt dek = true ->
  aead_round_trip (raw dek) (upcoming w 0 12) (content file) ->
  aead_tagged (raw dek) (upcoming w 0 12) (content file) ->
  exists blob,
    fst (encryptFileStream file dek w) = inr blob
    /\ firstn 12 blob = upcoming w 0 12
    /\ length blob = (length (content file) + 28)%nat
    /\ fst (decryptFileStream blob dek w2) = inr (content file).
Proof.
  intros Halg Henc Hdec Hrt Htag.
  rewrite (encryptFileStream_run file dek w Halg Henc). cbv zeta. cbn [fst].
  eexists. split; [reflexivity|].
  pose proof (upcoming_length w 0 12) as Hiv.
  unfold aead_tagged in Htag. unfold aead_round_trip in Hrt.
  split; [now apply firstn_12_app|].
  split; [rewrite length_app, Hiv, Htag; lia|].
  rewrite decryptFileStream_run. cbn [fst]. unfold payload_result.
  replace (Nat.ltb _ 28) with false
    by (symmetry; apply Nat.ltb_ge; rewrite length_app, Hiv, Htag; lia).
  rewrite firstn_12_app, skipn_12_app by exact Hiv.
  unfold opened. rewrite Halg, Hdec. cbn [name_eqb andb]. now rewrite Hrt.
Qed.


Lemma guard_open (password email : js_string) :
  (7 <= length password)%nat -> email <> [] ->
  is_empty password || is_empty email = false
  /\ Nat.ltb (length password) MIN_PASSWORD_LENGTH = false.
Proof.
  intros Hlen Hemail. split.
  - destruct password; [cbn in Hlen; lia|]. destruct email; [contradiction|].
    reflexivity.
  - apply Nat.ltb_ge. exact Hlen.
Qed.


(** Neither handler lets an exception escape; and once the bytes of the
    selected file are read, encryption cannot fail: for every content,
    password and email, on every platform, [handleEncrypt] ends in a guard
    toast or in the download, never in [Encryption Failed].  (A read of
    the file that rejects, the one way into that toast, is outside the
    model, see [File].) *)
Theorem handlers_never_throw `{P : Platform} (file : option File)
    (password email : js_string) (w : World) :
  (exists outcome,
     fst (handleEncrypt file password email w) = inr outcome
     /\ forall e, outcome <> Failed e)
  /\ exists outcome, fst (handleDecrypt file password email w) = inr outcome.
Proof.
  split.
  - unfold handleEncrypt. destruct file as [selected|];
      [|eexists; split; [reflexivity|discriminate]].
    destruct (is_empty password || is_empty email);
      [eexists; split; [reflexivity|discriminate]|].
    destruct (Nat.ltb _ _); [eexists; split; [reflexivity|discriminate]|].
    munfold.
    match goal with
    | |- context [encryptFile selected password email ?w'] =>
        destruct (encryptFile_run selected password email w') as [evs Henc];
        rewrite Henc
    end.
    eexists; split; [reflexivity|discriminate].
  - unfold handleDecrypt. destruct file as [selected|];
      [|eexists; reflexivity].
    destruct (is_empty password || is_empty email); [eexists; reflexivity|].
    destruct (Nat.ltb _ _); [eexists; reflexivity|]. munfold.
    match goal with
    | |- context [decryptFile selected password email ?w'] =>
        destruct (decryptFile selected password email w')
          as [[e'|[blob fn]] w'']
    end; eexists; reflexivity.
Qed.

(** The guards come before any work: without a file, with an empty
    password or email, or with a password of fewer than seven code units,
    both handlers stop at their toast and leave the world as it was: no
    log line, no random byte, no key. *)
Theorem guards_stop_before_any_work `{P : Platform} (file : option File)
    (password email : js_string) (w : World) :
  file = None \/ password = [] \/ email = [] \/ (length password < 7)%nat ->
  let outcome :=
    match file with
    | None => MissingInputs
    | Some _ =>
        if is_empty password || is_empty email then MissingInputs
        else PasswordTooShort
    end in
  handleEncrypt file password email w = (inr outcome, w)
  /\ handleDecrypt file password email w = (inr outcome, w).
Proof.
  intros H. cbv zeta. unfold handleEncrypt, handleDecrypt.
  destruct file as [selected|]; [|split; reflexivity].
  destruct (is_empty password || is_empty email) eqn:Hg; [split; reflexivity|].
  destruct (Nat.ltb (length password) MIN_PASSWORD_LENGTH) eqn:Hl;
    [split; reflexivity|].
  exfalso. apply Nat.ltb_ge in Hl. unfold MIN_PASSWORD_LENGTH in Hl.
  destruct H as [H|[->|[->|H]]]; try discriminate; try lia.
  destruct (is_empty password); discriminate.
Qed.

(** A file that does not start with the four bytes [DYAD], the empty
    file and files shorter than four bytes included, is rejected with the
    magic mismatch error before anything else is read or derived. *)
Theorem foreign_file_is_rejected `{P : Platform} (file : File)
    (password email : js_string) (w : World) :
  firstn 4 (content file) <> magic_bytes ->
  decryptFile file password email w
  = (inl (Error "Invalid file format: Magic header mismatch."),
     extend w [ConsoleLog INFO [Text "Starting metadata parsing."]]).
Proof.
  intros Hmagic. rewrite decryptFile_run.
  now rewrite (parse_bad_magic file w Hmagic).
Qed.

(** A framed header whose bytes the platform does not parse as JSON is
    rejected with the JSON format error, whatever the parser's own
    exception was, before any key is derived. *)
Theorem malformed_json_is_rejected `{P : Platform} (fname : js_string)
    (mb rest : list byte) (password email : js_string) (w : World) :
  N.of_nat (length mb) < 4294967296 ->
  JSON_parse (TextDecoder_decode mb) = None ->
  decryptFile {| name := fname; content := framed mb rest |} password email w
  = (inl (Error "Invalid file format: Metadata JSON parsing failed."),
     extend w [ConsoleLog INFO [Text "Starting metadata parsing."]]).
Proof.
  intros Hn Hjson. rewrite decryptFile_run.
  now rewrite (parse_bad_json fname mb rest w Hn Hjson).
Qed.

(** [parseMetadata] accepts every JSON value whose [sp], [se], [wiv] and
    [wdek] are base64 texts of 16, 16, 12 and any number of bytes: the
    value may have other properties, and its [fileName] is passed on
    unchecked, whether a string, another value or absent. *)
Theorem well_formed_header_is_accepted `{P : Platform} (fname : js_string)
    (mb rest : list byte) (v : json number) (name_field : js_value number)
    (sp se wiv wdek : list byte) (w : World) :
  N.of_nat (length mb) < 4294967296 ->
  JSON_parse (TextDecoder_decode mb) = Some v ->
  get v (js "fileName") = inr name_field ->
  get v (js "sp") = inr (Some (JString (b64 sp))) ->
  get v (js "se") = inr (Some (JString (b64 se))) ->
  get v (js "wiv") = inr (Some (JString (b64 wiv))) ->
  get v (js "wdek") = inr (Some (JString (b64 wdek))) ->
  length sp = 16%nat -> length se = 16%nat -> length wiv = 12%nat ->
  fst (parseMetadata {| name := fname; content := framed mb rest |} w)
  = inr {| fileName := name_field; sp := sp; se := se; wiv := wiv;
           wdek := wdek; headerLength := 8 + length mb |}.
Proof.
  intros Hn Hjson Hname Hsp Hse Hwiv Hwdek Lsp Lse Lwiv.
  parse_frame mb Hn. rewrite Hjson. cbv iota beta.
  rewrite Hname, Hsp, Hse, Hwiv, Hwdek. cbv iota beta.
  rewrite !base64ToArrayBuffer_b64. cbv iota beta.
  rewrite Lsp, Lse, Lwiv. reflexivity.
Qed.

(** With the right secrets and a damaged payload, decryption gets past
    the unwrap and fails on the payload: [Encrypted data too short.] when
    fewer than 28 bytes follow the header, none included, and the
    integrity error when the platform rejects the tag. *)
Theorem damaged_payload_is_rejected `{P : Platform} (original fname : js_string)
    (psalt esalt wrapIv wrapped payload dekRaw : list byte)
    (password email : js_string) (w : World) :
  length psalt = 16%nat -> length esalt = 16%nat -> length wrapIv = 12%nat ->
  readable original psalt esalt wrapIv wrapped ->
  AES_GCM_decrypt (raw (master_of password email psalt esalt)) wrapIv wrapped
    = Some dekRaw ->
  valid_aes_bits (8 * N.of_nat (length dekRaw)) = true ->
  (length payload < 28)%nat
  \/ AES_GCM_decrypt dekRaw (firstn 12 payload) (skipn 12 payload) = None ->
  fst (decryptFile
         {| name := fname;
            content :=
              header_bytes original psalt esalt wrapIv wrapped ++ payload |}
         password email w)
  = inl (if Nat.ltb (length payload) 28 then too_short else integrity_failed).
Proof.
  intros Lsp Lse Lwiv Hread Hunwrap Hbits Hbad.
  rewrite (decryptFile_framed original fname psalt esalt wrapIv wrapped payload
             password email w Lsp Lse Lwiv Hread).
  cbv zeta. cbn [fst]. unfold after_parse, framed_metadata. cbv zeta.
  cbn [sp se wiv wdek].
  unfold unwrap_result. rewrite opened_master.
  unfold master_of in Hunwrap. rewrite Hunwrap, Hbits. cbn [fst].
  unfold payload_result.
  destruct (Nat.ltb (length payload) 28) eqn:Hlen; [reflexivity|].
  destruct Hbad as [Hshort|Hrej]; [apply Nat.ltb_ge in Hlen; lia|].
  rewrite opened_imported, Hrej. reflexivity.
Qed.

(** For arrays that span their buffers, as the arrays the program makes
    do, the header of [packageMetadata] followed by any payload parses
    back to the packaged values, and the parsed header length is where
    the payload starts. *)
Theorem packaged_header_is_parsed `{P : Platform} (original fname : js_string)
    (spArray seArray wivArray : Uint8Array) (wrapped payload : list byte)
    (w w2 : World) :
  spans_buffer spArray -> spans_buffer seArray -> spans_buffer wivArray ->
  length (elements spArray) = 16%nat -> length (elements seArray) = 16%nat ->
  length (elements wivArray) = 12%nat ->
  readable original (elements spArray) (elements seArray)
    (elements wivArray) wrapped ->
  exists header md,
    fst (packageMetadata original spArray seArray wivArray wrapped w)
    = inr header
    /\ fst (parseMetadata
              {| name := fname; content := elements header ++ payload |} w2)
       = inr md
    /\ fileName md = Some (JString original)
    /\ sp md = elements spArray /\ se md = elements seArray
    /\ wiv md = elements wivArray /\ wdek md = wrapped
    /\ headerLength md = length (elements header)
    /\ slice_from (elements header ++ payload) (headerLength md) = payload.
Proof.
  intros Ssp Sse Swiv Hsp Hse Hwiv [Hcodec Hn].
  rewrite packageMetadata_run. eexists. eexists.
  split; [reflexivity|]. rewrite elements_of.
  rewrite <- (elements_spanning spArray Ssp),
    <- (elements_spanning seArray Sse), <- (elements_spanning wivArray Swiv).
  rewrite (parseMetadata_header _ _ _ _ _ payload fname w2 Hsp Hse Hwiv Hn Hcodec).
  cbn [fst]. split; [reflexivity|].
  cbn [fileName sp se wiv wdek headerLength].
  rewrite header_bytes_length.
  repeat split.
  unfold slice_from. rewrite <- header_bytes_length.
  now rewrite skipn_app, skipn_all, Nat.sub_diag.
Qed.

Lemma js_string_eqb_eq (a b : js_string) : js_string_eqb a b = true <-> a = b.
Proof.
  unfold js_string_eqb. destruct (list_eq_dec N.eq_dec a b); split;
    auto; discriminate.
Qed.

Lemma endsWith_suffix (s suffix : js_string) :
  endsWith s suffix = true <-> exists stem, s = stem ++ suffix.
Proof.
  unfold endsWith. destruct (Nat.ltb (length s) (length suffix)) eqn:Hlen.
  - split; [discriminate|]. intros [stem ->]. apply Nat.ltb_lt in Hlen.
    rewrite length_app in Hlen. lia.
  - apply Nat.ltb_ge in Hlen. rewrite js_string_eqb_eq. split.
    + intros H. exists (firstn (length s - length suffix) s).
      symmetry. etransitivity; [|apply (firstn_skipn (length s - length suffix) s)].
      now rewrite H.
    + intros [stem ->]. rewrite length_app.
      replace (length stem + length suffix - length suffix)%nat
        with (length stem) by lia.
      now rewrite skipn_app, skipn_all, Nat.sub_diag.
Qed.

Lemma startsWith_prefix (s prefix : js_string) :
  startsWith s prefix = true <-> exists rest, s = prefix ++ rest.
Proof.
  unfold startsWith. destruct (Nat.ltb (length s) (length prefix)) eqn:Hlen.
  - split; [discriminate|]. intros [rest ->]. apply Nat.ltb_lt in Hlen.
    rewrite length_app in Hlen. lia.
  - rewrite js_string_eqb_eq. split.
    + intros H. exists (skipn (length prefix) s).
      symmetry. etransitivity; [|apply (firstn_skipn (length prefix) s)].
      now rewrite H.
    + intros [rest ->].
      now rewrite firstn_app, firstn_all, Nat.sub_diag, firstn_O, app_nil_r.
Qed.

Lemma split_not_nil (sep : N) (s : js_string) : split sep s <> [].
Proof.
  destruct s as [|c r]; cbn; [discriminate|].
  destruct (c =? sep); [discriminate|]. destruct (split sep r); discriminate.
Qed.

Lemma split_app (sep : N) (a b : js_string) :
  split sep (a ++ sep :: b) = split sep a ++ split sep b.
Proof.
  induction a as [|c a IH]; cbn [app split].
  - now rewrite N.eqb_refl.
  - rewrite IH. destruct (c =? sep); [reflexivity|].
    pose proof (split_not_nil sep a) as Hne.
    destruct (split sep a); [contradiction|reflexivity].
Qed.

Lemma split_plain (sep : N) (s : js_string) :
  ~ In sep s -> split sep s = [s].
Proof.
  induction s as [|c r IH]; intros Hin; [reflexivity|]. cbn [split].
  destruct (N.eqb_spec c sep) as [->|_]; [exfalso; apply Hin; now left|].
  rewrite IH; [reflexivity|]. intros H. apply Hin. now right.
Qed.

Lemma join_split (sep : N) (s : js_string) : join [sep] (split sep s) = s.
Proof.
  induction s as [|c r IH]; [reflexivity|]. cbn [split].
  pose proof (split_not_nil sep r) as Hne.
  destruct (N.eqb_spec c sep) as [->|_].
  - destruct (split sep r) as [|h t]; [contradiction|].
    cbn [join app] in *. now rewrite IH.
  - destruct (split sep r) as [|h [|x t]]; [contradiction| |];
      cbn [join app] in *; now rewrite <- IH.
Qed.

(** The mode after a selection depends on the name of the file alone: it
    is decrypt exactly when the name ends in [.dyadenc], whatever the
    default mode and the mode before, so the branch that reverts to the
    default never sets a mode the extension contradicts.  Clearing the
    selection keeps the mode. *)
Theorem selection_sets_mode_by_extension (defaultMode : CryptoForm.Mode)
    (files : option File) (st : CryptoForm.State) :
  let st' := CryptoForm.handleFileChange defaultMode files st in
  CryptoForm.file st' = files
  /\ match files with
     | None => CryptoForm.mode st' = CryptoForm.mode st
     | Some selected =>
         CryptoForm.mode st'
         = (if endsWith (name selected) ENCRYPTED_FILE_EXTENSION
            then CryptoForm.Decrypt else CryptoForm.Encrypt)
         /\ (CryptoForm.mode st' = CryptoForm.Decrypt
             <-> exists stem, name selected = stem ++ js ".dyadenc")
     end.
Proof.
  cbv zeta. unfold CryptoForm.handleFileChange.
  destruct files as [selected|]; [|split; reflexivity].
  rewrite <- (endsWith_suffix (name selected) (js ".dyadenc")).
  change (js ".dyadenc") with ENCRYPTED_FILE_EXTENSION.
  destruct defaultMode, (endsWith (name selected) ENCRYPTED_FILE_EXTENSION);
    cbn; (split; [reflexivity|]); (split; [reflexivity|]);
    split; auto; discriminate.
Qed.

(** The file [handleEncrypt] saves is recognised when it is selected
    again: its name ends in [.dyadenc], so the form switches to decrypt
    whatever its default mode. *)
Theorem saved_file_selects_decrypt `{P : Platform} (file : option File)
    (password email : js_string) (w : World) (blob : Blob)
    (filename : js_value number) (defaultMode : CryptoForm.Mode)
    (st : CryptoForm.State) :
  fst (handleEncrypt file password email w) = inr (Saved blob filename) ->
  exists saved_name,
    filename = Some (JString saved_name)
    /\ CryptoForm.mode
         (CryptoForm.handleFileChange defaultMode
            (Some {| name := saved_name; content := blob |}) st)
       = CryptoForm.Decrypt.
Proof.
  unfold handleEncrypt. destruct file as [selected|]; [|discriminate].
  destruct (is_empty password || is_empty email); [discriminate|].
  destruct (Nat.ltb _ _); [discriminate|]. munfold.
  match goal with
  | |- context [encryptFile selected password email ?w'] =>
      destruct (encryptFile selected password email w') as [[e|b] w'']
  end; cbn [fst]; [discriminate|].
  intros H; injection H as <- <-. eexists. split; [reflexivity|].
  unfold CryptoForm.handleFileChange. cbn [name].
  replace (endsWith (name selected ++ ENCRYPTED_FILE_EXTENSION)
             ENCRYPTED_FILE_EXTENSION) with true
    by (symmetry; apply endsWith_suffix; eauto).
  now destruct defaultMode.
Qed.

(** The name of the embedded image: the part of the selected name before
    its last full stop, between [embedded_] and [.png]; and [image] in
    its place when that part is empty or the name has no full stop, so a
    name without extension is not kept. *)
Theorem embedded_name_drops_extension (stem ext : js_string) :
  ~ In full_stop ext ->
  SteganographyForm.newFileName (stem ++ full_stop :: ext)
  = js "embedded_" ++ (if is_empty stem then js "image" else stem) ++ js ".png"
  /\ SteganographyForm.newFileName ext = js "embedded_image.png".
Proof.
  intros Hext. unfold SteganographyForm.newFileName.
  rewrite split_app, (split_plain _ _ Hext), removelast_last.
  change (js ".") with [full_stop]. rewrite join_split.
  split; reflexivity.
Qed.

(** Only images are kept: after [handleImageChange] the selected image is
    the chosen file if its media type starts with [image/], and none
    otherwise, with the toast [Invalid File Type] exactly for a file of
    another type.  The text to embed is never touched, and the extracted
    text is cleared in extract mode only. *)
Theorem only_images_are_selected (mode : SteganographyForm.Mode)
    (files : option SteganographyForm.ImageFile)
    (st : SteganographyForm.State) :
  let after := SteganographyForm.handleImageChange mode files st in
  (forall selected,
     SteganographyForm.imageFile (fst after) = Some selected
     <-> files = Some selected
         /\ exists subtype, SteganographyForm.type selected = js "image/" ++ subtype)
  /\ (snd after = Some SteganographyForm.Invalid_File_Type
      <-> exists selected,
            files = Some selected
            /\ SteganographyForm.imageFile (fst after) = None)
  /\ SteganographyForm.textInput (fst after) = SteganographyForm.textInput st
  /\ SteganographyForm.extractedText (fst after)
     = match mode with
       | SteganographyForm.Extract => []
       | SteganographyForm.Embed => SteganographyForm.extractedText st
       end.
Proof.
  cbv zeta. unfold SteganographyForm.handleImageChange.
  destruct files as [selected|].
  - pose proof (startsWith_prefix (SteganographyForm.type selected) (js "image/"))
      as Hprefix.
    destruct (startsWith (SteganographyForm.type selected) (js "image/"));
      cbn [negb fst snd SteganographyForm.imageFile SteganographyForm.textInput
           SteganographyForm.extractedText].
    + split; [|split; [|destruct mode; split; reflexivity]].
      * intros f. destruct mode; cbn [SteganographyForm.imageFile];
          (split; [intros H; split; [exact H|]; injection H as <-;
                   now apply Hprefix
                  |intros [H _]; exact H]).
      * split; [discriminate|]. intros [f [_ H]].
        destruct mode; discriminate H.
    + split; [|split; [|destruct mode; split; reflexivity]].
      * intros f. split; [discriminate|]. intros [H Hsub].
        injection H as <-. apply Hprefix in Hsub. discriminate Hsub.
      * split; eauto.
  - cbn [fst snd]. split; [|split; [|destruct mode; split; reflexivity]].
    + intros f. destruct mode; cbn [SteganographyForm.imageFile];
        (split; [discriminate|intros [H _]; discriminate H]).
    + split; [discriminate|]. intros [f [H _]]. discriminate H.
Qed.

Section SteganographyFacts.

Import SteganographyForm.

Variable ImageData : Type.
Variable loadImageData : File -> M ImageData.
Variable embedTextInImage : ImageData -> js_string -> M ImageData.
Variable extractTextFromImage : ImageData -> M js_string.
Variable imageDataToBlob : ImageData -> M Blob.


(** A file that is not an image never reaches the steganography module:
    after it was chosen, or after the selection was cleared, [handleEmbed]
    and [handleExtract] stop at their guards and leave the world and the
    state as they were. *)
Theorem non_image_is_never_loaded (mode : Mode) (files : option ImageFile)
    (st : State) (w : World) :
  (forall selected,
     files = Some selected -> startsWith (type selected) (js "image/") = false) ->
  let st' := fst (handleImageChange mode files st) in
  handleEmbed loadImageData embedTextInImage imageDataToBlob st' w = (inr (None, Missing_Inputs), w)
  /\ handleExtract loadImageData extractTextFromImage st' w = (inr (st', Missing_Image), w).
Proof.
  intros Hfiles. cbv zeta.
  assert (Hnone : imageFile (fst (handleImageChange mode files st)) = None).
  { unfold handleImageChange. destruct files as [selected|].
    - rewrite (Hfiles selected eq_refl). reflexivity.
    - now destruct mode. }
  unfold handleEmbed, handleExtract. rewrite Hnone.
  split; reflexivity.
Qed.

(** Whatever the steganography module does, [handleEmbed] lets no
    exception escape, and it triggers a download only after all three
    module calls returned, under the name made of the selected file's
    name, for a state with an image and a text to embed; an exception
    of the module ends in the toast [Embedding Failed] with no
    download. *)
Theorem embed_downloads_only_on_success (st : State) (w : World) :
  exists download toast,
    fst (handleEmbed loadImageData embedTextInImage imageDataToBlob st w) = inr (download, toast)
    /\ match download with
       | Some (blob, filename) =>
           toast = Embedding_Successful filename
           /\ textInput st <> []
           /\ exists selected,
                imageFile st = Some selected
                /\ filename = newFileName (name (image selected))
                /\ fst ((imageData <- loadImageData (image selected) ;;
                         embedded <- embedTextInImage imageData (textInput st) ;;
                         imageDataToBlob embedded) w)
                   = inr blob
       | None =>
           (toast = Missing_Inputs
            /\ (imageFile st = None \/ textInput st = [])
            /\ snd (handleEmbed loadImageData embedTextInImage imageDataToBlob st w) = w)
           \/ exists error, toast = Embedding_Failed error
       end.
Proof.
  unfold handleEmbed.
  destruct (imageFile st) as [selected|] eqn:Himage;
    [|exists None, Missing_Inputs; split; [reflexivity|]; left; auto].
  destruct (textInput st) as [|c text] eqn:Htext;
    [exists None, Missing_Inputs; split; [reflexivity|]; left; auto|].
  cbn [is_empty]. unfold try_catch, bind, ret.
  destruct (loadImageData (image selected) w) as [[e|imageData] w1] eqn:E1;
    [exists None, (Embedding_Failed e); split; [reflexivity|]; right; eauto|].
  destruct (embedTextInImage imageData (c :: text) w1)
    as [[e|embedded] w2] eqn:E2;
    [exists None, (Embedding_Failed e); split; [reflexivity|]; right; eauto|].
  destruct (imageDataToBlob embedded w2) as [[e|blob] w3] eqn:E3;
    [exists None, (Embedding_Failed e); split; [reflexivity|]; right; eauto|].
  eexists. eexists. split; [reflexivity|]. cbn [fst].
  split; [reflexivity|]. split; [discriminate|].
  exists selected. repeat split. now rewrite E1, E2, E3.
Qed.

(** Whatever the steganography module does, [handleExtract] lets no
    exception escape and changes nothing but the extracted text: the
    text the module returned on success, and the empty text when the
    module threw, so a failed extraction never leaves an earlier result
    on display. *)
Theorem extract_failure_clears_text (st : State) (w : World) :
  exists st' toast,
    fst (handleExtract loadImageData extractTextFromImage st w) = inr (st', toast)
    /\ imageFile st' = imageFile st
    /\ textInput st' = textInput st
    /\ match toast with
       | Missing_Image => imageFile st = None /\ st' = st /\ snd (handleExtract loadImageData extractTextFromImage st w) = w
       | Extraction_Successful =>
           exists selected,
             imageFile st = Some selected
             /\ fst ((imageData <- loadImageData (image selected) ;;
                      extractTextFromImage imageData) w)
                = inr (extractedText st')
       | Extraction_Failed error =>
           extractedText st' = []
           /\ exists selected,
                imageFile st = Some selected
                /\ fst ((imageData <- loadImageData (image selected) ;;
                         extractTextFromImage imageData) w)
                   = inl error
       | _ => False
       end.
Proof.
  unfold handleExtract.
  destruct (imageFile st) as [selected|] eqn:Himage;
    [|exists st, Missing_Image; rewrite Himage; repeat split].
  unfold try_catch, bind, ret.
  destruct (loadImageData (image selected) w) as [[e|imageData] w1] eqn:E1;
    [eexists; eexists; split; [reflexivity|]; cbn; repeat split;
     exists selected; now rewrite E1|].
  destruct (extractTextFromImage imageData w1) as [[e|text] w2] eqn:E2;
    eexists; eexists; (split; [reflexivity|]); cbn; repeat split;
    exists selected; now rewrite E1, E2.
Qed.

End SteganographyFacts.

(** * Instances of the further properties *)

Module FurtherExamples.
Import Reference Samples.

#[local] Existing Instance platform.

Local Ltac evaluate := vm_compute; reflexivity.
Local Ltac differ := let H := fresh in intros H; vm_compute in H; discriminate H.

(** A header whose [sp] is the text [!]: the exception of [atob]
    escapes. *)
Lemma parseMetadata_failures_witness :
  In invalid_character parse_failures
  /\ snd (parseMetadata (P := platform)
            {| name := js "bad.dyadenc";
               content := framed undecodable_metadata [] |} (world 1))
     = extend (world 1) [ConsoleLog INFO [Text "Starting metadata parsing."]].
Proof.
  refine (parseMetadata_failures (P := platform)
            {| name := js "bad.dyadenc";
               content := framed undecodable_metadata [] |} (world 1)
            invalid_character _).
  reflexivity.
Defined.

(** The envelope of the sample file. *)
Lemma parsed_metadata_is_checked_witness :
  firstn 4 (envelope (P := platform) sample_file sample_password sample_email
              (draws (world 1)))
  = magic_bytes.
Proof.
  refine (proj1 (parsed_metadata_is_checked (P := platform)
            {| name := js "a.txt.dyadenc";
               content := envelope sample_file sample_password sample_email
                            (draws (world 1)) |}
            (world 2)
            (envelope_parsed sample_file sample_password sample_email
               (draws (world 1))) _)).
  reflexivity.
Defined.

(** A master key in the place of a stretched key. *)
Lemma sealed_key_is_not_combined_witness :
  fst (deriveMasterKey (P := platform) (master_key [] [])
         (stretched sample_email []) (world 1))
  = inl (DOMException "InvalidAccessError").
Proof.
  refine (f_equal fst (sealed_key_is_not_combined (P := platform)
            (master_key [] []) (stretched sample_email []) (world 1) _)).
  evaluate.
Defined.

(** A data key of 32 bytes under the master key of the sample secrets. *)
Lemma unwrap_opens_wrapped_key_witness :
  exists wrappedKey iv,
    fst (wrapDataKey (P := platform) (data_key (repeat x01 32))
           (master_of sample_password sample_email [] []) (world 1))
    = inr (wrappedKey, iv)
    /\ elements iv = upcoming (world 1) 0 12
    /\ fst (unwrapDataKey wrappedKey (elements iv)
              (master_of sample_password sample_email [] []) (world 2))
       = inr (imported_key (raw (data_key (repeat x01 32)))).
Proof.
  refine (unwrap_opens_wrapped_key (P := platform) (data_key (repeat x01 32))
            (master_of sample_password sample_email [] []) (world 1) (world 2)
            _ _ _ _ _ _); evaluate.
Defined.

(** The empty file under a data key of 32 bytes. *)
Lemma payload_round_trip_witness :
  exists blob,
    fst (encryptFileStream (P := platform) empty_file
           (data_key (repeat x01 32)) (world 1)) = inr blob
    /\ firstn 12 blob = upcoming (world 1) 0 12
    /\ length blob = (length (content empty_file) + 28)%nat
    /\ fst (decryptFileStream blob (data_key (repeat x01 32)) (world 2))
       = inr (content empty_file).
Proof.
  refine (payload_round_trip (P := platform) empty_file
            (data_key (repeat x01 32)) (world 1) (world 2) _ _ _ _ _);
    evaluate.
Defined.


(** A password of five code units. *)
Lemma guards_stop_before_any_work_witness :
  handleEncrypt (P := platform) (Some sample_file) (js "short") sample_email
    (world 1)
  = (inr PasswordTooShort, world 1).
Proof.
  refine (proj1 (guards_stop_before_any_work (P := platform)
            (Some sample_file) (js "short") sample_email (world 1) _)).
  do 3 right. vm_compute. lia.
Defined.

(** The first two bytes of a zip archive. *)
Lemma foreign_file_is_rejected_witness :
  decryptFile (P := platform) foreign_file sample_password sample_email (world 1)
  = (inl (Error "Invalid file format: Magic header mismatch."),
     extend (world 1) [ConsoleLog INFO [Text "Starting metadata parsing."]]).
Proof.
  refine (foreign_file_is_rejected (P := platform) foreign_file
            sample_password sample_email (world 1) _).
  differ.
Defined.

(** A header whose metadata is an opening brace. *)
Lemma malformed_json_is_rejected_witness :
  decryptFile (P := platform)
    {| name := js "bad.dyadenc";
       content := framed (list_byte_of_string "{") [] |}
    sample_password sample_email (world 1)
  = (inl (Error "Invalid file format: Metadata JSON parsing failed."),
     extend (world 1) [ConsoleLog INFO [Text "Starting metadata parsing."]]).
Proof.
  refine (malformed_json_is_rejected (P := platform) (js "bad.dyadenc")
            (list_byte_of_string "{") [] sample_password sample_email
            (world 1) _ _); evaluate.
Defined.

(** A header without [fileName]. *)
Lemma well_formed_header_is_accepted_witness :
  fst (parseMetadata (P := platform)
         {| name := js "nameless.dyadenc";
            content := framed nameless_metadata [] |} (world 1))
  = inr {| fileName := None; sp := repeat x00 16; se := repeat x01 16;
           wiv := repeat x02 12; wdek := [x03; x04];
           headerLength := 8 + length nameless_metadata |}.
Proof.
  refine (well_formed_header_is_accepted (P := platform) (js "nameless.dyadenc")
            nameless_metadata [] nameless_value None (repeat x00 16)
            (repeat x01 16) (repeat x02 12) [x03; x04] (world 1)
            _ _ _ _ _ _ _ _ _ _); evaluate.
Defined.

(** The header of the sample envelope with nothing after it. *)
Lemma damaged_payload_is_rejected_witness :
  fst (decryptFile (P := platform)
         {| name := js "cut.dyadenc";
            content :=
              header_bytes (js "a.txt") (drawn_sp (draws (world 1)))
                (drawn_se (draws (world 1))) (drawn_wiv (draws (world 1)))
                (wrapped_dek sample_password sample_email (draws (world 1)))
              ++ [] |}
         sample_password sample_email (world 2))
  = inl (if Nat.ltb (length (@nil byte)) 28 then too_short
         else integrity_failed).
Proof.
  refine (damaged_payload_is_rejected (P := platform) (js "a.txt")
            (js "cut.dyadenc") (drawn_sp (draws (world 1)))
            (drawn_se (draws (world 1))) (drawn_wiv (draws (world 1)))
            (wrapped_dek sample_password sample_email (draws (world 1)))
            [] (drawn_dek (draws (world 1)))
            sample_password sample_email (world 2) _ _ _ _ _ _ _).
  - evaluate.
  - evaluate.
  - evaluate.
  - split; evaluate.
  - evaluate.
  - evaluate.
  - left. vm_compute. lia.
Defined.

(** Fresh arrays of 16, 16 and 12 zero bytes. *)
Lemma packaged_header_is_parsed_witness :
  exists header md,
    fst (packageMetadata (P := platform) (js "a.txt") (Uint8Array_new 16)
           (Uint8Array_new 16) (Uint8Array_new 12) [x03; x04] (world 1))
    = inr header
    /\ fst (parseMetadata
              {| name := js "a.txt.dyadenc";
                 content := elements header ++ [x05] |} (world 2))
       = inr md
    /\ fileName md = Some (JString (js "a.txt"))
    /\ sp md = elements (Uint8Array_new 16)
    /\ se md = elements (Uint8Array_new 16)
    /\ wiv md = elements (Uint8Array_new 12) /\ wdek md = [x03; x04]
    /\ headerLength md = length (elements header)
    /\ slice_from (elements header ++ [x05]) (headerLength md) = [x05].
Proof.
  refine (packaged_header_is_parsed (P := platform) (js "a.txt")
            (js "a.txt.dyadenc") (Uint8Array_new 16) (Uint8Array_new 16)
            (Uint8Array_new 12) [x03; x04] [x05] (world 1) (world 2)
            _ _ _ _ _ _ _).
  - split; reflexivity.
  - split; reflexivity.
  - split; reflexivity.
  - evaluate.
  - evaluate.
  - evaluate.
  - split; evaluate.
Defined.

(** The envelope of the sample file, selected in a form whose default
    mode is encrypt. *)
Lemma saved_file_selects_decrypt_witness :
  exists saved_name,
    Some (JString (number := number (Platform := platform))
            (name sample_file ++ ENCRYPTED_FILE_EXTENSION))
    = Some (JString saved_name)
    /\ CryptoForm.mode
         (CryptoForm.handleFileChange CryptoForm.Encrypt
            (Some {| name := saved_name;
                     content := envelope (P := platform) sample_file
                                  sample_password sample_email
                                  (draws (world 1)) |})
            {| CryptoForm.mode := CryptoForm.Encrypt;
               CryptoForm.file := None |})
       = CryptoForm.Decrypt.
Proof.
  refine (saved_file_selects_decrypt (P := platform) (Some sample_file)
            sample_password sample_email (world 1)
            (envelope sample_file sample_password sample_email
               (draws (world 1)))
            (Some (JString (name sample_file ++ ENCRYPTED_FILE_EXTENSION)))
            CryptoForm.Encrypt
            {| CryptoForm.mode := CryptoForm.Encrypt;
               CryptoForm.file := None |} _).
  reflexivity.
Defined.

(** The name [holiday.photo.jpeg], and the name [jpeg]. *)
Lemma embedded_name_drops_extension_witness :
  SteganographyForm.newFileName (js "holiday.photo.jpeg")
  = js "embedded_holiday.photo.png"
  /\ SteganographyForm.newFileName (js "jpeg") = js "embedded_image.png".
Proof.
  refine (embedded_name_drops_extension (js "holiday.photo") (js "jpeg") _).
  intros H. vm_compute in H. intuition discriminate.
Defined.

(** A text file chosen in the steganography form, with a module that
    returns at once. *)
Lemma non_image_is_never_loaded_witness :
  SteganographyForm.handleEmbed (fun _ => ret tt) (fun _ _ => ret tt)
    (fun _ => ret [])
    (fst (SteganographyForm.handleImageChange SteganographyForm.Extract
            (Some text_file) empty_form))
    (world 1)
  = (inr (None, SteganographyForm.Missing_Inputs), world 1)
  /\ SteganographyForm.handleExtract (fun _ => ret tt) (fun _ => ret [])
       (fst (SteganographyForm.handleImageChange SteganographyForm.Extract
               (Some text_file) empty_form))
       (world 1)
     = (inr (fst (SteganographyForm.handleImageChange
                    SteganographyForm.Extract (Some text_file) empty_form),
             SteganographyForm.Missing_Image),
        world 1).
Proof.
  refine (non_image_is_never_loaded unit (fun _ => ret tt) (fun _ _ => ret tt)
            (fun _ => ret []) (fun _ => ret [])
            SteganographyForm.Extract (Some text_file) empty_form (world 1) _).
  intros selected H. injection H as <-. evaluate.
Defined.

End FurtherExamples.
